(** * The views reducer of undying-dusk ([pdf_game/reducer.py])

    A shallow embedding of [reduce_views] and of the helpers it calls, of the
    [FakePdfRecorder] that stands for the PDF when a page is fingerprinted,
    and of the title screens of [trailer/build_gif_trailer.py], followed by
    their properties.

    Python objects live in explicit stores: a heap of [GameView] objects
    addressed by references, and the list of [FingerprintedPage] wrappers that
    [build_fingerprinted_pages] allocates, addressed by their position.
    Exceptions are values of the [result] type. *)

From Stdlib Require Import ZArith Lia.
From stdpp Require Import gmap list sorting strings.

Local Open Scope Z_scope.
Set Default Proof Using "Type".

(** ** Exceptions *)

Inductive error :=
  | AssertionError          (* [assert ..., 'Prevent infinite loop'] *)
  | KeyError                (* a failed dict subscript *)
  | ZeroDivisionError       (* the percentage of an empty page list *)
  | RecursionError          (* an identifier alias chain that never ends *)
  | UnresolvableReference   (* a link to a page without identifier *)
  | InvalidReference        (* an address outside the store *)
  | PassBudgetExhausted.    (* the bound put on the [while True] loop *)

Inductive result (A : Type) :=
  | Ok (a : A)
  | Err (e : error).
Arguments Ok {A} a.
Arguments Err {A} e.

#[global] Instance error_eq_dec : EqDecision error.
Proof. solve_decision. Defined.

#[global] Instance result_eq_dec {A} `{EqDecision A} : EqDecision (result A).
Proof. solve_decision. Defined.

Definition rbind {A B} (m : result A) (k : A → result B) : result B :=
  match m with
  | Ok a => k a
  | Err e => Err e
  end.

Notation "'do' x <- m ; k" := (rbind m (λ x, k))
  (at level 10, x name, m at level 100, k at level 200).

Fixpoint mapM_result {A B} (f : A → result B) (l : list A) : result (list B) :=
  match l with
  | [] => Ok []
  | a :: l' => do b <- f a; do bs <- mapM_result f l'; Ok (b :: bs)
  end.

Fixpoint foldM_result {A S} (f : S → A → result S) (l : list A) (s : S) : result S :=
  match l with
  | [] => Ok s
  | a :: l' => do s' <- f s a; foldM_result f l' s'
  end.

(** ** Pages *)

(** A reference to a [GameView] object: its address in the heap. *)
Abbreviation ref := nat.

Module Reducer.

Section Model.

(** What a page draws, and the names of its action slots, are opaque here. *)
Context {Content Slot Call : Type}.

(** Modelled from the spec: the [GameView] class is not part of the sources at
    hand. A page has a mapping from action slot to an optional other page, an
    identifier, and the page its identifier was redirected to, if any:
    "reassigning a duplicate page's identifier to alias its representative's
    identifier". *)
Record GameView := mkGameView {
  content : Content;
  actions : list (Slot * option ref);
  own_page_id : option Z;
  page_id_alias : option ref;
}.

Abbreviation heap := (list GameView).

(** Modelled from the spec: [game_view.page_id], following the redirections.
    Python's recursion limit is rendered by the number of objects. *)
Fixpoint page_id_aux (fuel : nat) (h : heap) (r : ref) : result (option Z) :=
  match fuel with
  | O => Err RecursionError
  | S fuel' =>
      match h !! r with
      | None => Err InvalidReference
      | Some gv =>
          match page_id_alias gv with
          | Some r' => page_id_aux fuel' h r'
          | None => Ok (own_page_id gv)
          end
      end
  end.

Definition page_id (h : heap) (r : ref) : result (option Z) :=
  page_id_aux (length h) h r.

Definition set_alias (target : ref) (gv : GameView) : GameView :=
  mkGameView (content gv) (actions gv) (own_page_id gv) (Some target).

(** Modelled from the spec: [game_view.page_id_from(other)]. *)
Definition page_id_from (h : heap) (r target : ref) : heap :=
  alter (set_alias target) r h.

(** ** Fingerprints *)

(** [render_page] is not part of the sources at hand: it is a parameter, the
    list of calls that [FakePdfRecorder] has in [_calls] once the page is
    rendered, from what the page draws and from its links, each link target
    given by its current identifier. [hash] is Python's [hash] on the tuple of
    those calls. *)
Variable render_page : Content → list (Slot * option Z) → list Call.
Variable hash : list Call → Z.

(** [FakePdfRecorder.get_fingerprint] *)
Definition get_fingerprint (_calls : list Call) : Z := hash _calls.

(** Modelled from the spec: a link to a page without identifier is fatal. *)
Definition resolve_link (h : heap) (a : Slot * option ref) : result (Slot * option Z) :=
  match a.2 with
  | None => Ok (a.1, None)
  | Some target =>
      do pid <- page_id h target;
      match pid with
      | Some n => Ok (a.1, Some n)
      | None => Err UnresolvableReference
      end
  end.

Definition render_trace (h : heap) (r : ref) : result (list Call) :=
  match h !! r with
  | None => Err InvalidReference
  | Some gv =>
      do links <- mapM_result (resolve_link h) (actions gv);
      Ok (render_page (content gv) links)
  end.

Definition compute_fingerprint (h : heap) (game_view : ref) : result Z :=
  do _calls <- render_trace h game_view;
  Ok (get_fingerprint _calls).

(** ** Fingerprinted pages *)

(** The [pdf] field, one object shared by all the pages and read by the
    renderer only, is left out. *)
Record FingerprintedPage := mkFingerprintedPage {
  game_view : ref;
  fingerprint : Z;
  incoming_pages : list nat;   (* positions of FingerprintedPages *)
}.

Definition set_fingerprint (f : Z) (p : FingerprintedPage) : FingerprintedPage :=
  mkFingerprintedPage (game_view p) f (incoming_pages p).

Definition add_incoming (i : nat) (p : FingerprintedPage) : FingerprintedPage :=
  mkFingerprintedPage (game_view p) (fingerprint p) (incoming_pages p ++ [i]).

(** [FingerprintedPage.__init__] *)
Definition new_fingerprinted_page (h : heap) (gv : ref) : result FingerprintedPage :=
  do f <- compute_fingerprint h gv;
  Ok (mkFingerprintedPage gv f []).

(** The dict comprehension [{fp_page.game_view.page_id: fp_page for ...}]:
    a later page with the same identifier replaces an earlier one. *)
Fixpoint index_by_page_id (h : heap) (gvs : list ref) (i : nat)
    (m : gmap (option Z) nat) : result (gmap (option Z) nat) :=
  match gvs with
  | [] => Ok m
  | gv :: rest =>
      do pid <- page_id h gv;
      index_by_page_id h rest (S i) (<[pid := i]> m)
  end.

(** The inner loop of step 2, over [fp_page.game_view.actions.values()]. *)
Definition link_incoming (h : heap) (per_id : gmap (option Z) nat) (i : nat)
    (fps : list FingerprintedPage) (a : Slot * option ref)
    : result (list FingerprintedPage) :=
  match a.2 with
  | None => Ok fps
  | Some target =>
      do pid <- page_id h target;
      match per_id !! pid with
      | None => Err KeyError
      | Some j => Ok (alter (add_incoming i) j fps)
      end
  end.

Definition set_incoming_of (h : heap) (per_id : gmap (option Z) nat)
    (fps : list FingerprintedPage) (i : nat) : result (list FingerprintedPage) :=
  match fps !! i with
  | None => Err InvalidReference
  | Some fp_page =>
      match h !! game_view fp_page with
      | None => Err InvalidReference
      | Some gv => foldM_result (link_incoming h per_id i) (actions gv) fps
      end
  end.

Definition build_fingerprinted_pages (h : heap) (game_views : list ref)
    : result (list FingerprintedPage) :=
  do fp_pages <- mapM_result (new_fingerprinted_page h) game_views;
  do fp_pages_per_page_id <- index_by_page_id h (map game_view fp_pages) 0 ∅;
  foldM_result (set_incoming_of h fp_pages_per_page_id)
               (seq 0 (length fp_pages)) fp_pages.

(** ** One pass *)

Record pass_state := mkPassState {
  ps_heap : heap;
  ps_pages : list FingerprintedPage;
  gv_per_page_fingerprint : gmap Z ref;
  filtered_fp_pages : list nat;
}.

(** [incoming_fp_page.fingerprint = compute_fingerprint(...)], for every page
    of [fp_page.incoming_pages]. *)
Fixpoint refresh_incoming (h : heap) (incoming : list nat)
    (fps : list FingerprintedPage) : result (list FingerprintedPage) :=
  match incoming with
  | [] => Ok fps
  | j :: rest =>
      match fps !! j with
      | None => Err InvalidReference
      | Some incoming_fp_page =>
          do f <- compute_fingerprint h (game_view incoming_fp_page);
          refresh_incoming h rest (<[j := set_fingerprint f incoming_fp_page]> fps)
      end
  end.

(** The body of the [for fp_page in fingerprinted_pages] loop. A [GameView]
    object counts as true, so that [if existing_matching_gv:] tests whether
    the dict has the fingerprint as a key. The prints and the progress bar
    are left out. *)
Definition visit (st : pass_state) (i : nat) : result pass_state :=
  match ps_pages st !! i with
  | None => Err InvalidReference
  | Some fp_page =>
      match gv_per_page_fingerprint st !! fingerprint fp_page with
      | Some existing_matching_gv =>
          do pid <- page_id (ps_heap st) (game_view fp_page);
          do pid' <- page_id (ps_heap st) existing_matching_gv;
          if decide (pid = pid') then Err AssertionError
          else
            let h' := page_id_from (ps_heap st) (game_view fp_page) existing_matching_gv in
            do fps' <- refresh_incoming h' (incoming_pages fp_page) (ps_pages st);
            Ok (mkPassState h' fps' (gv_per_page_fingerprint st) (filtered_fp_pages st))
      | None =>
          Ok (mkPassState (ps_heap st) (ps_pages st)
                (<[fingerprint fp_page := game_view fp_page]> (gv_per_page_fingerprint st))
                (filtered_fp_pages st ++ [i]))
      end
  end.

Definition run_pass (h : heap) (fps : list FingerprintedPage)
    (fingerprinted_pages : list nat) : result pass_state :=
  foldM_result visit fingerprinted_pages (mkPassState h fps ∅ []).

(** ** The loop *)

Definition MIN_REMOVED_VIEWS_TO_GO_ON : Z := 25.

Record loop_state := mkLoopState {
  ls_heap : heap;
  ls_pages : list FingerprintedPage;
  fingerprinted_pages : list nat;
  pass_number : Z;
  total_views_removed : Z;
}.

(** The exit test of line 53. *)
Definition last_pass (views_removed : Z) (multipass : bool) : bool :=
  (views_removed =? 0) || negb multipass
  || (views_removed <? MIN_REMOVED_VIEWS_TO_GO_ON).

(** The [while True] loop, one pass per unit of [fuel]. *)
Fixpoint reduce_loop (fuel : nat) (multipass : bool) (s : loop_state) : result loop_state :=
  match fuel with
  | O => Err PassBudgetExhausted
  | S fuel' =>
      do st <- run_pass (ls_heap s) (ls_pages s) (fingerprinted_pages s);
      let views_removed :=
        Z.of_nat (length (fingerprinted_pages s))
        - Z.of_nat (length (filtered_fp_pages st)) in
      let s' := mkLoopState (ps_heap st) (ps_pages st) (filtered_fp_pages st)
                  (pass_number s + 1) (total_views_removed s + views_removed) in
      if last_pass views_removed multipass then Ok s'
      else reduce_loop fuel' multipass s'
  end.

(** ** [reduce_views] *)

(** [assign_page_ids] is not part of the sources at hand: it is a parameter,
    from the pages to the pages with their identifiers. *)
Variable assign_page_ids : heap → list ref → heap * list ref.

Record reduced := mkReduced {
  out_heap : heap;                 (* the pages, as the run leaves them *)
  out_views : list ref;            (* the returned list *)
  out_removed : Z;                 (* total_views_removed *)
  out_percent : Z * Z;             (* 100*total_views_removed over len(game_views) *)
  out_passes : Z;                  (* the passes that were run *)
}.

Definition unwrap (fps : list FingerprintedPage) (i : nat) : result ref :=
  match fps !! i with
  | None => Err InvalidReference
  | Some fp_page => Ok (game_view fp_page)
  end.

(** Lines 28 to 56, from the pages with their identifiers. *)
Definition reduce_assigned (h : heap) (game_views : list ref) (multipass : bool)
    : result reduced :=
  do fps <- build_fingerprinted_pages h game_views;
  do s <- reduce_loop (S (length game_views)) multipass
            (mkLoopState h fps (seq 0 (length fps)) 1 0);
  if decide (length game_views = 0%nat) then Err ZeroDivisionError
  else
    do views <- mapM_result (unwrap (ls_pages s)) (fingerprinted_pages s);
    Ok (mkReduced (ls_heap s) views (total_views_removed s)
          (100 * total_views_removed s, Z.of_nat (length game_views))
          (pass_number s - 1)).

Definition reduce_views (h : heap) (game_views : list ref) (multipass : bool)
    : result reduced :=
  let '(h', game_views') := assign_page_ids h game_views in
  reduce_assigned h' game_views' multipass.

End Model.

End Reducer.

Export Reducer.

Arguments GameView : clear implicits.
Arguments FingerprintedPage : clear implicits.

(** ** A concrete game

    A small renderer, a collision-free hash and an identifier assignment, on
    which the reducer is run on explicit pages. *)

Module Demo.

(** The calls a page's rendering records: its text, then one link per action
    slot, with the identifier of the page it leads to. *)
Inductive call :=
  | Text (txt : Z)
  | Link (slot : Z) (page : option Z).

Definition draw (txt : Z) (links : list (Z * option Z)) : list call :=
  Text txt :: map (λ l, Link l.1 l.2) links.

Definition call_code (c : call) : Z * option (option Z) :=
  match c with
  | Text t => (t, None)
  | Link s p => (s, Some p)
  end.

(** A hash without collisions: the position of the calls in an enumeration. *)
Definition trace_hash (l : list call) : Z := Z.pos (encode (map call_code l)).

(** Another one, for a second interpreter process. *)
Definition trace_hash' (l : list call) : Z := - trace_hash l.

Definition set_page_id (n : Z) (gv : GameView Z Z) : GameView Z Z :=
  mkGameView (content gv) (actions gv) (Some n) None.

Fixpoint number_pages (h : list (GameView Z Z)) (gvs : list ref) (n : Z)
    : list (GameView Z Z) :=
  match gvs with
  | [] => h
  | r :: rest => number_pages (alter (set_page_id n) r h) rest (n + 1)
  end.

(** Modelled from the spec: [assign_page_ids] gives every page of the list a
    unique identifier; here 1, 2, ... in the order of the list. *)
Definition assign_in_order (h : list (GameView Z Z)) (gvs : list ref)
    : list (GameView Z Z) * list ref :=
  (number_pages h gvs 1, gvs).

Definition page (txt : Z) (acts : list (Z * option ref)) : GameView Z Z :=
  mkGameView txt acts None None.

(** A game-over page, a page leading to a second game-over page, that second
    page, and a page like the second one leading to the first game-over page. *)
Definition four_pages : list (GameView Z Z) :=
  [ page 7 []; page 5 [(0, Some 2%nat)]; page 7 []; page 5 [(0, Some 0%nat)] ].

(** Two pages that were given the same identifier. *)
Definition twins : list (GameView Z Z) :=
  [ mkGameView 7 [] (Some 1) None; mkGameView 7 [] (Some 1) None ].

(** A page whose only action leads to itself, and a page leading to it. *)
Definition self_loop : list (GameView Z Z) :=
  [ page 3 [(0, Some 0%nat)]; page 4 [(0, Some 0%nat)] ].

(** Two pages of the same content that each lead to themselves, and two
    game-over pages. *)
Definition self_loops : list (GameView Z Z) :=
  [ page 3 [(0, Some 0%nat)]; page 3 [(0, Some 1%nat)]; page 7 []; page 7 [] ].

(** An identifier assignment that finds the identifiers in place and leaves
    them as they are. *)
Definition keep_ids (h : list (GameView Z Z)) (gvs : list ref)
    : list (GameView Z Z) * list ref :=
  (h, gvs).



(** Scenario A: a page leading to two pages of the same content, which both
    lead back to it. *)
Definition scenario_a : list (GameView Z Z) :=
  [ page 1 [(0, Some 1%nat); (1, Some 2%nat)];
    page 2 [(0, Some 0%nat)]; page 2 [(0, Some 0%nat)] ].


(** The four pages with their identifiers, and their wrappers as
    [build_fingerprinted_pages] returns them. *)
Definition four_assigned : list (GameView Z Z) :=
  (assign_in_order four_pages [0; 1; 2; 3]%nat).1.

Definition four_fps : list FingerprintedPage :=
  [ mkFingerprintedPage 0 (trace_hash (draw 7 [])) [3%nat];
    mkFingerprintedPage 1 (trace_hash (draw 5 [(0, Some 3)])) [];
    mkFingerprintedPage 2 (trace_hash (draw 7 [])) [1%nat];
    mkFingerprintedPage 3 (trace_hash (draw 5 [(0, Some 1)])) [] ].

Definition four_state : @loop_state Z Z :=
  mkLoopState four_assigned four_fps [0; 1; 2; 3]%nat 1 0.

Definition twins_pages : list FingerprintedPage :=
  [ mkFingerprintedPage 0 (trace_hash [Text 7]) [];
    mkFingerprintedPage 1 (trace_hash [Text 7]) [] ].

Definition twins_state : @loop_state Z Z :=
  mkLoopState twins twins_pages [0; 1]%nat 1 0.

Definition self_loop_assigned : list (GameView Z Z) :=
  (assign_in_order self_loop [0; 1]%nat).1.

End Demo.

(** ** [FakePdfRecorder]

    The recorder as a value: the list [_calls] and the dict [_links]. The
    arguments of the calls are opaque Python values. A link is a [str] (a URL)
    or an [int], the handle that [add_link] returns. The real [pdf] is not
    part of the state: its [_parsepng] is a parameter. *)

Module Recorder.

Section Recorder.

Context {Value : Type}.

Inductive link_arg :=
  | Url (url : Value)        (* isinstance(link, str) *)
  | Handle (n : Z).

(** The sixth component of a recorded ['link'] call. *)
Inductive link_target :=
  | TargetUrl (url : Value)
  | TargetPage (page : Value).

Inductive call :=
  | call_add_page
  | call_set_font (family style size : Value)
  | call_text (x y txt : Value)
  | call_set_text_color (r g b : Value)
  | call_image (name x y w h : Value) (link : link_arg)
  | call_rect_clip (x y w h : Value)
  | call_rotation (angle x y : Value)
  | call_link (x y w h : Value) (page_or_url : link_target) (alt_text : Value).

Variable pdf_parsepng : Value → result Value.
Variable hash : list call → Z.

Record FakePdfRecorder := mkRecorder {
  _calls : list call;
  _links : gmap Z Value;
}.

(** [FakePdfRecorder.__init__] *)
Definition new_recorder : FakePdfRecorder := mkRecorder [] ∅.

(** [self._calls.append(c)] *)
Definition record (r : FakePdfRecorder) (c : call) : FakePdfRecorder :=
  mkRecorder (_calls r ++ [c]) (_links r).

Definition add_font (r : FakePdfRecorder) (family style fname uni : Value)
    : FakePdfRecorder := r.

Definition add_page (r : FakePdfRecorder) : FakePdfRecorder :=
  record r call_add_page.

Definition set_font (r : FakePdfRecorder) (family style size : Value) : FakePdfRecorder :=
  record r (call_set_font family style size).

Definition text (r : FakePdfRecorder) (x y txt : Value) : FakePdfRecorder :=
  record r (call_text x y txt).

Definition set_text_color (r : FakePdfRecorder) (red g b : Value) : FakePdfRecorder :=
  record r (call_set_text_color red g b).

Definition image (r : FakePdfRecorder) (name x y w h : Value) (link : link_arg)
    : FakePdfRecorder :=
  record r (call_image name x y w h link).

(** Entering the [with] block of [rect_clip]; leaving it does nothing. *)
Definition rect_clip (r : FakePdfRecorder) (x y w h : Value) : FakePdfRecorder :=
  record r (call_rect_clip x y w h).

(** Entering the [with] block of [rotation]; leaving it does nothing. *)
Definition rotation (r : FakePdfRecorder) (angle x y : Value) : FakePdfRecorder :=
  record r (call_rotation angle x y).

Definition add_link (r : FakePdfRecorder) : Z :=
  Z.of_nat (size (_links r)) + 1.

Definition set_link (r : FakePdfRecorder) (link : Z) (page : Value) : FakePdfRecorder :=
  mkRecorder (_calls r) (<[link := page]> (_links r)).

Definition link (r : FakePdfRecorder) (x y w h : Value) (l : link_arg) (alt_text : Value)
    : result FakePdfRecorder :=
  match l with
  | Url url => Ok (record r (call_link x y w h (TargetUrl url) alt_text))
  | Handle n =>
      match _links r !! n with
      | Some page => Ok (record r (call_link x y w h (TargetPage page) alt_text))
      | None => Err KeyError
      end
  end.

Definition _parsepng (r : FakePdfRecorder) (filename : Value) : result Value :=
  pdf_parsepng filename.

Definition get_fingerprint (r : FakePdfRecorder) : Z :=
  Reducer.get_fingerprint hash (_calls r).

(** What a renderer does with the recorder it is given: method calls one
    after the other, where the calls that follow [add_link] and [_parsepng]
    may depend on what these return, and the two [with] blocks have a body. *)
Inductive script :=
  | Done
  | AddFont (family style fname uni : Value) (k : script)
  | AddPage (k : script)
  | SetFont (family style size : Value) (k : script)
  | Text (x y txt : Value) (k : script)
  | SetTextColor (r g b : Value) (k : script)
  | Image (name x y w h : Value) (link : link_arg) (k : script)
  | RectClip (x y w h : Value) (body k : script)
  | Rotation (angle x y : Value) (body k : script)
  | AddLink (k : Z → script)
  | SetLink (link : Z) (page : Value) (k : script)
  | Link (x y w h : Value) (link : link_arg) (alt_text : Value) (k : script)
  | ParsePng (filename : Value) (k : Value → script).

Fixpoint run (s : script) (r : FakePdfRecorder) : result FakePdfRecorder :=
  match s with
  | Done => Ok r
  | AddFont family style fname uni k => run k (add_font r family style fname uni)
  | AddPage k => run k (add_page r)
  | SetFont family style size k => run k (set_font r family style size)
  | Text x y txt k => run k (text r x y txt)
  | SetTextColor red g b k => run k (set_text_color r red g b)
  | Image name x y w h l k => run k (image r name x y w h l)
  | RectClip x y w h body k => do r' <- run body (rect_clip r x y w h); run k r'
  | Rotation angle x y body k => do r' <- run body (rotation r angle x y); run k r'
  | AddLink k => run (k (add_link r)) r
  | SetLink l page k => run k (set_link r l page)
  | Link x y w h l alt_text k => do r' <- link r x y w h l alt_text; run k r'
  | ParsePng filename k => do info <- _parsepng r filename; run (k info) r
  end.

(** One script after the other. *)
Fixpoint then_ (s t : script) : script :=
  match s with
  | Done => t
  | AddFont family style fname uni k => AddFont family style fname uni (then_ k t)
  | AddPage k => AddPage (then_ k t)
  | SetFont family style size k => SetFont family style size (then_ k t)
  | Text x y txt k => Text x y txt (then_ k t)
  | SetTextColor red g b k => SetTextColor red g b (then_ k t)
  | Image name x y w h l k => Image name x y w h l (then_ k t)
  | RectClip x y w h body k => RectClip x y w h body (then_ k t)
  | Rotation angle x y body k => Rotation angle x y body (then_ k t)
  | AddLink k => AddLink (λ l, then_ (k l) t)
  | SetLink l page k => SetLink l page (then_ k t)
  | Link x y w h l alt_text k => Link x y w h l alt_text (then_ k t)
  | ParsePng filename k => ParsePng filename (λ info, then_ (k info) t)
  end.

(** A script that never calls [set_link] on the handle [n]. *)
Fixpoint never_binds (n : Z) (s : script) : Prop :=
  match s with
  | Done => True
  | AddFont _ _ _ _ k | AddPage k | SetFont _ _ _ k | Text _ _ _ k
  | SetTextColor _ _ _ k | Image _ _ _ _ _ _ k | Link _ _ _ _ _ _ k => never_binds n k
  | RectClip _ _ _ _ body k | Rotation _ _ _ body k => never_binds n body ∧ never_binds n k
  | AddLink k => ∀ l, never_binds n (k l)
  | SetLink l _ k => l ≠ n ∧ never_binds n k
  | ParsePng _ k => ∀ info, never_binds n (k info)
  end.

(** A script that binds every handle as soon as [add_link] returns it, and
    calls [set_link] nowhere else. *)
Inductive binds_at_once : script → Prop :=
  | bo_Done : binds_at_once Done
  | bo_AddFont family style fname uni k :
      binds_at_once k → binds_at_once (AddFont family style fname uni k)
  | bo_AddPage k : binds_at_once k → binds_at_once (AddPage k)
  | bo_SetFont family style size k :
      binds_at_once k → binds_at_once (SetFont family style size k)
  | bo_Text x y txt k : binds_at_once k → binds_at_once (Text x y txt k)
  | bo_SetTextColor red g b k :
      binds_at_once k → binds_at_once (SetTextColor red g b k)
  | bo_Image name x y w h l k :
      binds_at_once k → binds_at_once (Image name x y w h l k)
  | bo_RectClip x y w h body k :
      binds_at_once body → binds_at_once k → binds_at_once (RectClip x y w h body k)
  | bo_Rotation angle x y body k :
      binds_at_once body → binds_at_once k → binds_at_once (Rotation angle x y body k)
  | bo_AddLink (page : Z → Value) (k : Z → script) :
      (∀ l, binds_at_once (k l)) →
      binds_at_once (AddLink (λ l, SetLink l (page l) (k l)))
  | bo_Link x y w h l alt_text k :
      binds_at_once k → binds_at_once (Link x y w h l alt_text k)
  | bo_ParsePng filename k :
      (∀ info, binds_at_once (k info)) → binds_at_once (ParsePng filename k).

(** The handles in use are 1, ..., [len(self._links)]. *)
Definition handles_in_a_row (r : FakePdfRecorder) : Prop :=
  ∀ n, is_Some (_links r !! n) ↔ 1 ≤ n ≤ Z.of_nat (size (_links r)).

(** Two scripts that are the same but for the pages of their [set_link]
    calls, and that call [link] on URLs only. *)
Inductive same_but_pages : script → script → Prop :=
  | sp_Done : same_but_pages Done Done
  | sp_AddFont family style fname uni k1 k2 :
      same_but_pages k1 k2 →
      same_but_pages (AddFont family style fname uni k1) (AddFont family style fname uni k2)
  | sp_AddPage k1 k2 : same_but_pages k1 k2 → same_but_pages (AddPage k1) (AddPage k2)
  | sp_SetFont family style size k1 k2 :
      same_but_pages k1 k2 →
      same_but_pages (SetFont family style size k1) (SetFont family style size k2)
  | sp_Text x y txt k1 k2 :
      same_but_pages k1 k2 → same_but_pages (Text x y txt k1) (Text x y txt k2)
  | sp_SetTextColor red g b k1 k2 :
      same_but_pages k1 k2 →
      same_but_pages (SetTextColor red g b k1) (SetTextColor red g b k2)
  | sp_Image name x y w h l k1 k2 :
      same_but_pages k1 k2 →
      same_but_pages (Image name x y w h l k1) (Image name x y w h l k2)
  | sp_RectClip x y w h body1 body2 k1 k2 :
      same_but_pages body1 body2 → same_but_pages k1 k2 →
      same_but_pages (RectClip x y w h body1 k1) (RectClip x y w h body2 k2)
  | sp_Rotation angle x y body1 body2 k1 k2 :
      same_but_pages body1 body2 → same_but_pages k1 k2 →
      same_but_pages (Rotation angle x y body1 k1) (Rotation angle x y body2 k2)
  | sp_AddLink k1 k2 :
      (∀ l, same_but_pages (k1 l) (k2 l)) → same_but_pages (AddLink k1) (AddLink k2)
  | sp_SetLink l page1 page2 k1 k2 :
      same_but_pages k1 k2 → same_but_pages (SetLink l page1 k1) (SetLink l page2 k2)
  | sp_Link x y w h url alt_text k1 k2 :
      same_but_pages k1 k2 →
      same_but_pages (Link x y w h (Url url) alt_text k1) (Link x y w h (Url url) alt_text k2)
  | sp_ParsePng filename k1 k2 :
      (∀ info, same_but_pages (k1 info) (k2 info)) →
      same_but_pages (ParsePng filename k1) (ParsePng filename k2).

End Recorder.

Arguments link_arg : clear implicits.
Arguments link_target : clear implicits.
Arguments call : clear implicits.
Arguments FakePdfRecorder : clear implicits.
Arguments script : clear implicits.

End Recorder.

(** ** The title screens of the trailer ([trailer/build_gif_trailer.py])

    The frames are values. [init_pdf_img(fpdf, 'nightsky')] and
    [bitfont_render] are not in this file: the blank night sky and the
    function that draws a centred text on a frame are parameters. *)

Module Trailer.

Section Trailer.

Context {Image : Type}.
Variable nightsky : Image.
Variable bitfont_render : Image → string → Z → Z → Z → Image.

(** [assert cond] *)
Definition assert_that (cond : bool) : result unit :=
  if cond then Ok () else Err AssertionError.

(** The truth value of a text that may be [None]. *)
Definition truthy (text : option string) : bool :=
  match text with
  | Some s => negb (String.eqb s "")
  | None => false
  end.

(** The body of the loop of [title_screen]. *)
Definition title_frame (text : option string) (size : Z) : Image :=
  let img := bitfont_render nightsky "UNDYING DUSK" 80 8 16 in
  match text with
  | Some s => if truthy text then bitfont_render img s 80 70 size else img
  | None => img
  end.

(** [images[-1]]; the error stands for [IndexError]. *)
Definition last_image (images : list Image) : result Image :=
  match last images with
  | Some img => Ok img
  | None => Err InvalidReference
  end.

Definition title_screen (text : option string) (sizes : list Z) : result (list Image) :=
  do _ <- assert_that (negb (bool_decide (sizes = [])));
  do _ <- (if bool_decide (1 < length sizes)%nat then assert_that (truthy text) else Ok ());
  let images := map (title_frame text) sizes in
  if bool_decide (1 < length sizes)%nat then
    do img <- last_image images;
    Ok (images ++ replicate 20 img)
  else Ok images.

Definition title_text : string :=
  "An adventure game
& dungeon crawler
now playable for free!".

(** [sizes=(8,)] *)
Definition default_sizes : list Z := [8].

Definition trailer_end : result (list Image) :=
  foldM_result
    (λ images _,
       do with_text <- title_screen (Some title_text) default_sizes;
       do without_text <- title_screen None default_sizes;
       Ok (images ++ (mjoin (replicate 9 with_text) ++ without_text)))
    (seq 0 10) [].

End Trailer.

End Trailer.

(** ** Generic facts on the exception monad *)

Lemma rbind_ok {A B} (m : result A) (k : A → result B) (b : B) :
  rbind m k = Ok b → ∃ a, m = Ok a ∧ k a = Ok b.
Proof. destruct m as [a|e]; simpl; [eauto | discriminate]. Qed.

Lemma rbind_err {A B} (m : result A) (k : A → result B) (e : error) :
  rbind m k = Err e → m = Err e ∨ ∃ a, m = Ok a ∧ k a = Err e.
Proof. destruct m as [a|e']; simpl; [eauto | intros [= ->]; auto]. Qed.

Ltac inv_ok :=
  repeat match goal with
  | H : rbind _ _ = Ok _ |- _ =>
      let a := fresh "a" in
      let Ha := fresh "Ha" in
      apply rbind_ok in H as (a & Ha & H)
  | H : Ok _ = Ok _ |- _ => injection H as H; try subst
  | H : Err _ = Ok _ |- _ => discriminate H
  | H : Ok _ = Err _ |- _ => discriminate H
  end.

Ltac inv_ok_keep :=
  repeat match goal with
  | H : rbind _ _ = Ok _ |- _ =>
      let a := fresh "a" in
      let Ha := fresh "Ha" in
      apply rbind_ok in H as (a & Ha & H)
  | H : Ok _ = Ok _ |- _ => injection H as H
  | H : Err _ = Ok _ |- _ => discriminate H
  end.

Lemma foldM_result_app {A S} (f : S → A → result S) (l1 l2 : list A) (s : S) :
  foldM_result f (l1 ++ l2) s = do s' <- foldM_result f l1 s; foldM_result f l2 s'.
Proof.
  revert s; induction l1 as [|a l1 IH]; intros s; simpl; [done|].
  destruct (f s a) as [s1|e]; simpl; [apply IH | done].
Qed.

Lemma foldM_result_inv {A S} (f : S → A → result S) (P : S → Prop) (l : list A) :
  (∀ s a s', a ∈ l → P s → f s a = Ok s' → P s') →
  ∀ s s', P s → foldM_result f l s = Ok s' → P s'.
Proof.
  induction l as [|a l IH]; intros Hstep s s' Hs Hrun; simpl in Hrun.
  - by inv_ok.
  - inv_ok. eapply IH; [| |exact Hrun].
    + intros ? ? ? ?. apply Hstep. by right.
    + eapply Hstep; [by left | exact Hs | exact Ha].
Qed.

Lemma mapM_result_length {A B} (f : A → result B) (l : list A) (l' : list B) :
  mapM_result f l = Ok l' → length l' = length l.
Proof.
  revert l'; induction l as [|a l IH]; intros l' H; simpl in H; inv_ok; [done|].
  simpl. f_equal. by apply IH.
Qed.

Lemma mapM_result_lookup {A B} (f : A → result B) (l : list A) (l' : list B) i a :
  mapM_result f l = Ok l' → l !! i = Some a → ∃ b, l' !! i = Some b ∧ f a = Ok b.
Proof.
  revert l' i; induction l as [|x l IH]; intros l' i H Hi; [done|].
  simpl in H. inv_ok. destruct i as [|i]; simpl in *.
  - injection Hi as ->. eauto.
  - eapply IH; eauto.
Qed.

(** ** Properties of the reducer *)

Section Properties.

Context {Content Slot Call : Type}.
Variable render_page : Content → list (Slot * option Z) → list Call.
Variable hash : list Call → Z.
Variable assign_page_ids :
  list (GameView Content Slot) → list ref → list (GameView Content Slot) * list ref.

Local Abbreviation heap := (list (GameView Content Slot)).
Local Abbreviation render_trace := (render_trace render_page).
Local Abbreviation compute_fingerprint := (compute_fingerprint render_page hash).
Local Abbreviation new_fingerprinted_page := (new_fingerprinted_page render_page hash).
Local Abbreviation build_fingerprinted_pages := (build_fingerprinted_pages render_page hash).
Local Abbreviation refresh_incoming := (refresh_incoming render_page hash).
Local Abbreviation visit := (visit render_page hash).
Local Abbreviation run_pass := (run_pass render_page hash).
Local Abbreviation reduce_loop := (reduce_loop render_page hash).
Local Abbreviation reduce_assigned := (reduce_assigned render_page hash).
Local Abbreviation reduce_views := (reduce_views render_page hash assign_page_ids).

(** *** The stopping rule *)

Lemma last_pass_true (views_removed : Z) (multipass : bool) :
  last_pass views_removed multipass = true ↔
  views_removed = 0 ∨ multipass = false ∨ views_removed < MIN_REMOVED_VIEWS_TO_GO_ON.
Proof.
  unfold last_pass. rewrite !orb_true_iff, Z.eqb_eq, Z.ltb_lt, negb_true_iff. tauto.
Qed.

(** C5: after a pass, the loop stops exactly when the pass removed no page, or
    multipass is off, or fewer than 25 pages were removed; otherwise the
    filtered list is the working list of one more pass. *)
Theorem reduce_loop_stop_rule (fuel : nat) (multipass : bool)
    (s : loop_state) (st : pass_state) :
  run_pass (ls_heap s) (ls_pages s) (fingerprinted_pages s) = Ok st →
  let views_removed :=
    Z.of_nat (length (fingerprinted_pages s)) - Z.of_nat (length (filtered_fp_pages st)) in
  let s' := mkLoopState (ps_heap st) (ps_pages st) (filtered_fp_pages st)
              (pass_number s + 1) (total_views_removed s + views_removed) in
  (views_removed = 0 ∨ multipass = false ∨ views_removed < MIN_REMOVED_VIEWS_TO_GO_ON →
     reduce_loop (S fuel) multipass s = Ok s')
  ∧ (¬ (views_removed = 0 ∨ multipass = false
        ∨ views_removed < MIN_REMOVED_VIEWS_TO_GO_ON) →
     reduce_loop (S fuel) multipass s = reduce_loop fuel multipass s'
     ∧ fingerprinted_pages s' = filtered_fp_pages st).
Proof.
  intros Hpass views_removed s'. simpl. rewrite Hpass. simpl.
  fold views_removed. fold s'.
  split; intros H.
  - apply last_pass_true in H. by rewrite H.
  - destruct (last_pass views_removed multipass) eqn:E; [|done].
    apply last_pass_true in E. contradiction.
Qed.

(** *** The exceptions each part can raise *)

Definition raised_by_page_id (e : error) : bool :=
  match e with
  | RecursionError | InvalidReference => true
  | _ => false
  end.

Definition raised_by_render (e : error) : bool :=
  match e with
  | RecursionError | InvalidReference | UnresolvableReference => true
  | _ => false
  end.

Definition raised_by_pass (e : error) : bool :=
  match e with
  | AssertionError | RecursionError | InvalidReference | UnresolvableReference => true
  | _ => false
  end.

Definition raised_by_build (e : error) : bool :=
  match e with
  | KeyError | RecursionError | InvalidReference | UnresolvableReference => true
  | _ => false
  end.

Lemma page_id_aux_error (fuel : nat) (h : heap) (r : ref) (e : error) :
  page_id_aux fuel h r = Err e → raised_by_page_id e = true.
Proof.
  revert r; induction fuel as [|fuel IH]; intros r; simpl; [by intros [= <-]|].
  destruct (h !! r) as [gv|]; [|by intros [= <-]].
  destruct (page_id_alias gv); [apply IH | discriminate].
Qed.

Lemma page_id_error (h : heap) (r : ref) (e : error) :
  page_id h r = Err e → raised_by_page_id e = true.
Proof. apply page_id_aux_error. Qed.

Lemma resolve_link_error (h : heap) (a : Slot * option ref) (e : error) :
  resolve_link h a = Err e → raised_by_render e = true.
Proof.
  unfold resolve_link. destruct a.2 as [t|]; [|discriminate].
  intros H. apply rbind_err in H as [H|(pid & _ & H)].
  - apply page_id_error in H. by destruct e.
  - destruct pid; [discriminate | by injection H as <-].
Qed.

Lemma mapM_result_error {A B} (f : A → result B) (P : error → bool) (l : list A) e :
  (∀ a e, f a = Err e → P e = true) → mapM_result f l = Err e → P e = true.
Proof.
  intros Hf. induction l as [|a l IH]; simpl; [discriminate|].
  intros H. apply rbind_err in H as [H|(b & _ & H)]; [by eapply Hf|].
  apply rbind_err in H as [H|(bs & _ & H)]; [by apply IH | discriminate].
Qed.

Lemma foldM_result_error {A S} (f : S → A → result S) (P : error → bool) (l : list A) s e :
  (∀ s a e, f s a = Err e → P e = true) → foldM_result f l s = Err e → P e = true.
Proof.
  intros Hf. revert s; induction l as [|a l IH]; intros s; simpl; [discriminate|].
  intros H. apply rbind_err in H as [H|(s' & _ & H)]; [by eapply Hf | by eapply IH].
Qed.

Lemma compute_fingerprint_error (h : heap) (r : ref) (e : error) :
  compute_fingerprint h r = Err e → raised_by_render e = true.
Proof.
  unfold Reducer.compute_fingerprint, Reducer.render_trace.
  intros H. apply rbind_err in H as [H|(? & _ & H)]; [|discriminate].
  destruct (h !! r) as [gv|]; [|by injection H as <-].
  apply rbind_err in H as [H|(? & _ & H)]; [|discriminate].
  eapply mapM_result_error; [|exact H]. apply resolve_link_error.
Qed.

Lemma refresh_incoming_error (h : heap) (incoming : list nat)
    (fps : list FingerprintedPage) (e : error) :
  refresh_incoming h incoming fps = Err e → raised_by_render e = true.
Proof.
  revert fps; induction incoming as [|j rest IH]; intros fps; simpl; [discriminate|].
  destruct (fps !! j) as [p|]; [|by intros [= <-]].
  intros H. apply rbind_err in H as [H|(f & _ & H)]; [|by eapply IH].
  by apply compute_fingerprint_error in H.
Qed.

Lemma visit_error (st : pass_state) (i : nat) (e : error) :
  visit st i = Err e → raised_by_pass e = true.
Proof.
  unfold Reducer.visit.
  destruct (ps_pages st !! i) as [p|]; [|by intros [= <-]].
  destruct (gv_per_page_fingerprint st !! fingerprint p) as [g|]; [|discriminate].
  intros H. apply rbind_err in H as [H|(pid & _ & H)].
  { apply page_id_error in H. by destruct e. }
  apply rbind_err in H as [H|(pid' & _ & H)].
  { apply page_id_error in H. by destruct e. }
  destruct (decide (pid = pid')); [by injection H as <-|].
  apply rbind_err in H as [H|(? & _ & H)]; [|discriminate].
  apply refresh_incoming_error in H. by destruct e.
Qed.

Lemma run_pass_error (h : heap) (fps : list FingerprintedPage) (l : list nat) (e : error) :
  run_pass h fps l = Err e → raised_by_pass e = true.
Proof. apply foldM_result_error, visit_error. Qed.

(** *** Termination *)

Lemma div25_step (a b : nat) : (a + 25 ≤ b → a / 25 + 1 ≤ b / 25)%nat.
Proof.
  intros H. rewrite <- (Nat.div_add a 1 25) by done.
  apply Nat.Div0.div_le_mono. lia.
Qed.

Lemma reduce_loop_passes (fuel : nat) (multipass : bool) (s : loop_state) :
  (length (fingerprinted_pages s) / 25 + 1 ≤ fuel)%nat →
  reduce_loop fuel multipass s ≠ Err PassBudgetExhausted
  ∧ ∀ s', reduce_loop fuel multipass s = Ok s' →
      1 ≤ pass_number s' - pass_number s
        ≤ Z.of_nat (length (fingerprinted_pages s) / 25 + 1).
Proof.
  revert s; induction fuel as [|fuel IH]; intros s Hfuel; [lia|].
  cbn [Reducer.reduce_loop].
  destruct (run_pass _ _ _) as [st|e] eqn:Hpass; cbn [rbind].
  2:{ split; [|done]. intros [= ->]. by apply run_pass_error in Hpass. }
  destruct (last_pass _ _) eqn:Hlast.
  - split; [done|]. intros s' [= <-]. cbn [pass_number]. lia.
  - assert (Hlt : (length (filtered_fp_pages st) + 25
                   ≤ length (fingerprinted_pages s))%nat).
    { unfold last_pass, MIN_REMOVED_VIEWS_TO_GO_ON in Hlast.
      rewrite !orb_false_iff, Z.ltb_ge in Hlast. lia. }
    match goal with |- context [reduce_loop fuel multipass ?x] => specialize (IH x) end.
    cbn [fingerprinted_pages pass_number] in IH. apply div25_step in Hlt.
    destruct IH as [IH1 IH2]; [lia|].
    split; [done|]. intros s' Hs'. specialize (IH2 s' Hs'). lia.
Qed.

(** *** What [build_fingerprinted_pages] returns *)

(** Page [p] wraps [gv], with the fingerprint of [gv] in the heap [h]. *)
Definition wraps (h : heap) (gv : ref) (p : FingerprintedPage) : Prop :=
  game_view p = gv ∧ compute_fingerprint h gv = Ok (fingerprint p).

Lemma wraps_add_incoming (h : heap) (i j : nat) (gvs : list ref)
    (fps : list FingerprintedPage) :
  Forall2 (wraps h) gvs fps → Forall2 (wraps h) gvs (alter (add_incoming i) j fps).
Proof.
  intros H. revert j. induction H as [|gv p gvs fps Hp H IH]; intros j; [constructor|].
  destruct j as [|j]; simpl; constructor; auto. apply IH.
Qed.

Lemma new_fingerprinted_pages_wrap (h : heap) (gvs : list ref)
    (fps : list FingerprintedPage) :
  mapM_result (new_fingerprinted_page h) gvs = Ok fps → Forall2 (wraps h) gvs fps.
Proof.
  revert fps; induction gvs as [|gv gvs IH]; intros fps H; simpl in H; inv_ok.
  - constructor.
  - constructor; [|by apply IH].
    unfold Reducer.new_fingerprinted_page in Ha. inv_ok. by split.
Qed.

Lemma set_incoming_of_wraps (h : heap) (per_id : gmap (option Z) nat) (gvs : list ref)
    (fps1 fps2 : list FingerprintedPage) (i : nat) :
  Forall2 (wraps h) gvs fps1 → set_incoming_of h per_id fps1 i = Ok fps2 →
  Forall2 (wraps h) gvs fps2.
Proof.
  intros Hw. unfold set_incoming_of.
  destruct (fps1 !! i) as [p|]; [|discriminate].
  destruct (h !! game_view p) as [gv|]; [|discriminate].
  intros H2.
  eapply (foldM_result_inv _ (Forall2 (wraps h) gvs)); [|exact Hw|exact H2].
  intros fps3 a' fps4 _ Hw3. unfold link_incoming.
  destruct a'.2 as [t|]; [|by intros [= <-]].
  intros H3. inv_ok. destruct (_ !! _) as [j|]; [|discriminate].
  inv_ok. by apply wraps_add_incoming.
Qed.

Lemma build_fingerprinted_pages_wrap (h : heap) (gvs : list ref)
    (fps : list FingerprintedPage) :
  build_fingerprinted_pages h gvs = Ok fps → Forall2 (wraps h) gvs fps.
Proof.
  unfold Reducer.build_fingerprinted_pages. intros H. inv_ok.
  apply new_fingerprinted_pages_wrap in Ha.
  eapply (foldM_result_inv _ (Forall2 (wraps h) gvs)); [|exact Ha|exact H].
  intros fps1 i fps2 _ Hw. by apply set_incoming_of_wraps.
Qed.

Lemma build_fingerprinted_pages_length (h : heap) (gvs : list ref)
    (fps : list FingerprintedPage) :
  build_fingerprinted_pages h gvs = Ok fps → length fps = length gvs.
Proof.
  intros H. apply build_fingerprinted_pages_wrap in H.
  symmetry. by eapply Forall2_length.
Qed.

Lemma build_fingerprinted_pages_error (h : heap) (gvs : list ref) (e : error) :
  build_fingerprinted_pages h gvs = Err e → raised_by_build e = true.
Proof.
  unfold Reducer.build_fingerprinted_pages. intros H.
  apply rbind_err in H as [H|(fps & _ & H)].
  { eapply (mapM_result_error _ raised_by_build) in H; [done|].
    intros gv e'. unfold Reducer.new_fingerprinted_page. intros H'.
    apply rbind_err in H' as [H'|(? & _ & H')]; [|done].
    apply compute_fingerprint_error in H'. by destruct e'. }
  apply rbind_err in H as [H|(per_id & _ & H)].
  { revert H. generalize (∅ : gmap (option Z) nat) 0%nat.
    induction (map game_view fps) as [|gv l IH]; intros m i H; simpl in H; [done|].
    apply rbind_err in H as [H|(? & _ & H)]; [|by eapply IH].
    apply page_id_error in H. by destruct e. }
  eapply (foldM_result_error _ raised_by_build); [|exact H].
  intros fps1 i e'. unfold set_incoming_of.
  destruct (fps1 !! i) as [p|]; [|by intros [= <-]].
  destruct (h !! game_view p) as [gv|]; [|by intros [= <-]].
  apply (foldM_result_error _ raised_by_build). intros fps2 a e''. unfold link_incoming.
  destruct a.2; [|done]. intros H'.
  apply rbind_err in H' as [H'|(? & _ & H')].
  { apply page_id_error in H'. by destruct e''. }
  destruct (_ !! _); [done | by injection H' as <-].
Qed.

(** C10: the loop of [reduce_views] ends: a pass that does not leave the loop
    has removed at least 25 pages of the working list, so that the passes are
    at most the number of pages divided by 25, plus one. *)
Theorem reduce_views_terminates (h : heap) (game_views : list ref) (multipass : bool) :
  reduce_views h game_views multipass ≠ Err PassBudgetExhausted
  ∧ (∀ out, reduce_views h game_views multipass = Ok out →
       1 ≤ out_passes out
         ≤ Z.of_nat (length (assign_page_ids h game_views).2 / 25 + 1))
  ∧ (∀ fuel s, (length (fingerprinted_pages s) / 25 + 1 ≤ fuel)%nat →
       reduce_loop fuel multipass s ≠ Err PassBudgetExhausted)
  ∧ (∀ s st,
       run_pass (ls_heap s) (ls_pages s) (fingerprinted_pages s) = Ok st →
       last_pass (Z.of_nat (length (fingerprinted_pages s))
                  - Z.of_nat (length (filtered_fp_pages st))) multipass = false →
       (length (filtered_fp_pages st) + 25 ≤ length (fingerprinted_pages s))%nat).
Proof.
  assert (Hrun : ∀ h' gvs fps,
    build_fingerprinted_pages h' gvs = Ok fps →
    (length (fingerprinted_pages (mkLoopState h' fps (seq 0 (length fps)) 1 0)) / 25 + 1
     ≤ S (length gvs))%nat).
  { intros h' gvs fps Hb. apply build_fingerprinted_pages_length in Hb.
    cbn [fingerprinted_pages]. rewrite length_seq, Hb.
    pose proof (Nat.Div0.div_le_upper_bound (length gvs) 25 (length gvs)). lia. }
  unfold Reducer.reduce_views.
  destruct (assign_page_ids h game_views) as [h' gvs] eqn:Hassign.
  unfold Reducer.reduce_assigned. cbn [snd].
  split; [|split; [|split]].
  - intros H. apply rbind_err in H as [H|(fps & Hb & H)].
    { by apply build_fingerprinted_pages_error in H. }
    apply rbind_err in H as [H|(s & _ & H)].
    { by apply (reduce_loop_passes _ multipass _ (Hrun _ _ _ Hb)) in H. }
    destruct (decide _); [done|].
    apply rbind_err in H as [H|(? & _ & H)]; [|done].
    eapply (mapM_result_error _ raised_by_page_id) in H; [done|].
    intros i e. unfold unwrap. destruct (_ !! _); [done | by intros [= <-]].
  - intros out H. inv_ok. destruct (decide _); [done|]. inv_ok. cbn [out_passes].
    apply (reduce_loop_passes _ multipass _ (Hrun _ _ _ Ha)) in Ha0.
    cbn [pass_number fingerprinted_pages] in Ha0.
    rewrite length_seq, (build_fingerprinted_pages_length _ _ _ Ha) in Ha0. lia.
  - intros fuel s Hfuel. by apply reduce_loop_passes.
  - intros s st _ Hlast.
    unfold last_pass, MIN_REMOVED_VIEWS_TO_GO_ON in Hlast.
    rewrite !orb_false_iff, Z.ltb_ge in Hlast. lia.
Qed.

(** C9: on the empty page list [reduce_views] returns no list: the percentage
    of removed pages divides by the number of pages. *)
Theorem reduce_views_empty (h : heap) (multipass : bool) :
  (assign_page_ids h []).2 = [] →
  reduce_views h [] multipass = Err ZeroDivisionError.
Proof.
  unfold Reducer.reduce_views.
  destruct (assign_page_ids h []) as [h' gvs]. simpl. intros ->. reflexivity.
Qed.

(** *** What a pass leaves unchanged *)

(** The fields of a page other than its identifier. *)
Definition unchanged_but_identifier (gv gv' : GameView Content Slot) : Prop :=
  content gv' = content gv ∧ actions gv' = actions gv.

(** Redirection leaves the identifier a page was given where it is: it only
    sets the page the identifier is taken from. *)
Definition redirected_only (gv gv' : GameView Content Slot) : Prop :=
  unchanged_but_identifier gv gv' ∧ own_page_id gv' = own_page_id gv.

Lemma redirected_only_refl (h : heap) : Forall2 redirected_only h h.
Proof. apply Forall2_same_length_lookup_2; [done|]. by intros i gv gv' -> [= ->]. Qed.

Lemma redirected_only_trans (h1 h2 h3 : heap) :
  Forall2 redirected_only h1 h2 → Forall2 redirected_only h2 h3 →
  Forall2 redirected_only h1 h3.
Proof.
  intros H12. revert h3. induction H12 as [|a b h1 h2 Hab _ IH]; intros h3 H23;
    inversion H23; subst; constructor; [|by apply IH].
  destruct Hab as [[? ?] ?].
  match goal with H : redirected_only b _ |- _ => destruct H as [[? ?] ?] end.
  repeat split; congruence.
Qed.

Lemma page_id_from_redirected_only (h : heap) (r target : ref) :
  Forall2 redirected_only h (page_id_from h r target).
Proof.
  unfold page_id_from. revert r. induction h as [|gv h IH]; intros r; [constructor|].
  destruct r as [|r]; simpl; constructor; try done.
  - apply redirected_only_refl.
  - apply IH.
Qed.

Lemma refresh_incoming_game_views (h : heap) (incoming : list nat)
    (fps fps' : list FingerprintedPage) :
  refresh_incoming h incoming fps = Ok fps' →
  map game_view fps' = map game_view fps
  ∧ map incoming_pages fps' = map incoming_pages fps.
Proof.
  revert fps; induction incoming as [|j rest IH]; intros fps H; simpl in H; inv_ok; [done|].
  destruct (fps !! j) as [p|] eqn:Hj; [|done]. inv_ok.
  apply IH in H as [-> ->].
  rewrite !list_fmap_insert. simpl.
  split; apply list_insert_id; by rewrite list_lookup_fmap, Hj.
Qed.

Lemma visit_redirected_only (st st' : pass_state) (i : nat) :
  visit st i = Ok st' → Forall2 redirected_only (ps_heap st) (ps_heap st').
Proof.
  unfold Reducer.visit. intros H.
  destruct (ps_pages st !! i) as [p|]; [|done].
  destruct (gv_per_page_fingerprint st !! fingerprint p) as [g|].
  - inv_ok. destruct (decide _); [done|]. inv_ok. simpl.
    apply page_id_from_redirected_only.
  - inv_ok. apply redirected_only_refl.
Qed.

Lemma visit_game_views (st st' : pass_state) (i : nat) :
  visit st i = Ok st' →
  map game_view (ps_pages st') = map game_view (ps_pages st)
  ∧ map incoming_pages (ps_pages st') = map incoming_pages (ps_pages st).
Proof.
  unfold Reducer.visit. intros H.
  destruct (ps_pages st !! i) as [p|]; [|done].
  destruct (gv_per_page_fingerprint st !! fingerprint p) as [g|].
  - inv_ok. destruct (decide _); [done|]. inv_ok. simpl.
    by eapply refresh_incoming_game_views.
  - by inv_ok.
Qed.

(** A visit keeps the page or drops it, and never forgets a representative. *)
Lemma visit_filtered (st st' : pass_state) (i : nat) :
  visit st i = Ok st' →
  gv_per_page_fingerprint st ⊆ gv_per_page_fingerprint st'
  ∧ (filtered_fp_pages st' = filtered_fp_pages st
     ∨ filtered_fp_pages st' = filtered_fp_pages st ++ [i]).
Proof.
  unfold Reducer.visit. intros H.
  destruct (ps_pages st !! i) as [p|]; [|done].
  destruct (gv_per_page_fingerprint st !! fingerprint p) as [g|] eqn:Hg.
  - inv_ok. destruct (decide _); [done|]. inv_ok. simpl. auto.
  - inv_ok. simpl. split; [|auto]. by apply insert_subseteq.
Qed.

Lemma visits_redirected_only (l : list nat) (st st' : pass_state) :
  foldM_result visit l st = Ok st' → Forall2 redirected_only (ps_heap st) (ps_heap st').
Proof.
  apply (foldM_result_inv _ (λ s, Forall2 redirected_only (ps_heap st) (ps_heap s))).
  - intros s a s' _ Hs Hv. eapply redirected_only_trans; [exact Hs|].
    by eapply visit_redirected_only.
  - apply redirected_only_refl.
Qed.

Lemma visits_game_views (l : list nat) (st st' : pass_state) :
  foldM_result visit l st = Ok st' →
  map game_view (ps_pages st') = map game_view (ps_pages st)
  ∧ map incoming_pages (ps_pages st') = map incoming_pages (ps_pages st).
Proof.
  apply (foldM_result_inv _ (λ s,
    map game_view (ps_pages s) = map game_view (ps_pages st)
    ∧ map incoming_pages (ps_pages s) = map incoming_pages (ps_pages st))); [|done].
  intros s a s' _ [Hs1 Hs2] Hv. apply visit_game_views in Hv as [-> ->]. done.
Qed.

Lemma visits_filtered (l : list nat) (st st' : pass_state) :
  foldM_result visit l st = Ok st' →
  gv_per_page_fingerprint st ⊆ gv_per_page_fingerprint st'
  ∧ ∃ kept, filtered_fp_pages st' = filtered_fp_pages st ++ kept ∧ kept `sublist_of` l.
Proof.
  revert st; induction l as [|i l IH]; intros st H; simpl in H; inv_ok.
  - split; [done|]. exists []. by rewrite app_nil_r.
  - apply visit_filtered in Ha as [Hd Hf]. apply IH in H as [Hd' (kept & -> & Hsub)].
    split; [by etrans|]. destruct Hf as [-> | ->].
    + exists kept. split; [done|]. by apply sublist_cons.
    + exists (i :: kept). rewrite <- app_assoc. split; [done|]. by apply sublist_skip.
Qed.

(** *** From one pass to the whole loop *)

Lemma reduce_loop_inv (P : heap → list FingerprintedPage → list nat → Prop)
    (fuel : nat) (multipass : bool) (s s' : loop_state) :
  (∀ h fps l st, P h fps l → run_pass h fps l = Ok st →
     P (ps_heap st) (ps_pages st) (filtered_fp_pages st)) →
  P (ls_heap s) (ls_pages s) (fingerprinted_pages s) →
  reduce_loop fuel multipass s = Ok s' →
  P (ls_heap s') (ls_pages s') (fingerprinted_pages s').
Proof.
  intros Hpass. revert s; induction fuel as [|fuel IH]; intros s Hs H; [done|].
  cbn [Reducer.reduce_loop] in H. inv_ok.
  pose proof (Hpass _ _ _ _ Hs Ha) as Hst.
  destruct (last_pass _ _).
  - by inv_ok.
  - by apply IH in H.
Qed.

Lemma run_pass_sublist (h : heap) (fps : list FingerprintedPage) (l : list nat)
    (st : pass_state) :
  run_pass h fps l = Ok st → filtered_fp_pages st `sublist_of` l.
Proof. intros H. by apply visits_filtered in H as [_ (kept & -> & Hk)]. Qed.

Lemma reduce_loop_unchanged (fuel : nat) (multipass : bool) (s s' : loop_state) :
  reduce_loop fuel multipass s = Ok s' →
  Forall2 redirected_only (ls_heap s) (ls_heap s')
  ∧ map game_view (ls_pages s') = map game_view (ls_pages s)
  ∧ map incoming_pages (ls_pages s') = map incoming_pages (ls_pages s)
  ∧ fingerprinted_pages s' `sublist_of` fingerprinted_pages s.
Proof.
  apply (reduce_loop_inv (λ h fps l,
    Forall2 redirected_only (ls_heap s) h
    ∧ map game_view fps = map game_view (ls_pages s)
    ∧ map incoming_pages fps = map incoming_pages (ls_pages s)
    ∧ l `sublist_of` fingerprinted_pages s)).
  - intros h fps l st (Hh & Hg & Hi & Hl) Hp.
    pose proof (visits_redirected_only _ _ _ Hp) as Hh'.
    pose proof (visits_game_views _ _ _ Hp) as [Hg' Hi'].
    pose proof (run_pass_sublist _ _ _ _ Hp) as Hl'. simpl in *.
    split; [by eapply redirected_only_trans|].
    split; [congruence|]. split; [congruence|]. by etrans.
  - split; [apply redirected_only_refl|done].
Qed.

Lemma unwrap_views (gvs : list ref) (fps : list FingerprintedPage)
    (l : list nat) (views : list ref) :
  map game_view fps = gvs →
  mapM_result (unwrap fps) l = Ok views →
  Forall2 (λ i v, gvs !! i = Some v) l views.
Proof.
  intros <-. revert views; induction l as [|i l IH]; intros views H; simpl in H; inv_ok.
  - constructor.
  - constructor; [|by apply IH].
    unfold unwrap in Ha. destruct (fps !! i) as [p|] eqn:Hi; [|done]. inv_ok.
    by rewrite list_lookup_fmap, Hi.
Qed.

(** What [reduce_assigned] returns, in terms of the loop. *)
Lemma reduce_assigned_ok (h : heap) (gvs : list ref) (multipass : bool) (out : reduced) :
  reduce_assigned h gvs multipass = Ok out →
  ∃ fps s,
    build_fingerprinted_pages h gvs = Ok fps
    ∧ reduce_loop (S (length gvs)) multipass
        (mkLoopState h fps (seq 0 (length gvs)) 1 0) = Ok s
    ∧ gvs ≠ []
    ∧ out_heap out = ls_heap s
    ∧ Forall2 (λ i v, gvs !! i = Some v) (fingerprinted_pages s) (out_views out)
    ∧ out_removed out = total_views_removed s
    ∧ out_percent out = (100 * total_views_removed s, Z.of_nat (length gvs)).
Proof.
  unfold Reducer.reduce_assigned. intros H. inv_ok.
  destruct (decide _) as [|Hne]; [done|]. inv_ok.
  pose proof (build_fingerprinted_pages_wrap _ _ _ Ha) as Hw.
  pose proof (build_fingerprinted_pages_length _ _ _ Ha) as Hlen.
  rewrite Hlen in Ha0.
  exists a, a0. split; [done|]. split; [done|].
  split; [by destruct gvs|]. split; [done|]. split; [|done].
  eapply unwrap_views; [|exact Ha1].
  apply reduce_loop_unchanged in Ha0 as (_ & -> & _). simpl.
  clear -Hw. induction Hw as [|gv p gvs fps [Hp _] _ IH]; simpl; congruence.
Qed.

(** C8: a run of [reduce_views] changes the identifier of pages and nothing
    else: the content and the action slots of every page are, in the pages
    the run leaves, what they were in the input. *)
Theorem reduce_views_frame (h : heap) (game_views : list ref) (multipass : bool)
    (out : reduced) :
  Forall2 unchanged_but_identifier h (assign_page_ids h game_views).1 →
  reduce_views h game_views multipass = Ok out →
  Forall2 unchanged_but_identifier h (out_heap out)
  ∧ Forall2 redirected_only (assign_page_ids h game_views).1 (out_heap out)
  ∧ out_views out ⊆ (assign_page_ids h game_views).2.
Proof.
  unfold Reducer.reduce_views.
  destruct (assign_page_ids h game_views) as [h' gvs]. simpl.
  intros Hassign H.
  apply reduce_assigned_ok in H as (fps & s & Hb & Hloop & _ & -> & Hv & _).
  apply reduce_loop_unchanged in Hloop as (Hh & _). simpl in Hh.
  split; [|split; [done|]].
  - clear -Hassign Hh. revert Hh. generalize (ls_heap s). intros h''.
    revert h''. induction Hassign as [|a b h1 h2 [? ?] _ IH]; intros h'' Hh;
      inversion Hh as [|? c ? ? [[? ?] ?]]; subst; constructor; [|by apply IH].
    split; congruence.
  - intros v Hin. apply list_elem_of_lookup in Hin as [k Hk].
    destruct (Forall2_lookup_r _ _ _ _ _ Hv Hk) as (i & _ & Hi).
    by eapply list_elem_of_lookup_2.
Qed.

(** *** The fatal check *)

(** C4: when the page reached by the loop has the fingerprint of a
    representative and already has the identifier of that representative, the
    pass, and the run with it, ends on the assertion error: the page is not
    redirected and no further page is visited. *)
Theorem same_identifier_aborts (fuel : nat) (multipass : bool) (s : loop_state)
    (before rest : list nat) (i : nat) (st : pass_state)
    (fp_page : FingerprintedPage) (existing_matching_gv : ref) (pid : option Z) :
  fingerprinted_pages s = before ++ i :: rest →
  foldM_result visit before (mkPassState (ls_heap s) (ls_pages s) ∅ []) = Ok st →
  ps_pages st !! i = Some fp_page →
  gv_per_page_fingerprint st !! fingerprint fp_page = Some existing_matching_gv →
  page_id (ps_heap st) (game_view fp_page) = Ok pid →
  page_id (ps_heap st) existing_matching_gv = Ok pid →
  visit st i = Err AssertionError
  ∧ run_pass (ls_heap s) (ls_pages s) (fingerprinted_pages s) = Err AssertionError
  ∧ reduce_loop (S fuel) multipass s = Err AssertionError.
Proof.
  intros HW Hbefore Hi Hrep Hpid Hpid'.
  assert (Hvisit : visit st i = Err AssertionError).
  { unfold Reducer.visit. rewrite Hi, Hrep, Hpid, Hpid'. simpl.
    by destruct (decide (pid = pid)). }
  assert (Hpass : run_pass (ls_heap s) (ls_pages s) (fingerprinted_pages s)
                  = Err AssertionError).
  { unfold Reducer.run_pass. rewrite HW, foldM_result_app, Hbefore. simpl.
    by rewrite Hvisit. }
  split; [done|]. split; [done|].
  cbn [Reducer.reduce_loop]. by rewrite Hpass.
Qed.

(** *** Pages with the same fingerprint *)






(** *** Pages with their identifiers *)

(** What [reduce_views] expects of [assign_page_ids]: the pages of the list
    are distinct, each has an identifier of its own, no two the same, and the
    action slots lead to pages of the list. *)
Definition leads_into (gvs : list ref) (a : Slot * option ref) : Prop :=
  match a.2 with
  | Some t => t ∈ gvs
  | None => True
  end.

Definition page_assigned (h : heap) (gvs : list ref) (r : ref) : Prop :=
  match h !! r with
  | Some gv =>
      page_id_alias gv = None ∧ is_Some (own_page_id gv)
      ∧ Forall (leads_into gvs) (actions gv)
  | None => False
  end.

Definition assigned (h : heap) (gvs : list ref) : Prop :=
  Forall (page_assigned h gvs) gvs
  ∧ NoDup ((λ r, h !! r ≫= own_page_id) <$> gvs).

#[global] Instance leads_into_dec (gvs : list ref) (a : Slot * option ref) :
  Decision (leads_into gvs a).
Proof. unfold leads_into. destruct a.2; apply _. Defined.

#[global] Instance page_assigned_dec (h : heap) (gvs : list ref) (r : ref) :
  Decision (page_assigned h gvs r).
Proof. unfold page_assigned. destruct (h !! r); apply _. Defined.

#[global] Instance assigned_dec (h : heap) (gvs : list ref) : Decision (assigned h gvs).
Proof. unfold assigned. apply _. Defined.

Lemma assigned_NoDup (h : heap) (gvs : list ref) : assigned h gvs → NoDup gvs.
Proof. intros [_ H]. by apply NoDup_fmap_1 in H. Qed.

Lemma assigned_page (h : heap) (gvs : list ref) (r : ref) :
  assigned h gvs → r ∈ gvs →
  ∃ gv n, h !! r = Some gv ∧ page_id_alias gv = None ∧ own_page_id gv = Some n
    ∧ ∀ a t, a ∈ actions gv → a.2 = Some t → t ∈ gvs.
Proof.
  intros [H _] Hr. rewrite Forall_forall in H. specialize (H r Hr).
  unfold page_assigned in H. destruct (h !! r) as [gv|]; [|done].
  destruct H as (Ha & [n Hn] & Hacts). exists gv, n. repeat split; try done.
  intros a t Hin Ht. rewrite Forall_forall in Hacts. specialize (Hacts a Hin).
  unfold leads_into in Hacts. by rewrite Ht in Hacts.
Qed.

Lemma assigned_unique (h : heap) (gvs : list ref) (r r' : ref) gv gv' :
  assigned h gvs → r ∈ gvs → r' ∈ gvs →
  h !! r = Some gv → h !! r' = Some gv' →
  own_page_id gv = own_page_id gv' → r = r'.
Proof.
  intros Hassigned Hr Hr' Hgv Hgv' Hid.
  destruct (assigned_page _ _ _ Hassigned Hr) as (gv1 & n & Hgv1 & _ & Hn & _).
  destruct Hassigned as [_ Hnd].
  apply list_elem_of_lookup in Hr as [i Hi]. apply list_elem_of_lookup in Hr' as [i' Hi'].
  assert (i = i') as <-; [|congruence].
  eapply NoDup_lookup; [exact Hnd| |];
    rewrite list_lookup_fmap; [rewrite Hi | rewrite Hi']; simpl;
    [rewrite Hgv | rewrite Hgv']; simpl; [done | by rewrite Hid].
Qed.

Lemma assigned_length (h : heap) (gvs : list ref) :
  assigned h gvs → (length gvs ≤ length h)%nat.
Proof.
  intros Hassigned.
  replace (length h) with (length (seq 0 (length h))) by apply length_seq.
  apply submseteq_length, NoDup_submseteq; [by eapply assigned_NoDup|].
  intros r Hr. destruct (assigned_page _ _ _ Hassigned Hr) as (gv & _ & Hgv & _).
  apply lookup_lt_Some in Hgv. apply elem_of_seq. lia.
Qed.

(** *** Where an identifier is taken from *)

(** A page whose identifier is its own. *)
Definition is_root (h : heap) (r : ref) : Prop :=
  ∃ gv, h !! r = Some gv ∧ page_id_alias gv = None.

(** [resolves h k r q]: the identifier of [r] is taken from [q], through [k]
    redirections. *)
Inductive resolves (h : heap) : nat → ref → ref → Prop :=
  | resolves_root r : is_root h r → resolves h 0 r r
  | resolves_step k r r' q gv :
      h !! r = Some gv → page_id_alias gv = Some r' →
      resolves h k r' q → resolves h (S k) r q.

Lemma resolves_is_root (h : heap) k r q : resolves h k r q → is_root h q.
Proof. induction 1; auto. Qed.

Lemma resolves_page_id_aux (h : heap) k r q (fuel : nat) :
  resolves h k r q → (k < fuel)%nat →
  ∃ gv, h !! q = Some gv ∧ page_id_aux fuel h r = Ok (own_page_id gv).
Proof.
  intros H. revert fuel. induction H as [r (gv & Hgv & Ha)|k r r' q gv Hgv Ha _ IH];
    intros fuel Hfuel; (destruct fuel as [|fuel]; [lia|]); simpl; rewrite Hgv, Ha.
  - eauto.
  - apply IH. lia.
Qed.

Lemma resolves_redirect_other (h : heap) k r q d g :
  resolves h k r q → q ≠ d → is_root h d → resolves (page_id_from h d g) k r q.
Proof.
  intros H Hne (gvd & Hd & Had).
  induction H as [r (gv & Hgv & Ha)|k r r' q gv Hgv Ha _ IH].
  - constructor. exists gv. split; [|done].
    unfold page_id_from. by rewrite list_lookup_alter_ne.
  - eapply resolves_step; [|exact Ha|by apply IH].
    unfold page_id_from. rewrite list_lookup_alter_ne; [done|]. congruence.
Qed.

Lemma resolves_redirect_root (h : heap) k r d g :
  resolves h k r d → g ≠ d → is_root h g → resolves (page_id_from h d g) (S k) r g.
Proof.
  intros H Hne (gvg & Hg & Hag).
  assert (Hg' : resolves (page_id_from h d g) 0 g g).
  { constructor. exists gvg. split; [|done].
    unfold page_id_from. by rewrite list_lookup_alter_ne. }
  remember d as d' eqn:Hd in H.
  induction H as [r (gv & Hgv & Ha)|k r r' q gv Hgv Ha Hres IH]; subst.
  - eapply resolves_step; [| |exact Hg'].
    + unfold page_id_from. by rewrite list_lookup_alter_eq, Hgv.
    + done.
  - eapply resolves_step; [|exact Ha|by apply IH].
    unfold page_id_from. rewrite list_lookup_alter_ne; [done|].
    apply resolves_is_root in Hres as (gvd & Hd & Had). congruence.
Qed.

Lemma is_root_page_id (h : heap) (r : ref) :
  is_root h r → ∃ gv, h !! r = Some gv ∧ page_id h r = Ok (own_page_id gv).
Proof.
  intros (gv & Hgv & Ha). exists gv. split; [done|].
  unfold page_id. pose proof (lookup_lt_Some _ _ _ Hgv).
  destruct (length h) as [|n]; [lia|]. simpl. by rewrite Hgv, Ha.
Qed.

(** *** The invariant of the run *)

(** The pages at positions [alive] are the ones not merged so far. Each has
    its own identifier, and the identifier of every page of the list is taken
    from one of them, at a position that is not later in the list. *)
Definition alive_inv (h0 : heap) (gvs : list ref) (h : heap) (alive : list nat) : Prop :=
  Forall2 redirected_only h0 h
  ∧ StronglySorted lt alive
  ∧ (∀ j, j ∈ alive → ∃ r, gvs !! j = Some r ∧ is_root h r)
  ∧ (∀ i r, gvs !! i = Some r →
       ∃ j q k, j ∈ alive ∧ gvs !! j = Some q ∧ resolves h k r q ∧ (k + j ≤ i)%nat).

(** In the middle of a pass, with [rest] still to visit. *)
Definition pass_inv (h0 : heap) (gvs : list ref) (st : pass_state) (rest : list nat) : Prop :=
  alive_inv h0 gvs (ps_heap st) (filtered_fp_pages st ++ rest)
  ∧ map game_view (ps_pages st) = gvs
  ∧ (∀ f g, gv_per_page_fingerprint st !! f = Some g →
       ∃ j, j ∈ filtered_fp_pages st ∧ gvs !! j = Some g).

Lemma StronglySorted_seq (a n : nat) : StronglySorted lt (seq a n).
Proof.
  revert a; induction n as [|n IH]; intros a; simpl; constructor; [apply IH|].
  apply Forall_forall. intros x Hx. apply elem_of_seq in Hx. lia.
Qed.

Lemma alive_inv_init (h0 : heap) (gvs : list ref) :
  assigned h0 gvs → alive_inv h0 gvs h0 (seq 0 (length gvs)).
Proof.
  intros Hassigned. split; [apply redirected_only_refl|].
  split; [apply StronglySorted_seq|]. split.
  - intros j Hj. apply elem_of_seq in Hj.
    destruct (lookup_lt_is_Some_2 gvs j) as [r Hr]; [lia|].
    exists r. split; [done|].
    destruct (assigned_page _ _ r Hassigned) as (gv & n & Hgv & Ha & _).
    { by eapply list_elem_of_lookup_2. }
    by exists gv.
  - intros i r Hi. exists i, r, 0%nat.
    pose proof (lookup_lt_Some _ _ _ Hi).
    split; [apply elem_of_seq; lia|]. split; [done|]. split; [|lia].
    constructor.
    destruct (assigned_page _ _ r Hassigned) as (gv & n & Hgv & Ha & _).
    { by eapply list_elem_of_lookup_2. }
    by exists gv.
Qed.

Lemma sorted_middle (l1 l2 : list nat) (i : nat) :
  StronglySorted lt (l1 ++ i :: l2) →
  StronglySorted lt (l1 ++ l2)
  ∧ (∀ j, j ∈ l1 → (j < i)%nat) ∧ (∀ j, j ∈ l2 → (i < j)%nat).
Proof.
  rewrite !StronglySorted_app, StronglySorted_cons, Forall_forall.
  intros (H12 & H1 & Hi & H2). split; [|split].
  - split; [|done]. intros x1 x2 Hx1 Hx2. apply H12; [done|]. by right.
  - intros j Hj. apply H12; [done|]. by left.
  - done.
Qed.

Lemma redirected_only_lookup (h0 h : heap) (r : ref) (gv : GameView Content Slot) :
  Forall2 redirected_only h0 h → h !! r = Some gv →
  ∃ gv0, h0 !! r = Some gv0 ∧ content gv = content gv0
    ∧ actions gv = actions gv0 ∧ own_page_id gv = own_page_id gv0.
Proof.
  intros H Hr. destruct (Forall2_lookup_r _ _ _ _ _ H Hr) as (gv0 & Hgv0 & [[? ?] ?]).
  by exists gv0.
Qed.

(** The two identifiers compared by the assertion, under the invariant. *)
Lemma pass_inv_identifiers (h0 : heap) (gvs : list ref) (st : pass_state)
    (i : nat) (rest : list nat) (p : FingerprintedPage) (g : ref) :
  assigned h0 gvs → pass_inv h0 gvs st (i :: rest) →
  ps_pages st !! i = Some p →
  gv_per_page_fingerprint st !! fingerprint p = Some g →
  ∃ jr pid pid',
    jr ∈ filtered_fp_pages st ∧ gvs !! jr = Some g ∧ gvs !! i = Some (game_view p)
    ∧ (jr < i)%nat ∧ g ≠ game_view p
    ∧ is_root (ps_heap st) g ∧ is_root (ps_heap st) (game_view p)
    ∧ page_id (ps_heap st) (game_view p) = Ok pid
    ∧ page_id (ps_heap st) g = Ok pid' ∧ pid ≠ pid'.
Proof.
  intros Hassigned ((Hfr & Hsorted & Hroots & Hres) & Hgvs & Hdict) Hp Hg.
  destruct (Hdict _ _ Hg) as (jr & Hjr & Hjrg).
  assert (Hi : gvs !! i = Some (game_view p)).
  { by rewrite <- Hgvs, list_lookup_fmap, Hp. }
  apply sorted_middle in Hsorted as (_ & Hlt & _). specialize (Hlt _ Hjr).
  pose proof (assigned_NoDup _ _ Hassigned) as Hnd.
  assert (Hne : g ≠ game_view p).
  { intros ->. pose proof (NoDup_lookup _ _ _ _ Hnd Hjrg Hi). lia. }
  destruct (Hroots jr) as (r1 & Hr1 & Hroot1).
  { apply elem_of_app. by left. }
  destruct (Hroots i) as (r2 & Hr2 & Hroot2).
  { apply elem_of_app. right. by left. }
  rewrite Hjrg in Hr1. rewrite Hi in Hr2.
  injection Hr1 as <-. injection Hr2 as <-.
  destruct (is_root_page_id _ _ Hroot1) as (gv1 & Hgv1 & Hpid1).
  destruct (is_root_page_id _ _ Hroot2) as (gv2 & Hgv2 & Hpid2).
  exists jr, (own_page_id gv2), (own_page_id gv1).
  repeat (split; [done|]).
  intros Heq. apply Hne.
  destruct (redirected_only_lookup _ _ _ _ Hfr Hgv1) as (gv1' & Hgv1' & _ & _ & Hid1).
  destruct (redirected_only_lookup _ _ _ _ Hfr Hgv2) as (gv2' & Hgv2' & _ & _ & Hid2).
  eapply (assigned_unique h0 gvs); [done| | |exact Hgv1'|exact Hgv2'|congruence];
    by eapply list_elem_of_lookup_2.
Qed.

(** Redirecting the page at position [i] to a page kept earlier. *)
Lemma redirect_alive_inv (h0 : heap) (gvs : list ref) (h : heap)
    (kept rest : list nat) (i jr : nat) (d g : ref) :
  assigned h0 gvs → alive_inv h0 gvs h (kept ++ i :: rest) →
  gvs !! i = Some d → jr ∈ kept → gvs !! jr = Some g →
  alive_inv h0 gvs (page_id_from h d g) (kept ++ rest).
Proof.
  intros Hassigned (Hfr & Hsorted & Hroots & Hres) Hi Hjr Hjrg.
  pose proof (assigned_NoDup _ _ Hassigned) as Hnd.
  apply sorted_middle in Hsorted as (Hsorted & Hlt1 & Hlt2).
  pose proof (Hlt1 _ Hjr) as Hlt.
  assert (Hne : g ≠ d).
  { intros ->. pose proof (NoDup_lookup _ _ _ _ Hnd Hjrg Hi). lia. }
  assert (Hrg : is_root h g).
  { destruct (Hroots jr) as (r1 & Hr1 & Hroot1); [apply elem_of_app; by left|].
    congruence. }
  assert (Hrd : is_root h d).
  { destruct (Hroots i) as (r2 & Hr2 & Hroot2); [apply elem_of_app; right; by left|].
    congruence. }
  assert (Hnot : ∀ j, j ∈ kept ++ rest → j ≠ i).
  { intros j Hj ->. apply elem_of_app in Hj as [Hj|Hj];
      [apply Hlt1 in Hj | apply Hlt2 in Hj]; lia. }
  split; [|split; [done|split]].
  - eapply redirected_only_trans; [exact Hfr|]. apply page_id_from_redirected_only.
  - intros j Hj. destruct (Hroots j) as (r & Hr & gv & Hgv & Halias).
    { apply elem_of_app in Hj as [Hj|Hj]; apply elem_of_app; [by left|].
      right. by right. }
    exists r. split; [done|]. exists gv. split; [|done].
    unfold page_id_from. rewrite list_lookup_alter_ne; [done|].
    intros <-. apply (Hnot j Hj). by eapply NoDup_lookup.
  - intros i0 r0 Hi0. destruct (Hres i0 r0 Hi0) as (j & q & k & Hj & Hjq & Hk & Hle).
    destruct (decide (j = i)) as [->|Hji].
    + assert (q = d) as -> by congruence.
      exists jr, g, (S k). split; [apply elem_of_app; by left|].
      split; [done|]. split; [by apply resolves_redirect_root | lia].
    + exists j, q, k. split.
      { apply elem_of_app in Hj as [Hj|Hj]; apply elem_of_app; [by left|].
        right. apply elem_of_cons in Hj as [->|Hj]; done. }
      split; [done|]. split; [|done].
      apply resolves_redirect_other; [done| |done].
      intros ->. apply Hji. by eapply NoDup_lookup.
Qed.

Lemma visit_pass_inv (h0 : heap) (gvs : list ref) (st st' : pass_state)
    (i : nat) (rest : list nat) :
  assigned h0 gvs → pass_inv h0 gvs st (i :: rest) →
  visit st i = Ok st' → pass_inv h0 gvs st' rest.
Proof.
  intros Hassigned Hinv H.
  pose proof (visit_game_views _ _ _ H) as [Hgv' _].
  unfold Reducer.visit in H.
  destruct (ps_pages st !! i) as [p|] eqn:Hp; [|done].
  destruct (gv_per_page_fingerprint st !! fingerprint p) as [g|] eqn:Hg.
  - destruct (pass_inv_identifiers _ _ _ _ _ _ _ Hassigned Hinv Hp Hg)
      as (jr & pid & pid' & Hjr & Hjrg & Hi & _).
    destruct Hinv as (Halive & Hgvs & Hdict).
    inv_ok. destruct (decide _); [done|]. inv_ok.
    unfold pass_inv.
    cbn [ps_heap ps_pages gv_per_page_fingerprint filtered_fp_pages] in *.
    split; [|split; [done | done]].
    by eapply redirect_alive_inv.
  - destruct Hinv as (Halive & Hgvs & Hdict). inv_ok.
    unfold pass_inv.
    cbn [ps_heap ps_pages gv_per_page_fingerprint filtered_fp_pages] in *.
    split; [by rewrite <- app_assoc|]. split; [done|].
    intros f g Hfg. destruct (decide (f = fingerprint p)) as [->|Hne].
    + rewrite lookup_insert_eq in Hfg. injection Hfg as <-.
      exists i. split; [apply elem_of_app; right; by left|].
      by rewrite list_lookup_fmap, Hp.
    + rewrite lookup_insert_ne in Hfg by done.
      destruct (Hdict _ _ Hfg) as (j & Hj & Hjg). exists j.
      split; [apply elem_of_app; by left | done].
Qed.

(** Under the invariant the assertion does not fail. *)
Lemma visit_passes_assertion (h0 : heap) (gvs : list ref) (st : pass_state)
    (i : nat) (rest : list nat) :
  assigned h0 gvs → pass_inv h0 gvs st (i :: rest) →
  visit st i ≠ Err AssertionError.
Proof.
  intros Hassigned Hinv H. unfold Reducer.visit in H.
  destruct (ps_pages st !! i) as [p|] eqn:Hp; [|done].
  destruct (gv_per_page_fingerprint st !! fingerprint p) as [g|] eqn:Hg; [|done].
  destruct (pass_inv_identifiers _ _ _ _ _ _ _ Hassigned Hinv Hp Hg)
    as (jr & pid & pid' & _ & _ & _ & _ & _ & _ & _ & Hpid & Hpid' & Hne).
  rewrite Hpid, Hpid' in H. simpl in H.
  destruct (decide (pid = pid')); [done|].
  apply rbind_err in H as [H|(? & _ & H)]; [|done].
  by apply refresh_incoming_error in H.
Qed.

Lemma visits_pass_inv (h0 : heap) (gvs : list ref) (l rest : list nat)
    (st st' : pass_state) :
  assigned h0 gvs → pass_inv h0 gvs st (l ++ rest) →
  foldM_result visit l st = Ok st' → pass_inv h0 gvs st' rest.
Proof.
  intros Hassigned. revert st; induction l as [|i l IH]; intros st Hinv H;
    simpl in H; inv_ok; [done|].
  eapply IH; [|exact H]. by eapply visit_pass_inv.
Qed.

Lemma visits_pass_assertion (h0 : heap) (gvs : list ref) (l rest : list nat)
    (st : pass_state) :
  assigned h0 gvs → pass_inv h0 gvs st (l ++ rest) →
  foldM_result visit l st ≠ Err AssertionError.
Proof.
  intros Hassigned. revert st; induction l as [|i l IH]; intros st Hinv H;
    simpl in H; [done|].
  apply rbind_err in H as [H|(st1 & Hv & H)].
  - by eapply visit_passes_assertion.
  - eapply IH; [|exact H]. by eapply visit_pass_inv.
Qed.

Lemma pass_inv_init (h0 : heap) (gvs : list ref) (h : heap)
    (fps : list FingerprintedPage) (l : list nat) :
  alive_inv h0 gvs h l → map game_view fps = gvs →
  pass_inv h0 gvs (mkPassState h fps ∅ []) (l ++ []).
Proof. intros Halive Hgvs. rewrite app_nil_r. by split; [|split]. Qed.

Lemma run_pass_alive_inv (h0 : heap) (gvs : list ref) (h : heap)
    (fps : list FingerprintedPage) (l : list nat) (st : pass_state) :
  assigned h0 gvs → alive_inv h0 gvs h l → map game_view fps = gvs →
  run_pass h fps l = Ok st →
  alive_inv h0 gvs (ps_heap st) (filtered_fp_pages st)
  ∧ map game_view (ps_pages st) = gvs.
Proof.
  intros Hassigned Halive Hgvs H.
  eapply visits_pass_inv in H as (Ha & Hg & _); [|done|by apply pass_inv_init].
  by rewrite app_nil_r in Ha.
Qed.

Lemma run_pass_assertion (h0 : heap) (gvs : list ref) (h : heap)
    (fps : list FingerprintedPage) (l : list nat) :
  assigned h0 gvs → alive_inv h0 gvs h l → map game_view fps = gvs →
  run_pass h fps l ≠ Err AssertionError.
Proof.
  intros Hassigned Halive Hgvs.
  eapply visits_pass_assertion; [done|by apply pass_inv_init].
Qed.

Lemma reduce_loop_alive_inv (h0 : heap) (gvs : list ref) (fuel : nat)
    (multipass : bool) (s s' : loop_state) :
  assigned h0 gvs →
  alive_inv h0 gvs (ls_heap s) (fingerprinted_pages s) →
  map game_view (ls_pages s) = gvs →
  reduce_loop fuel multipass s = Ok s' →
  alive_inv h0 gvs (ls_heap s') (fingerprinted_pages s')
  ∧ map game_view (ls_pages s') = gvs.
Proof.
  intros Hassigned Halive Hgvs.
  apply (reduce_loop_inv (λ h fps l, alive_inv h0 gvs h l ∧ map game_view fps = gvs));
    [|done].
  intros h fps l st [Ha Hg]. by apply run_pass_alive_inv.
Qed.

Lemma reduce_loop_assertion (h0 : heap) (gvs : list ref) (fuel : nat)
    (multipass : bool) (s : loop_state) :
  assigned h0 gvs →
  alive_inv h0 gvs (ls_heap s) (fingerprinted_pages s) →
  map game_view (ls_pages s) = gvs →
  reduce_loop fuel multipass s ≠ Err AssertionError.
Proof.
  intros Hassigned. revert s; induction fuel as [|fuel IH]; intros s Halive Hgvs H;
    [done|].
  cbn [Reducer.reduce_loop] in H.
  apply rbind_err in H as [H|(st & Hpass & H)].
  - by eapply run_pass_assertion.
  - destruct (last_pass _ _); [done|].
    eapply run_pass_alive_inv in Hpass as [Ha Hg]; [|done..].
    by eapply IH in H.
Qed.

Lemma build_game_views (h : heap) (gvs : list ref) (fps : list FingerprintedPage) :
  build_fingerprinted_pages h gvs = Ok fps → map game_view fps = gvs.
Proof.
  intros H. apply build_fingerprinted_pages_wrap in H.
  induction H as [|gv p l fps' [Hp _] _ IH]; simpl; congruence.
Qed.

(** The identifier of a page of the list, under the invariant. *)
Lemma alive_inv_page_id (h0 : heap) (gvs : list ref) (h : heap) (alive : list nat)
    (r : ref) :
  assigned h0 gvs → alive_inv h0 gvs h alive → r ∈ gvs →
  ∃ j q n, j ∈ alive ∧ gvs !! j = Some q
    ∧ page_id h r = Ok (Some n) ∧ page_id h q = Ok (Some n).
Proof.
  intros Hassigned (Hfr & _ & _ & Hres) Hr.
  apply list_elem_of_lookup in Hr as [i Hi].
  destruct (Hres _ _ Hi) as (j & q & k & Hj & Hjq & Hk & Hle).
  pose proof (assigned_length _ _ Hassigned) as Hlen.
  pose proof (lookup_lt_Some _ _ _ Hi) as Hlt.
  pose proof (Forall2_length _ _ _ Hfr) as Hlen'.
  destruct (resolves_page_id_aux h k r q (length h) Hk) as (gvq & Hq & Hpid); [lia|].
  destruct (is_root_page_id h q) as (gvq' & Hq' & Hpid').
  { by eapply resolves_is_root. }
  assert (gvq' = gvq) as -> by congruence.
  destruct (redirected_only_lookup _ _ _ _ Hfr Hq) as (gv0 & Hgv0 & _ & _ & Hid).
  destruct (assigned_page _ _ q Hassigned) as (gv0' & n & Hgv0' & _ & Hn & _).
  { by eapply list_elem_of_lookup_2. }
  assert (gv0' = gv0) as -> by congruence.
  exists j, q, n. unfold page_id at 1. rewrite Hpid, Hpid', Hid, Hn. done.
Qed.

(** *** What the identifiers must be for a run to return *)

(** The pages the action slots of [r] lead to. *)
Definition targets_of (h : heap) (r : ref) : list ref :=
  match h !! r with
  | Some gv => omap snd (actions gv)
  | None => []
  end.

(** The pages of the list and the pages one action away from them. *)
Definition pages_in_play (h : heap) (gvs : list ref) : list ref :=
  gvs ++ (gvs ≫= targets_of h).

Definition has_own_identifier (h : heap) (r : ref) : Prop :=
  match h !! r with
  | Some gv => page_id_alias gv = None ∧ is_Some (own_page_id gv)
  | None => False
  end.

(** Every page of the list and every page an action slot leads to has a
    unique identifier, as the identifier assignment guarantees. *)
Definition identified (h : heap) (gvs : list ref) : Prop :=
  NoDup gvs
  ∧ Forall (has_own_identifier h) (pages_in_play h gvs)
  ∧ Forall (λ r, Forall (λ r',
        h !! r ≫= own_page_id = h !! r' ≫= own_page_id → r = r')
      (pages_in_play h gvs)) (pages_in_play h gvs).

#[global] Instance has_own_identifier_dec (h : heap) (r : ref) :
  Decision (has_own_identifier h r).
Proof. unfold has_own_identifier. destruct (h !! r); apply _. Defined.

#[global] Instance identified_dec (h : heap) (gvs : list ref) : Decision (identified h gvs).
Proof. unfold identified. apply _. Defined.

Lemma has_own_identifier_page_id (h : heap) (r : ref) :
  has_own_identifier h r →
  ∃ n, h !! r ≫= own_page_id = Some n ∧ page_id h r = Ok (Some n).
Proof.
  unfold has_own_identifier. destruct (h !! r) as [gv|] eqn:Hgv; [|done].
  intros [Ha [n Hn]]. exists n. simpl. split; [done|].
  destruct (is_root_page_id h r) as (gv' & Hgv' & ->); [by exists gv|].
  congruence.
Qed.

Lemma foldM_result_steps {A S} (f : S → A → result S) (P : S → Prop) (l : list A) :
  (∀ s a s', P s → f s a = Ok s' → P s') →
  ∀ s s', P s → foldM_result f l s = Ok s' →
    ∀ a, a ∈ l → ∃ s1 s2, P s1 ∧ f s1 a = Ok s2.
Proof.
  intros Hstep. induction l as [|x l IH]; intros s s' Hs H a Ha; simpl in H.
  - by apply elem_of_nil in Ha.
  - apply rbind_ok in H as (s1 & Hx & H).
    apply elem_of_cons in Ha as [->|Ha]; [by exists s, s1|].
    eapply IH; [|exact H|exact Ha]. by eapply Hstep.
Qed.

Lemma index_by_page_id_keys (h : heap) (l : list ref) (i : nat)
    (m m' : gmap (option Z) nat) (pid : option Z) (j : nat) :
  index_by_page_id h l i m = Ok m' → m' !! pid = Some j →
  m !! pid = Some j ∨ ∃ r, r ∈ l ∧ page_id h r = Ok pid.
Proof.
  revert i m; induction l as [|r l IH]; intros i m H Hj; simpl in H.
  - injection H as ->. by left.
  - apply rbind_ok in H as (pid' & Hpid' & H).
    destruct (IH _ _ H Hj) as [Hm|(r' & Hr' & Hp)].
    + destruct (decide (pid' = pid)) as [->|Hne].
      * right. exists r. split; [by left | done].
      * rewrite lookup_insert_ne in Hm by done. by left.
    + right. exists r'. split; [by right | done].
Qed.

(** When [build_fingerprinted_pages] returns, with identifiers that are
    unique, the action slots lead to pages of the list. *)
Lemma identified_assigned (h : heap) (gvs : list ref) (fps : list FingerprintedPage) :
  identified h gvs → build_fingerprinted_pages h gvs = Ok fps → assigned h gvs.
Proof.
  intros (Hnd & Hown & Hinj) Hb.
  rewrite Forall_forall in Hown.
  assert (Hinj' : ∀ r r', r ∈ pages_in_play h gvs → r' ∈ pages_in_play h gvs →
            h !! r ≫= own_page_id = h !! r' ≫= own_page_id → r = r').
  { intros r r' Hr Hr'. rewrite Forall_forall in Hinj. specialize (Hinj r Hr).
    rewrite Forall_forall in Hinj. by apply Hinj. }
  assert (Hin : ∀ r, r ∈ gvs → r ∈ pages_in_play h gvs).
  { intros r Hr. apply elem_of_app. by left. }
  assert (Htargets : ∀ r t, r ∈ gvs → t ∈ targets_of h r → t ∈ gvs).
  { intros r t Hr Ht.
    assert (Htp : t ∈ pages_in_play h gvs).
    { apply elem_of_app. right. apply list_elem_of_bind. eauto. }
    unfold targets_of in Ht. destruct (h !! r) as [gv|] eqn:Hgv;
      [|by apply elem_of_nil in Ht].
    apply list_elem_of_omap in Ht as (a & Ha & Hat).
    pose proof (build_fingerprinted_pages_wrap _ _ _ Hb) as Hw.
    unfold Reducer.build_fingerprinted_pages in Hb.
    apply rbind_ok in Hb as (fps0 & Hfps0 & Hb).
    apply rbind_ok in Hb as (per_id & Hper & Hb).
    apply new_fingerprinted_pages_wrap in Hfps0.
    assert (Hgv0 : map game_view fps0 = gvs).
    { clear -Hfps0. induction Hfps0 as [|? ? ? ? [Hp _] _ IH]; simpl; congruence. }
    rewrite Hgv0 in Hper.
    apply list_elem_of_lookup in Hr as [i Hi].
    destruct (foldM_result_steps _ (Forall2 (wraps h) gvs) _
                (λ s i' s' Hs Hstep, set_incoming_of_wraps _ _ _ _ _ _ Hs Hstep)
                _ _ Hfps0 Hb i)
      as (s1 & s2 & Hs1 & Hstep).
    { apply elem_of_seq. rewrite <- (Forall2_length _ _ _ Hfps0).
      apply lookup_lt_Some in Hi. lia. }
    unfold set_incoming_of in Hstep.
    destruct (Forall2_lookup_l _ _ _ _ _ Hs1 Hi) as (p & Hp & Hpr & _).
    rewrite Hp, Hpr, Hgv in Hstep.
    destruct (foldM_result_steps _ (λ _, True) _ (λ _ _ _ _ _, I) _ _ I Hstep a Ha)
      as (s3 & s4 & _ & Hlink).
    unfold link_incoming in Hlink. cbn in Hat. rewrite Hat in Hlink.
    apply rbind_ok in Hlink as (pid & Hpid & Hlink).
    destruct (per_id !! pid) as [j|] eqn:Hj; [|done].
    destruct (index_by_page_id_keys _ _ _ _ _ _ _ Hper Hj) as [Hempty|(r' & Hr' & Hpid')].
    { by rewrite lookup_empty in Hempty. }
    destruct (has_own_identifier_page_id h t (Hown _ Htp)) as (n & Hn & Hpt).
    destruct (has_own_identifier_page_id h r' (Hown _ (Hin _ Hr'))) as (n' & Hn' & Hpr').
    assert (t = r') as ->; [|done].
    apply Hinj'; [done|by apply Hin|]. congruence. }
  split.
  - apply Forall_forall. intros r Hr. specialize (Hown r (Hin r Hr)).
    unfold has_own_identifier in Hown. unfold page_assigned.
    pose proof (Htargets r) as Ht. unfold targets_of in Ht.
    destruct (h !! r) as [gv|]; [|done]. destruct Hown as [Ha Hid].
    split; [done|]. split; [done|].
    apply Forall_forall. intros a Hain. unfold leads_into.
    destruct a.2 as [t|] eqn:Hat; [|done]. apply Ht; [done|].
    apply list_elem_of_omap. by exists a.
  - apply NoDup_fmap_2_strong; [|done]. intros r r' Hr Hr'. apply Hinj'; by apply Hin.
Qed.

(** C2: whenever [reduce_views] returns, on pages with unique identifiers,
    every action slot of a returned page that leads to a page leads, by its
    identifier, to a page that is returned. *)
Theorem no_dangling_references (h : heap) (game_views : list ref) (multipass : bool)
    (out : reduced) :
  identified (assign_page_ids h game_views).1 (assign_page_ids h game_views).2 →
  reduce_views h game_views multipass = Ok out →
  ∀ v gv a target,
    v ∈ out_views out → out_heap out !! v = Some gv →
    a ∈ actions gv → a.2 = Some target →
    ∃ q n, q ∈ out_views out
      ∧ page_id (out_heap out) target = Ok (Some n)
      ∧ page_id (out_heap out) q = Ok (Some n).
Proof.
  unfold Reducer.reduce_views.
  destruct (assign_page_ids h game_views) as [h0 gvs]. simpl.
  intros Hidentified H v gv a target Hv Hgv Ha Htarget.
  apply reduce_assigned_ok in H as (fps & s & Hb & Hloop & _ & Hheap & Hviews & _).
  pose proof (identified_assigned _ _ _ Hidentified Hb) as Hassigned.
  rewrite Hheap in *.
  eapply (reduce_loop_alive_inv h0 gvs) in Hloop as [Halive _]; [|done| |].
  2:{ by apply alive_inv_init. }
  2:{ by apply build_game_views in Hb. }
  assert (Hvin : v ∈ gvs).
  { apply list_elem_of_lookup in Hv as [k Hk].
    destruct (Forall2_lookup_r _ _ _ _ _ Hviews Hk) as (i & _ & Hi).
    by eapply list_elem_of_lookup_2. }
  assert (Htin : target ∈ gvs).
  { destruct (assigned_page _ _ _ Hassigned Hvin) as (gv0 & _ & Hgv0 & _ & _ & Hacts).
    destruct Halive as (Hfr & _).
    destruct (redirected_only_lookup _ _ _ _ Hfr Hgv) as (gv0' & Hgv0' & _ & Hact & _).
    assert (gv0' = gv0) as -> by congruence.
    rewrite Hact in Ha. by eapply Hacts. }
  destruct (alive_inv_page_id _ _ _ _ _ Hassigned Halive Htin)
    as (j & q & n & Hj & Hjq & Hpid & Hpid').
  exists q, n. split; [|done].
  apply list_elem_of_lookup in Hj as [k Hk].
  destruct (Forall2_lookup_l _ _ _ _ _ Hviews Hk) as (q' & Hq' & Hjq').
  assert (q' = q) as -> by congruence.
  by eapply list_elem_of_lookup_2.
Qed.

(** *** The run returns *)

Lemma mapM_result_ok {A B} (f : A → result B) (l : list A) :
  (∀ a, a ∈ l → ∃ b, f a = Ok b) → ∃ bs, mapM_result f l = Ok bs.
Proof.
  induction l as [|a l IH]; intros Hf; simpl; [eauto|].
  destruct (Hf a) as [b ->]; [by left|].
  destruct IH as [bs ->]; [|simpl; eauto].
  intros a' Ha'. apply Hf. by right.
Qed.

Lemma foldM_result_ok {A S} (f : S → A → result S) (P : S → Prop) (l : list A) :
  (∀ s a, a ∈ l → P s → ∃ s', f s a = Ok s' ∧ P s') →
  ∀ s, P s → ∃ s', foldM_result f l s = Ok s' ∧ P s'.
Proof.
  induction l as [|a l IH]; intros Hf s Hs; simpl; [eauto|].
  destruct (Hf s a) as (s1 & -> & Hs1); [by left|done|]. simpl.
  apply IH; [|done]. intros s2 a' Ha'. apply Hf. by right.
Qed.

Lemma alive_inv_lookup (h0 : heap) (gvs : list ref) (h : heap) (alive : list nat)
    (r : ref) :
  assigned h0 gvs → alive_inv h0 gvs h alive → r ∈ gvs →
  ∃ gv0 gv, h0 !! r = Some gv0 ∧ h !! r = Some gv
    ∧ content gv = content gv0 ∧ actions gv = actions gv0
    ∧ own_page_id gv = own_page_id gv0
    ∧ ∀ a t, a ∈ actions gv → a.2 = Some t → t ∈ gvs.
Proof.
  intros Hassigned (Hfr & _) Hr.
  destruct (assigned_page _ _ _ Hassigned Hr) as (gv0 & n & Hgv0 & _ & _ & Hacts).
  destruct (Forall2_lookup_l _ _ _ _ _ Hfr Hgv0) as (gv & Hgv & [[Hc Ha] Hid]).
  exists gv0, gv. repeat (split; [done|]). by rewrite Ha.
Qed.

Lemma resolve_link_ok (h0 : heap) (gvs : list ref) (h : heap) (alive : list nat)
    (a : Slot * option ref) :
  assigned h0 gvs → alive_inv h0 gvs h alive →
  (∀ t, a.2 = Some t → t ∈ gvs) →
  ∃ l, resolve_link h a = Ok l.
Proof.
  intros Hassigned Halive Ht. unfold resolve_link.
  destruct a.2 as [t|]; [|eauto].
  destruct (alive_inv_page_id _ _ _ _ t Hassigned Halive) as (_ & _ & n & _ & _ & -> & _);
    [by apply Ht|].
  simpl. eauto.
Qed.

Lemma compute_fingerprint_ok (h0 : heap) (gvs : list ref) (h : heap) (alive : list nat)
    (r : ref) :
  assigned h0 gvs → alive_inv h0 gvs h alive → r ∈ gvs →
  ∃ f, compute_fingerprint h r = Ok f.
Proof.
  intros Hassigned Halive Hr.
  destruct (alive_inv_lookup _ _ _ _ _ Hassigned Halive Hr)
    as (gv0 & gv & _ & Hgv & _ & _ & _ & Hacts).
  unfold Reducer.compute_fingerprint, Reducer.render_trace. rewrite Hgv.
  destruct (mapM_result_ok (resolve_link h) (actions gv)) as [links ->]; [|simpl; eauto].
  intros a Ha. eapply resolve_link_ok; [done..|]. intros t. by apply Hacts.
Qed.

(** The positions recorded in [incoming_pages] are positions of pages. *)
Definition incoming_valid (n : nat) (fps : list FingerprintedPage) : Prop :=
  Forall (Forall (λ j, (j < n)%nat)) (map incoming_pages fps).

Lemma refresh_incoming_ok (h0 : heap) (gvs : list ref) (h : heap) (alive : list nat)
    (incoming : list nat) (fps : list FingerprintedPage) :
  assigned h0 gvs → alive_inv h0 gvs h alive → map game_view fps = gvs →
  Forall (λ j, (j < length gvs)%nat) incoming →
  ∃ fps', refresh_incoming h incoming fps = Ok fps'.
Proof.
  intros Hassigned Halive. revert fps.
  induction incoming as [|j rest IH]; intros fps Hgvs Hvalid; simpl; [eauto|].
  apply Forall_cons in Hvalid as [Hj Hrest].
  destruct (lookup_lt_is_Some_2 fps j) as [p Hp].
  { by rewrite <- (length_map game_view), Hgvs. }
  rewrite Hp.
  destruct (compute_fingerprint_ok _ _ _ _ (game_view p) Hassigned Halive) as [f ->].
  { rewrite <- Hgvs. apply list_elem_of_fmap. exists p. split; [done|].
    by eapply list_elem_of_lookup_2. }
  simpl. apply IH; [|done].
  rewrite list_fmap_insert. simpl. rewrite list_insert_id; [done|].
  by rewrite list_lookup_fmap, Hp.
Qed.

Lemma visit_ok (h0 : heap) (gvs : list ref) (st : pass_state)
    (i : nat) (rest : list nat) :
  assigned h0 gvs → pass_inv h0 gvs st (i :: rest) →
  incoming_valid (length gvs) (ps_pages st) →
  ∃ st', visit st i = Ok st'.
Proof.
  intros Hassigned Hinv Hvalid. unfold Reducer.visit.
  pose proof Hinv as ((_ & _ & Hroots & _) & Hgvs & _).
  destruct (Hroots i) as (d & Hd & _); [apply elem_of_app; right; by left|].
  destruct (lookup_lt_is_Some_2 (ps_pages st) i) as [p Hp].
  { rewrite <- (length_map game_view), Hgvs. by eapply lookup_lt_Some. }
  rewrite Hp.
  destruct (gv_per_page_fingerprint st !! fingerprint p) as [g|] eqn:Hg; [|eauto].
  destruct (pass_inv_identifiers _ _ _ _ _ _ _ Hassigned Hinv Hp Hg)
    as (jr & pid & pid' & Hjr & Hjrg & Hi & _ & _ & _ & _ & -> & -> & Hne).
  simpl. destruct (decide (pid = pid')); [done|].
  destruct Hinv as (Halive & _).
  destruct (refresh_incoming_ok h0 gvs
              (page_id_from (ps_heap st) (game_view p) g)
              (filtered_fp_pages st ++ rest) (incoming_pages p) (ps_pages st))
    as [fps' ->]; [done| |done| |simpl; eauto].
  - by eapply redirect_alive_inv.
  - unfold incoming_valid in Hvalid. rewrite Forall_lookup in Hvalid.
    apply (Hvalid i). by rewrite list_lookup_fmap, Hp.
Qed.

Lemma visits_ok (h0 : heap) (gvs : list ref) (l rest : list nat) (st : pass_state) :
  assigned h0 gvs → pass_inv h0 gvs st (l ++ rest) →
  incoming_valid (length gvs) (ps_pages st) →
  ∃ st', foldM_result visit l st = Ok st'.
Proof.
  intros Hassigned. revert st; induction l as [|i l IH]; intros st Hinv Hvalid;
    simpl; [eauto|].
  destruct (visit_ok _ _ _ _ _ Hassigned Hinv Hvalid) as [st1 Hv]. rewrite Hv. simpl.
  apply IH; [by eapply visit_pass_inv|].
  unfold incoming_valid. by apply visit_game_views in Hv as [_ ->].
Qed.

Lemma run_pass_ok (h0 : heap) (gvs : list ref) (h : heap)
    (fps : list FingerprintedPage) (l : list nat) :
  assigned h0 gvs → alive_inv h0 gvs h l → map game_view fps = gvs →
  incoming_valid (length gvs) fps →
  ∃ st, run_pass h fps l = Ok st.
Proof.
  intros Hassigned Halive Hgvs Hvalid.
  eapply visits_ok; [done|by apply pass_inv_init|done].
Qed.

Lemma reduce_loop_ok (h0 : heap) (gvs : list ref) (fuel : nat) (multipass : bool)
    (s : loop_state) :
  assigned h0 gvs →
  alive_inv h0 gvs (ls_heap s) (fingerprinted_pages s) →
  map game_view (ls_pages s) = gvs →
  incoming_valid (length gvs) (ls_pages s) →
  (length (fingerprinted_pages s) / 25 + 1 ≤ fuel)%nat →
  ∃ s', reduce_loop fuel multipass s = Ok s'.
Proof.
  intros Hassigned Halive Hgvs Hvalid Hfuel.
  destruct (reduce_loop fuel multipass s) as [s'|e] eqn:H; [eauto|]. exfalso.
  revert s Halive Hgvs Hvalid Hfuel H.
  induction fuel as [|fuel IH]; intros s Halive Hgvs Hvalid Hfuel H; [lia|].
  cbn [Reducer.reduce_loop] in H.
  destruct (run_pass_ok _ _ _ _ _ Hassigned Halive Hgvs Hvalid) as [st Hpass].
  rewrite Hpass in H. cbn [rbind] in H.
  destruct (last_pass _ _) eqn:Hlast; [done|].
  assert (Hlt : (length (filtered_fp_pages st) + 25
                 ≤ length (fingerprinted_pages s))%nat).
  { unfold last_pass, MIN_REMOVED_VIEWS_TO_GO_ON in Hlast.
    rewrite !orb_false_iff, Z.ltb_ge in Hlast. lia. }
  apply div25_step in Hlt.
  pose proof (visits_game_views _ _ _ Hpass) as [_ Hinc].
  eapply run_pass_alive_inv in Hpass as [Ha Hg]; [|done..].
  eapply IH in H; [done|done|done| |cbn [fingerprinted_pages]; lia].
  unfold incoming_valid. cbn [ls_pages]. by rewrite Hinc.
Qed.

Lemma index_by_page_id_ok (h : heap) (l : list ref) (i : nat) (m : gmap (option Z) nat) :
  (∀ r, r ∈ l → ∃ pid, page_id h r = Ok pid) →
  ∃ m', index_by_page_id h l i m = Ok m'
    ∧ (∀ k, is_Some (m !! k) → is_Some (m' !! k))
    ∧ (∀ r pid, r ∈ l → page_id h r = Ok pid → is_Some (m' !! pid)).
Proof.
  revert i m; induction l as [|r l IH]; intros i m Hl; simpl.
  - exists m. split; [done|]. split; [done|]. intros r pid Hr. by apply elem_of_nil in Hr.
  - destruct (Hl r) as [pid Hpid]; [by left|]. rewrite Hpid. simpl.
    destruct (IH (S i) (<[pid:=i]> m)) as (m' & -> & Hmono & Hkeys).
    { intros r' Hr'. apply Hl. by right. }
    exists m'. split; [done|]. split.
    + intros k [v Hk]. apply Hmono.
      destruct (decide (pid = k)) as [->|Hne];
        [rewrite lookup_insert_eq | rewrite lookup_insert_ne by done]; eauto.
    + intros r' pid' Hr' Hpid'. apply elem_of_cons in Hr' as [->|Hr'].
      * apply Hmono. assert (pid' = pid) as -> by congruence.
        rewrite lookup_insert_eq. eauto.
      * by eapply Hkeys.
Qed.

Lemma incoming_valid_add (n i j : nat) (fps : list FingerprintedPage) :
  (i < n)%nat → incoming_valid n fps → incoming_valid n (alter (add_incoming i) j fps).
Proof.
  unfold incoming_valid. intros Hi. revert j.
  induction fps as [|p fps IH]; intros j H; [done|].
  simpl in H. apply Forall_cons in H as [Hp H].
  destruct j as [|j]; simpl; constructor; auto.
  - apply Forall_app. split; [done|]. by constructor.
  - by apply IH.
Qed.

Lemma build_fingerprinted_pages_ok (h : heap) (gvs : list ref) :
  assigned h gvs →
  ∃ fps, build_fingerprinted_pages h gvs = Ok fps
    ∧ incoming_valid (length gvs) fps.
Proof.
  intros Hassigned. pose proof (alive_inv_init _ _ Hassigned) as Halive.
  unfold Reducer.build_fingerprinted_pages.
  destruct (mapM_result_ok (new_fingerprinted_page h) gvs) as [fps0 Hfps0].
  { intros r Hr. unfold Reducer.new_fingerprinted_page.
    destruct (compute_fingerprint_ok _ _ _ _ _ Hassigned Halive Hr) as [f ->].
    simpl. eauto. }
  rewrite Hfps0. cbn [rbind].
  pose proof (new_fingerprinted_pages_wrap _ _ _ Hfps0) as Hw0.
  assert (Hgv0 : map game_view fps0 = gvs).
  { clear -Hw0. induction Hw0 as [|gv p l fps' [Hp _] _ IH]; simpl; congruence. }
  assert (Hpid : ∀ r, r ∈ gvs → ∃ n, page_id h r = Ok (Some n)).
  { intros r Hr.
    destruct (alive_inv_page_id _ _ _ _ _ Hassigned Halive Hr) as (_ & _ & n & _ & _ & H & _).
    eauto. }
  destruct (index_by_page_id_ok h (map game_view fps0) 0 ∅) as (per_id & -> & _ & Hkeys).
  { rewrite Hgv0. intros r Hr. destruct (Hpid r Hr) as [n Hn]. eauto. }
  rewrite Hgv0 in Hkeys. cbn [rbind].
  pose (P := λ fps : list FingerprintedPage,
          Forall2 (wraps h) gvs fps ∧ incoming_valid (length gvs) fps).
  assert (Hstep : ∀ fps i, i ∈ seq 0 (length fps0) → P fps →
            ∃ fps', set_incoming_of h per_id fps i = Ok fps' ∧ P fps').
  { intros fps i Hi [Hw Hvalid]. unfold set_incoming_of.
    apply elem_of_seq in Hi. rewrite <- (Forall2_length _ _ _ Hw0) in Hi.
    destruct (lookup_lt_is_Some_2 gvs i) as [r Hr]; [lia|].
    destruct (Forall2_lookup_l _ _ _ _ _ Hw Hr) as (p & Hp & <- & _). rewrite Hp.
    assert (Hrin : game_view p ∈ gvs) by by eapply list_elem_of_lookup_2.
    destruct (alive_inv_lookup _ _ _ _ _ Hassigned Halive Hrin)
      as (_ & gv & _ & Hgv & _ & _ & _ & Hacts).
    rewrite Hgv.
    apply (foldM_result_ok _ P); [|done].
    intros fps1 a Ha [Hw1 Hvalid1]. unfold link_incoming.
    destruct a.2 as [t|] eqn:Ht; [|by exists fps1].
    destruct (Hpid t) as [n Hn]; [by eapply Hacts|]. rewrite Hn. simpl.
    destruct (Hkeys t (Some n)) as [j ->]; [by eapply Hacts|done|].
    eexists. split; [done|]. split.
    - by apply wraps_add_incoming.
    - apply incoming_valid_add; [lia|done]. }
  destruct (foldM_result_ok _ P _ Hstep fps0) as (fps & Hfps & _ & Hvalid); [|eauto].
  split; [done|]. unfold incoming_valid.
  clear -Hfps0. generalize (length gvs). intros n.
  revert fps0 Hfps0. induction gvs as [|r l IH]; intros fps0 H;
    simpl in H; inv_ok; [constructor|].
  unfold Reducer.new_fingerprinted_page in Ha. inv_ok. simpl.
  constructor; [constructor | by apply IH].
Qed.

(** Once the pages have their identifiers, a run on one page or more returns. *)
Lemma reduce_assigned_returns (h : heap) (gvs : list ref) (multipass : bool) :
  assigned h gvs → gvs ≠ [] → ∃ out, reduce_assigned h gvs multipass = Ok out.
Proof.
  intros Hassigned Hne.
  destruct (build_fingerprinted_pages_ok _ _ Hassigned) as (fps & Hb & Hvalid).
  pose proof (build_game_views _ _ _ Hb) as Hgvs.
  pose proof (build_fingerprinted_pages_length _ _ _ Hb) as Hlen.
  pose proof (alive_inv_init _ _ Hassigned) as Halive.
  unfold Reducer.reduce_assigned. rewrite Hb. cbn [rbind]. rewrite Hlen.
  destruct (reduce_loop_ok h gvs (S (length gvs)) multipass
              (mkLoopState h fps (seq 0 (length gvs)) 1 0)) as [s Hs]; try done.
  { cbn [fingerprinted_pages]. rewrite length_seq.
    pose proof (Nat.Div0.div_le_upper_bound (length gvs) 25 (length gvs)). lia. }
  rewrite Hs. cbn [rbind].
  destruct (decide _) as [H0|_]; [by destruct gvs|].
  eapply reduce_loop_alive_inv in Hs as [(_ & _ & Hroots & _) Hg]; [|done..].
  destruct (mapM_result_ok (unwrap (ls_pages s)) (fingerprinted_pages s))
    as [views ->]; [|simpl; eauto].
  intros j Hj. destruct (Hroots j Hj) as (r & Hr & _).
  unfold unwrap. rewrite <- Hg, list_lookup_fmap in Hr.
  destruct (ls_pages s !! j); [eauto|done].
Qed.

(** *** A page that only leads to itself *)

Lemma self_loop_fingerprint (h : heap) (p : ref) (gv : GameView Content Slot)
    (slot : Slot) (n : Z) :
  h !! p = Some gv → actions gv = [(slot, Some p)] → page_id h p = Ok (Some n) →
  compute_fingerprint h p = Ok (hash (render_page (content gv) [(slot, Some n)])).
Proof.
  intros Hgv Hacts Hpid.
  unfold Reducer.compute_fingerprint, Reducer.render_trace.
  rewrite Hgv, Hacts. simpl. unfold resolve_link. simpl. by rewrite Hpid.
Qed.

(** A fingerprint after [refresh_incoming] is the one before, or the
    fingerprint of the page in the heap at hand. *)
Lemma refresh_incoming_fingerprints (h : heap) (incoming : list nat)
    (fps fps' : list FingerprintedPage) (j : nat) (pj' : FingerprintedPage) :
  refresh_incoming h incoming fps = Ok fps' → fps' !! j = Some pj' →
  ∃ pj, fps !! j = Some pj ∧ game_view pj' = game_view pj
    ∧ (fingerprint pj' = fingerprint pj
       ∨ compute_fingerprint h (game_view pj) = Ok (fingerprint pj')).
Proof.
  revert fps; induction incoming as [|j0 rest IH]; intros fps H Hj; simpl in H.
  - inv_ok. exists pj'. auto.
  - destruct (fps !! j0) as [p0|] eqn:Hp0; [|done]. inv_ok.
    destruct (IH _ H Hj) as (pj1 & Hpj1 & Hgv & Hfp).
    destruct (decide (j = j0)) as [->|Hne].
    + rewrite list_lookup_insert_eq in Hpj1 by by eapply lookup_lt_Some.
      injection Hpj1 as <-. exists p0. split; [done|]. split; [done|].
      right. destruct Hfp as [-> | Hfp]; done.
    + rewrite list_lookup_insert_ne in Hpj1 by done. exists pj1. auto.
Qed.

(** The page at position [pi] has fingerprint [F], and no other page has. *)
Definition only_with_fingerprint (F : Z) (pi : nat) (fps : list FingerprintedPage) : Prop :=
  (∃ pp, fps !! pi = Some pp ∧ fingerprint pp = F)
  ∧ (∀ j pj, j ≠ pi → fps !! j = Some pj → fingerprint pj ≠ F).

Definition survives_inv (F : Z) (pi : nat) (st : @pass_state Content Slot)
    (rest : list nat) : Prop :=
  only_with_fingerprint F pi (ps_pages st)
  ∧ (pi ∈ filtered_fp_pages st
     ∨ (pi ∈ rest ∧ gv_per_page_fingerprint st !! F = None)).

(** The heaps a run goes through: the heap after each visit of each pass,
    and the heap the run starts from. *)
Fixpoint visit_heaps (l : list nat) (st : pass_state) : list heap :=
  match l with
  | [] => []
  | i :: l' =>
      match visit st i with
      | Ok st' => ps_heap st' :: visit_heaps l' st'
      | Err _ => []
      end
  end.

Fixpoint loop_heaps (fuel : nat) (multipass : bool) (s : loop_state) : list heap :=
  match fuel with
  | O => []
  | S fuel' =>
      visit_heaps (fingerprinted_pages s) (mkPassState (ls_heap s) (ls_pages s) ∅ [])
      ++ match run_pass (ls_heap s) (ls_pages s) (fingerprinted_pages s) with
         | Ok st =>
             let views_removed :=
               Z.of_nat (length (fingerprinted_pages s))
               - Z.of_nat (length (filtered_fp_pages st)) in
             if last_pass views_removed multipass then []
             else loop_heaps fuel' multipass
                    (mkLoopState (ps_heap st) (ps_pages st) (filtered_fp_pages st)
                       (pass_number s + 1) (total_views_removed s + views_removed))
         | Err _ => []
         end
  end.

Definition run_heaps (h : heap) (game_views : list ref) (multipass : bool) : list heap :=
  h :: match build_fingerprinted_pages h game_views with
       | Ok fps =>
           loop_heaps (S (length game_views)) multipass
             (mkLoopState h fps (seq 0 (length fps)) 1 0)
       | Err _ => []
       end.

Section SelfLoop.

Variables (h0 : heap) (gvs : list ref) (p : ref) (pi : nat)
  (gv0 : GameView Content Slot) (slot : Slot) (F : Z).
Variable seen : heap → Prop.
Hypothesis Hassigned : assigned h0 gvs.
Hypothesis Hpi : gvs !! pi = Some p.
Hypothesis Hgv0 : h0 !! p = Some gv0.
Hypothesis Hself : actions gv0 = [(slot, Some p)].
Hypothesis HF : compute_fingerprint h0 p = Ok F.
Hypothesis Hother : ∀ r h', r ∈ gvs → r ≠ p → seen h' →
  compute_fingerprint h' r ≠ Ok F.

Lemma self_loop_fingerprint_stable (h : heap) (alive : list nat) :
  alive_inv h0 gvs h alive → pi ∈ alive → compute_fingerprint h p = Ok F.
Proof using slot gv0 Hself Hpi Hgv0 Hassigned HF.
  intros Halive Hin. pose proof Halive as (Hfr & _ & Hroots & _).
  destruct (Hroots pi Hin) as (r & Hr & Hroot).
  assert (r = p) as -> by congruence.
  destruct (is_root_page_id _ _ Hroot) as (gv & Hgv & Hpid).
  destruct (redirected_only_lookup _ _ _ _ Hfr Hgv) as (gv0' & Hgv0' & Hc & Ha & Hid).
  assert (gv0' = gv0) as -> by congruence.
  destruct (assigned_page _ _ p Hassigned) as (gv0' & n & Hgv0'' & Hal & Hn & _).
  { by eapply list_elem_of_lookup_2. }
  assert (gv0' = gv0) as -> by congruence.
  destruct (is_root_page_id h0 p) as (gv0' & Hgv0''' & Hpid0); [by exists gv0|].
  assert (gv0' = gv0) as -> by congruence.
  rewrite (self_loop_fingerprint h0 p gv0 slot n) in HF by (try done; congruence).
  rewrite (self_loop_fingerprint h p gv slot n) by congruence.
  by rewrite Hc.
Qed.

Lemma visit_survives (st st' : pass_state) (i : nat) (rest : list nat) :
  pass_inv h0 gvs st (i :: rest) → survives_inv F pi st (i :: rest) →
  visit st i = Ok st' → seen (ps_heap st') → survives_inv F pi st' rest.
Proof using slot p gv0 Hself Hpi Hother Hgv0 Hassigned HF.
  intros Hinv ([(pp & Hpp & HppF) Hothers] & Hwhere) H Hseen.
  pose proof (assigned_NoDup _ _ Hassigned) as Hnd.
  pose proof Hinv as ((_ & Hsorted & _) & Hgvs & _).
  apply sorted_middle in Hsorted as (_ & Hlt1 & Hlt2).
  assert (Hwhere' : pi ∈ filtered_fp_pages st
            ∨ (pi = i ∧ gv_per_page_fingerprint st !! F = None)
            ∨ (pi ≠ i ∧ pi ∈ rest ∧ gv_per_page_fingerprint st !! F = None)).
  { destruct Hwhere as [Hw|[Hw Hd]]; [by left|]. right.
    apply elem_of_cons in Hw as [->|Hw]; [by left|]. right.
    split; [|done]. intros ->. apply Hlt2 in Hw. lia. }
  pose proof H as Hvisit. unfold Reducer.visit in H.
  destruct (ps_pages st !! i) as [q|] eqn:Hq; [|done].
  destruct (gv_per_page_fingerprint st !! fingerprint q) as [g|] eqn:Hg.
  - (* the page at [i] is merged: it is not [p] *)
    destruct (pass_inv_identifiers _ _ _ _ _ _ _ Hassigned Hinv Hq Hg)
      as (jr & pid & pid' & Hjr & Hjrg & Hi & _).
    assert (Hne : pi ≠ i).
    { intros ->. destruct Hwhere' as [Hw|[[_ Hd]|[Hw _]]]; [|congruence|done].
      apply Hlt1 in Hw. lia. }
    assert (Halive' : alive_inv h0 gvs
              (page_id_from (ps_heap st) (game_view q) g) (filtered_fp_pages st ++ rest)).
    { destruct Hinv as (Halive & _). by eapply redirect_alive_inv. }
    assert (Hpin : pi ∈ filtered_fp_pages st ++ rest).
    { apply elem_of_app. destruct Hwhere' as [Hw|[[Hw _]|[_ [Hw _]]]]; auto. done. }
    inv_ok_keep. destruct (decide _); [done|]. inv_ok_keep. subst st'.
    unfold survives_inv, only_with_fingerprint.
    cbn [ps_heap ps_pages gv_per_page_fingerprint filtered_fp_pages] in *.
    split; [split|].
    + destruct (lookup_lt_is_Some_2 a1 pi) as [pp' Hpp'].
      { rewrite <- (length_map game_view), (proj1 (refresh_incoming_game_views _ _ _ _ Ha1)),
          length_map. by eapply lookup_lt_Some. }
      exists pp'. split; [done|].
      destruct (refresh_incoming_fingerprints _ _ _ _ _ _ Ha1 Hpp')
        as (pp0 & Hpp0 & _ & Hfp).
      assert (pp0 = pp) as -> by congruence.
      destruct Hfp as [-> | Hfp]; [done|].
      assert (Hgp : game_view pp = p).
      { pose proof Hpi as Hpi'. rewrite <- Hgvs, list_lookup_fmap, Hpp in Hpi'.
        by injection Hpi'. }
      rewrite Hgp, (self_loop_fingerprint_stable _ _ Halive' Hpin) in Hfp. congruence.
    + intros j pj' Hj Hpj'.
      destruct (refresh_incoming_fingerprints _ _ _ _ _ _ Ha1 Hpj')
        as (pj & Hpj & _ & Hfp).
      destruct Hfp as [-> | Hfp]; [by eapply Hothers|].
      intros HeqF. rewrite HeqF in Hfp.
      assert (Hgj : map game_view (ps_pages st) !! j = Some (game_view pj)).
      { by rewrite list_lookup_fmap, Hpj. }
      rewrite Hgvs in Hgj.
      eapply (Hother (game_view pj)); [| | |exact Hfp].
      * by eapply list_elem_of_lookup_2.
      * intros Heq. apply Hj. eapply NoDup_lookup; [exact Hnd|exact Hgj|].
        by rewrite Heq.
      * exact Hseen.
    + destruct Hwhere' as [Hw|[[Hw _]|[_ [Hw Hd]]]]; auto. done.
  - (* the page at [i] is kept *)
    inv_ok_keep. subst st'. unfold survives_inv.
    cbn [ps_heap ps_pages gv_per_page_fingerprint filtered_fp_pages] in *.
    split; [by split; [exists pp|]|].
    destruct Hwhere' as [Hw|[[-> Hd]|[Hne [Hw Hd]]]].
    + left. apply elem_of_app. by left.
    + left. apply elem_of_app. right. by left.
    + right. split; [done|]. rewrite lookup_insert_ne; [done|].
      intros HeqF. by eapply (Hothers i q).
Qed.

Lemma visits_survive (l rest : list nat) (st st' : pass_state) :
  pass_inv h0 gvs st (l ++ rest) → survives_inv F pi st (l ++ rest) →
  (∀ h', h' ∈ visit_heaps l st → seen h') →
  foldM_result visit l st = Ok st' → survives_inv F pi st' rest.
Proof using slot p gv0 Hself Hpi Hother Hgv0 Hassigned HF.
  revert st; induction l as [|i l IH]; intros st Hinv Hs Hseen H; simpl in H; inv_ok;
    [done|].
  cbn [visit_heaps] in Hseen. rewrite Ha in Hseen.
  eapply IH; [| | |exact H].
  - by eapply visit_pass_inv.
  - eapply visit_survives; [done..|]. apply Hseen. by left.
  - intros h' Hh'. apply Hseen. by right.
Qed.

Lemma run_pass_survives (h : heap) (fps : list FingerprintedPage) (l : list nat)
    (st : pass_state) :
  alive_inv h0 gvs h l → map game_view fps = gvs →
  only_with_fingerprint F pi fps → pi ∈ l →
  (∀ h', h' ∈ visit_heaps l (mkPassState h fps ∅ []) → seen h') →
  run_pass h fps l = Ok st →
  only_with_fingerprint F pi (ps_pages st) ∧ pi ∈ filtered_fp_pages st.
Proof using slot p gv0 Hself Hpi Hother Hgv0 Hassigned HF.
  intros Halive Hgvs Honly Hin Hseen H.
  eapply (visits_survive l []) in H as [Ho Hw].
  - split; [done|]. destruct Hw as [Hw|[Hw _]]; [done|]. by apply elem_of_nil in Hw.
  - by apply pass_inv_init.
  - split; [done|]. right. rewrite app_nil_r. split; [done|]. apply lookup_empty.
  - exact Hseen.
Qed.

Lemma reduce_loop_survives (fuel : nat) (multipass : bool) (s s' : loop_state) :
  alive_inv h0 gvs (ls_heap s) (fingerprinted_pages s) →
  map game_view (ls_pages s) = gvs →
  only_with_fingerprint F pi (ls_pages s) → pi ∈ fingerprinted_pages s →
  (∀ h', h' ∈ loop_heaps fuel multipass s → seen h') →
  reduce_loop fuel multipass s = Ok s' →
  pi ∈ fingerprinted_pages s'.
Proof using slot p gv0 Hself Hpi Hother Hgv0 Hassigned HF. clear assign_page_ids.
  revert s. induction fuel as [|fuel IH]; intros s Halive Hgvs Honly Hin Hseen H; [done|].
  cbn [Reducer.reduce_loop loop_heaps] in H, Hseen.
  destruct (Reducer.run_pass _ _ _ _ _) as [st|e] eqn:Hpass; [|done]. cbn [rbind] in H.
  assert (Hseen1 : ∀ h', h' ∈ visit_heaps (fingerprinted_pages s)
                           (mkPassState (ls_heap s) (ls_pages s) ∅ []) → seen h').
  { intros h' Hh'. apply Hseen. apply elem_of_app. by left. }
  destruct (run_pass_survives _ _ _ _ Halive Hgvs Honly Hin Hseen1 Hpass) as [Ho' Hi'].
  destruct (run_pass_alive_inv _ _ _ _ _ _ Hassigned Halive Hgvs Hpass) as [Ha' Hg'].
  destruct (last_pass _ multipass).
  - by injection H as <-.
  - eapply IH; [..|exact H]; try done.
    intros h' Hh'. apply Hseen. apply elem_of_app. by right.
Qed.

Lemma build_only_with_fingerprint (fps : list FingerprintedPage) :
  seen h0 →
  build_fingerprinted_pages h0 gvs = Ok fps → only_with_fingerprint F pi fps.
Proof using p Hpi Hother Hassigned HF.
  intros Hseen0 Hb. apply build_fingerprinted_pages_wrap in Hb.
  pose proof (assigned_NoDup _ _ Hassigned) as Hnd. split.
  - destruct (Forall2_lookup_l _ _ _ _ _ Hb Hpi) as (pp & Hpp & _ & Hfp).
    exists pp. split; [done|]. congruence.
  - intros j pj Hj Hpj HeqF.
    destruct (Forall2_lookup_r _ _ _ _ _ Hb Hpj) as (r & Hr & _ & Hfp).
    eapply (Hother r h0); [by eapply list_elem_of_lookup_2| | |by rewrite <- HeqF].
    + intros ->. apply Hj. by eapply NoDup_lookup.
    + exact Hseen0.
Qed.

End SelfLoop.

(** With identifiers as [assign_page_ids] must give them, no run ends on the
    assertion. *)
Lemma reduce_assigned_assertion (h : heap) (gvs : list ref) (multipass : bool) :
  assigned h gvs → reduce_assigned h gvs multipass ≠ Err AssertionError.
Proof.
  intros Hassigned H. unfold Reducer.reduce_assigned in H.
  apply rbind_err in H as [H|(fps & Hb & H)].
  { by apply build_fingerprinted_pages_error in H. }
  apply rbind_err in H as [H|(s & _ & H)].
  { eapply reduce_loop_assertion in H; [done|done| |].
    - cbn [ls_heap fingerprinted_pages].
      rewrite (build_fingerprinted_pages_length _ _ _ Hb). by apply alive_inv_init.
    - by apply build_game_views in Hb. }
  destruct (decide _); [done|].
  apply rbind_err in H as [H|(? & _ & H)]; [|done].
  eapply (mapM_result_error _ raised_by_page_id) in H; [done|].
  intros i e. unfold unwrap. destruct (_ !! _); [done | by intros [= <-]].
Qed.

(** C7: a page whose only action slot leads to the page itself does not make
    the run end on the assertion, and when no other page has its fingerprint
    in any of the heaps the run goes through, the run returns it, with the
    identifier it was given. *)
Theorem self_loop_is_safe (h : heap) (game_views : list ref) (multipass : bool)
    (p : ref) (gv : GameView Content Slot) (slot : Slot) :
  assigned (assign_page_ids h game_views).1 (assign_page_ids h game_views).2 →
  p ∈ (assign_page_ids h game_views).2 →
  (assign_page_ids h game_views).1 !! p = Some gv →
  actions gv = [(slot, Some p)] →
  reduce_views h game_views multipass ≠ Err AssertionError
  ∧ ((∀ r h', r ∈ (assign_page_ids h game_views).2 → r ≠ p →
        h' ∈ run_heaps (assign_page_ids h game_views).1
               (assign_page_ids h game_views).2 multipass →
        compute_fingerprint h' r
        ≠ compute_fingerprint (assign_page_ids h game_views).1 p) →
     ∃ out, reduce_views h game_views multipass = Ok out
       ∧ p ∈ out_views out ∧ is_root (out_heap out) p).
Proof.
  unfold Reducer.reduce_views.
  destruct (assign_page_ids h game_views) as [h0 gvs]. cbn [fst snd].
  intros Hassigned Hp Hgv Hself. split; [by apply reduce_assigned_assertion|].
  intros Hother.
  destruct (reduce_assigned_returns h0 gvs multipass Hassigned) as [out Hout].
  { intros ->. by apply elem_of_nil in Hp. }
  exists out. split; [done|].
  apply reduce_assigned_ok in Hout as (fps & s & Hb & Hloop & _ & Hheap & Hviews & _).
  pose proof (alive_inv_init _ _ Hassigned) as Halive.
  pose proof (build_game_views _ _ _ Hb) as Hgvs.
  destruct (compute_fingerprint_ok _ _ _ _ _ Hassigned Halive Hp) as [F HF].
  rewrite HF in Hother.
  pose proof Hp as Hp'. apply list_elem_of_lookup in Hp' as [pi Hpi].
  pose proof (build_fingerprinted_pages_length _ _ _ Hb) as Hlen.
  assert (Hseen0 : h0 ∈ run_heaps h0 gvs multipass) by (by left).
  pose proof (build_only_with_fingerprint h0 gvs p pi F
                (λ h', h' ∈ run_heaps h0 gvs multipass)
                Hassigned Hpi HF Hother fps Hseen0 Hb) as Honly.
  assert (Hin : pi ∈ fingerprinted_pages s).
  { eapply (reduce_loop_survives h0 gvs p pi gv slot F
              (λ h', h' ∈ run_heaps h0 gvs multipass)); [..|exact Hloop];
      try done; try exact Halive.
    - cbn [fingerprinted_pages]. apply elem_of_seq.
      apply lookup_lt_Some in Hpi. lia.
    - intros h' Hh'. unfold run_heaps. rewrite Hb, Hlen. by right. }
  eapply (reduce_loop_alive_inv h0 gvs) in Hloop as [(_ & _ & Hroots & _) _];
    [|done|exact Halive|exact Hgvs].
  rewrite Hheap. split.
  - apply list_elem_of_lookup in Hin as [k Hk].
    destruct (Forall2_lookup_l _ _ _ _ _ Hviews Hk) as (q & Hq & Hpiq).
    assert (q = p) as -> by congruence.
    by eapply list_elem_of_lookup_2.
  - destruct (Hroots pi Hin) as (r & Hr & Hroot). congruence.
Qed.

End Properties.

(** ** Two runs *)

(** Two computations that end on the same exception, or return related
    values. *)
Definition result_rel {A B} (R : A → B → Prop) (r1 : result A) (r2 : result B) : Prop :=
  match r1, r2 with
  | Ok a, Ok b => R a b
  | Err e1, Err e2 => e1 = e2
  | _, _ => False
  end.

Lemma result_rel_eq {A} (r1 r2 : result A) : result_rel eq r1 r2 ↔ r1 = r2.
Proof.
  destruct r1, r2; simpl; split; intros H; try done; try congruence.
Qed.

Lemma rbind_rel {A1 A2 B1 B2} (R : A1 → A2 → Prop) (Q : B1 → B2 → Prop)
    (m1 : result A1) (m2 : result A2) (k1 : A1 → result B1) (k2 : A2 → result B2) :
  result_rel R m1 m2 →
  (∀ a1 a2, R a1 a2 → result_rel Q (k1 a1) (k2 a2)) →
  result_rel Q (rbind m1 k1) (rbind m2 k2).
Proof. destruct m1, m2; simpl; intros H Hk; auto; done. Qed.

Lemma mapM_result_rel {A B1 B2} (R : B1 → B2 → Prop)
    (f1 : A → result B1) (f2 : A → result B2) (l : list A) :
  (∀ a, result_rel R (f1 a) (f2 a)) →
  result_rel (Forall2 R) (mapM_result f1 l) (mapM_result f2 l).
Proof.
  intros Hf. induction l as [|a l IH]; simpl; [constructor|].
  eapply rbind_rel; [apply Hf|]. intros b1 b2 Hb.
  eapply rbind_rel; [apply IH|]. intros bs1 bs2 Hbs. simpl. by constructor.
Qed.

Lemma foldM_result_rel {A S1 S2} (R : S1 → S2 → Prop)
    (f1 : S1 → A → result S1) (f2 : S2 → A → result S2) (l : list A) :
  (∀ s1 s2 a, R s1 s2 → result_rel R (f1 s1 a) (f2 s2 a)) →
  ∀ s1 s2, R s1 s2 → result_rel R (foldM_result f1 l s1) (foldM_result f2 l s2).
Proof.
  intros Hf. induction l as [|a l IH]; intros s1 s2 Hs; simpl; [done|].
  eapply rbind_rel; [by apply Hf|]. intros s1' s2' Hs'. by apply IH.
Qed.

Section TwoRuns.

Context {Content Slot Call : Type}.
Variable render_page : Content → list (Slot * option Z) → list Call.

(** The hash of the first run and the hash of the second one: Python draws
    the key of its string hash when the interpreter starts. *)
Variables hash1 hash2 : list Call → Z.

(** Whatever two lists of calls collide in one run collide in the other. *)
Hypothesis same_collisions : ∀ t t', hash1 t = hash1 t' ↔ hash2 t = hash2 t'.

Local Abbreviation heap := (list (GameView Content Slot)).

(** The same page in both runs: wrapped alike, with the hashes of one list
    of calls as fingerprints. *)
Definition page_rel (p1 p2 : FingerprintedPage) : Prop :=
  game_view p1 = game_view p2 ∧ incoming_pages p1 = incoming_pages p2
  ∧ ∃ t, fingerprint p1 = hash1 t ∧ fingerprint p2 = hash2 t.

Definition dict_rel (d1 d2 : gmap Z ref) : Prop :=
  ∀ t, d1 !! hash1 t = d2 !! hash2 t.

Definition pass_rel (st1 st2 : @pass_state Content Slot) : Prop :=
  ps_heap st1 = ps_heap st2
  ∧ Forall2 page_rel (ps_pages st1) (ps_pages st2)
  ∧ dict_rel (gv_per_page_fingerprint st1) (gv_per_page_fingerprint st2)
  ∧ filtered_fp_pages st1 = filtered_fp_pages st2.

Definition loop_rel (s1 s2 : @loop_state Content Slot) : Prop :=
  ls_heap s1 = ls_heap s2
  ∧ Forall2 page_rel (ls_pages s1) (ls_pages s2)
  ∧ fingerprinted_pages s1 = fingerprinted_pages s2
  ∧ pass_number s1 = pass_number s2
  ∧ total_views_removed s1 = total_views_removed s2.

Lemma page_rel_game_views (fps1 fps2 : list FingerprintedPage) :
  Forall2 page_rel fps1 fps2 → map game_view fps1 = map game_view fps2.
Proof. induction 1 as [|p1 p2 l1 l2 (Hg & _) _ IH]; simpl; congruence. Qed.

Lemma compute_fingerprint_rel (h : heap) (r : ref) :
  result_rel (λ f1 f2, ∃ t, f1 = hash1 t ∧ f2 = hash2 t)
    (compute_fingerprint render_page hash1 h r)
    (compute_fingerprint render_page hash2 h r).
Proof.
  unfold compute_fingerprint. destruct (render_trace render_page h r) as [t|e]; simpl; eauto.
Qed.

Lemma new_fingerprinted_page_rel (h : heap) (r : ref) :
  result_rel page_rel (new_fingerprinted_page render_page hash1 h r)
    (new_fingerprinted_page render_page hash2 h r).
Proof.
  unfold new_fingerprinted_page.
  eapply rbind_rel; [apply compute_fingerprint_rel|].
  intros f1 f2 Hf. simpl. by split; [|split].
Qed.

Lemma page_rel_alter (f : FingerprintedPage → FingerprintedPage) (j : nat)
    (fps1 fps2 : list FingerprintedPage) :
  (∀ p1 p2, page_rel p1 p2 → page_rel (f p1) (f p2)) →
  Forall2 page_rel fps1 fps2 → Forall2 page_rel (alter f j fps1) (alter f j fps2).
Proof.
  intros Hf H. revert j. induction H as [|p1 p2 l1 l2 Hp Hl IH]; intros j; [constructor|].
  destruct j as [|j]; simpl; constructor; auto. apply IH.
Qed.

Lemma link_incoming_rel (h : heap) (per_id : gmap (option Z) nat) (i : nat)
    (fps1 fps2 : list FingerprintedPage) (a : Slot * option ref) :
  Forall2 page_rel fps1 fps2 →
  result_rel (Forall2 page_rel) (link_incoming h per_id i fps1 a)
    (link_incoming h per_id i fps2 a).
Proof.
  intros H. unfold link_incoming. destruct a.2 as [t|]; [|done].
  destruct (page_id h t) as [pid|e]; simpl; [|done].
  destruct (per_id !! pid) as [j|]; simpl; [|done].
  apply page_rel_alter; [|done].
  intros p1 p2 (Hg & Hi & Hf). split; [done|]. split; [|done]. simpl. by rewrite Hi.
Qed.

Lemma set_incoming_of_rel (h : heap) (per_id : gmap (option Z) nat) (i : nat)
    (fps1 fps2 : list FingerprintedPage) :
  Forall2 page_rel fps1 fps2 →
  result_rel (Forall2 page_rel) (set_incoming_of h per_id fps1 i)
    (set_incoming_of h per_id fps2 i).
Proof.
  intros H. unfold set_incoming_of.
  destruct (fps1 !! i) as [p1|] eqn:Hp1.
  - destruct (Forall2_lookup_l _ _ _ _ _ H Hp1) as (p2 & -> & Hg & _).
    rewrite <- Hg. destruct (h !! game_view p1) as [gv|]; [|done].
    apply foldM_result_rel; [|done]. intros s1 s2 a. apply link_incoming_rel.
  - destruct (fps2 !! i) as [p2|] eqn:Hp2; [|done].
    destruct (Forall2_lookup_r _ _ _ _ _ H Hp2) as (p1 & Hp1' & _). congruence.
Qed.

Lemma build_fingerprinted_pages_rel (h : heap) (gvs : list ref) :
  result_rel (Forall2 page_rel) (build_fingerprinted_pages render_page hash1 h gvs)
    (build_fingerprinted_pages render_page hash2 h gvs).
Proof.
  unfold build_fingerprinted_pages.
  eapply rbind_rel; [apply mapM_result_rel, new_fingerprinted_page_rel|].
  intros fps1 fps2 Hfps.
  rewrite (page_rel_game_views _ _ Hfps), (Forall2_length _ _ _ Hfps).
  destruct (index_by_page_id h (map game_view fps2) 0 ∅) as [per_id|e]; simpl; [|done].
  apply foldM_result_rel; [|done]. intros s1 s2 i. apply set_incoming_of_rel.
Qed.

Lemma refresh_incoming_rel (h : heap) (incoming : list nat)
    (fps1 fps2 : list FingerprintedPage) :
  Forall2 page_rel fps1 fps2 →
  result_rel (Forall2 page_rel) (refresh_incoming render_page hash1 h incoming fps1)
    (refresh_incoming render_page hash2 h incoming fps2).
Proof.
  revert fps1 fps2; induction incoming as [|j rest IH]; intros fps1 fps2 H; simpl; [done|].
  destruct (fps1 !! j) as [p1|] eqn:Hp1.
  - destruct (Forall2_lookup_l _ _ _ _ _ H Hp1) as (p2 & -> & Hg & Hi & _).
    rewrite <- Hg.
    eapply rbind_rel; [apply compute_fingerprint_rel|].
    intros f1 f2 Hf. apply IH. apply Forall2_insert; [done|]. by split; [|split].
  - destruct (fps2 !! j) as [p2|] eqn:Hp2; [|done].
    destruct (Forall2_lookup_r _ _ _ _ _ H Hp2) as (p1 & Hp1' & _). congruence.
Qed.

Lemma dict_rel_insert (d1 d2 : gmap Z ref) (t : list Call) (g : ref) :
  dict_rel d1 d2 → dict_rel (<[hash1 t := g]> d1) (<[hash2 t := g]> d2).
Proof using same_collisions.
  intros H t'. destruct (decide (hash1 t = hash1 t')) as [Heq|Hne].
  - pose proof (proj1 (same_collisions _ _) Heq) as Heq'.
    by rewrite Heq, Heq', !lookup_insert_eq.
  - assert (hash2 t ≠ hash2 t') by (by rewrite <- same_collisions).
    rewrite !lookup_insert_ne by done. apply H.
Qed.

Lemma visit_rel (st1 st2 : pass_state) (i : nat) :
  pass_rel st1 st2 →
  result_rel pass_rel (visit render_page hash1 st1 i) (visit render_page hash2 st2 i).
Proof using same_collisions.
  intros (Hh & Hfps & Hd & Hf). unfold visit.
  destruct (ps_pages st1 !! i) as [p1|] eqn:Hp1.
  - destruct (Forall2_lookup_l _ _ _ _ _ Hfps Hp1) as (p2 & -> & Hg & Hi & t & Ht1 & Ht2).
    rewrite Ht1, Ht2, (Hd t), <- Hh, <- Hg, <- Hi.
    destruct (gv_per_page_fingerprint st2 !! hash2 t) as [g|].
    + destruct (page_id (ps_heap st1) (game_view p1)) as [pid|e]; simpl; [|done].
      destruct (page_id (ps_heap st1) g) as [pid'|e]; simpl; [|done].
      destruct (decide (pid = pid')); [done|].
      eapply rbind_rel; [by apply refresh_incoming_rel|].
      intros fps1 fps2 H. simpl. by split; [|split; [|split]].
    + simpl. split; [done|]. split; [done|]. simpl. split; [|by rewrite Hf].
      by apply dict_rel_insert.
  - destruct (ps_pages st2 !! i) as [p2|] eqn:Hp2; [|done].
    destruct (Forall2_lookup_r _ _ _ _ _ Hfps Hp2) as (p1 & Hp1' & _). congruence.
Qed.

Lemma run_pass_rel (h : heap) (fps1 fps2 : list FingerprintedPage) (l : list nat) :
  Forall2 page_rel fps1 fps2 →
  result_rel pass_rel (run_pass render_page hash1 h fps1 l)
    (run_pass render_page hash2 h fps2 l).
Proof using same_collisions.
  intros H. unfold run_pass. apply foldM_result_rel.
  - intros s1 s2 a. apply visit_rel.
  - by split; [|split; [|split]].
Qed.

Lemma reduce_loop_rel (fuel : nat) (multipass : bool) (s1 s2 : loop_state) :
  loop_rel s1 s2 →
  result_rel loop_rel (reduce_loop render_page hash1 fuel multipass s1)
    (reduce_loop render_page hash2 fuel multipass s2).
Proof using same_collisions.
  revert s1 s2; induction fuel as [|fuel IH]; intros s1 s2 (Hh & Hfps & Hw & Hn & Ht);
    [done|].
  cbn [reduce_loop]. rewrite Hh, Hw, Hn, Ht.
  eapply rbind_rel; [by apply run_pass_rel|].
  intros st1 st2 (Hh' & Hfps' & _ & Hf'). rewrite Hf'.
  destruct (last_pass _ _).
  - simpl. by split; [|split; [|split; [|split]]].
  - apply IH. by split; [|split; [|split; [|split]]].
Qed.

Lemma unwrap_rel (fps1 fps2 : list FingerprintedPage) (i : nat) :
  Forall2 page_rel fps1 fps2 → unwrap fps1 i = unwrap fps2 i.
Proof.
  intros H. unfold unwrap.
  apply page_rel_game_views in H.
  apply (f_equal (λ l, l !! i)) in H. rewrite !list_lookup_fmap in H.
  destruct (fps1 !! i), (fps2 !! i); simpl in H; congruence.
Qed.

(** C3: for given pages and identifiers, the pages [reduce_views] returns, the
    identifiers it leaves and the percentage it reports are the same in two
    runs, also when the two runs hash with different keys, as long as the
    same lists of calls collide in both. *)
Theorem reduce_views_deterministic
    (assign_page_ids : heap → list ref → heap * list ref)
    (h : heap) (game_views : list ref) (multipass : bool) :
  reduce_views render_page hash1 assign_page_ids h game_views multipass
  = reduce_views render_page hash2 assign_page_ids h game_views multipass.
Proof using same_collisions.
  unfold reduce_views. destruct (assign_page_ids h game_views) as [h0 gvs].
  apply result_rel_eq. unfold reduce_assigned.
  eapply rbind_rel; [apply build_fingerprinted_pages_rel|].
  intros fps1 fps2 Hfps. rewrite (Forall2_length _ _ _ Hfps).
  eapply rbind_rel.
  { apply reduce_loop_rel. by split; [|split; [|split; [|split]]]. }
  intros s1 s2 (Hh & Hfps' & Hw & Hn & Ht).
  destruct (decide _); [done|].
  rewrite Hh, Hw, Hn, Ht.
  replace (mapM_result (unwrap (ls_pages s1)) (fingerprinted_pages s2))
    with (mapM_result (unwrap (ls_pages s2)) (fingerprinted_pages s2)); [by apply result_rel_eq|].
  clear -Hfps'. induction (fingerprinted_pages s2) as [|i l IH]; simpl; [done|].
  by rewrite IH, (unwrap_rel _ _ i Hfps').
Qed.

End TwoRuns.

(** ** Pages that are all different *)

Section Converged.

Context {Content Slot Call : Type}.
Variable render_page : Content → list (Slot * option Z) → list Call.
Variable hash : list Call → Z.
Variable assign_page_ids :
  list (GameView Content Slot) → list ref → list (GameView Content Slot) * list ref.

Local Abbreviation heap := (list (GameView Content Slot)).

(** With fingerprints that are all different, a pass keeps every page. *)
Lemma visits_all_kept (h : heap) (fps : list FingerprintedPage) (l : list nat) :
  NoDup (map fingerprint fps) →
  ∀ (kept : list nat) (d : gmap Z ref),
    NoDup (kept ++ l) →
    (∀ j, j ∈ l → (j < length fps)%nat) →
    (∀ f g, d !! f = Some g →
       ∃ j p, j ∈ kept ∧ fps !! j = Some p ∧ fingerprint p = f) →
    ∃ d', foldM_result (visit render_page hash) l (mkPassState h fps d kept)
          = Ok (mkPassState h fps d' (kept ++ l)).
Proof.
  intros Hnd. induction l as [|i l IH]; intros kept d Hkl Hvalid Hd; simpl.
  - exists d. by rewrite app_nil_r.
  - destruct (lookup_lt_is_Some_2 fps i) as [p Hp]; [apply Hvalid; by left|].
    unfold visit at 1. cbn [ps_pages gv_per_page_fingerprint]. rewrite Hp.
    destruct (d !! fingerprint p) as [g|] eqn:Hg.
    + exfalso. destruct (Hd _ _ Hg) as (j & p' & Hj & Hp' & Hfp).
      assert (j = i) as ->.
      { eapply NoDup_lookup; [exact Hnd| |];
          rewrite list_lookup_fmap; [rewrite Hp' | rewrite Hp]; simpl; by rewrite ?Hfp. }
      apply NoDup_app in Hkl as (_ & Hkl & _). apply (Hkl i Hj). by left.
    + cbn [rbind ps_heap ps_pages filtered_fp_pages].
      destruct (IH (kept ++ [i]) (<[fingerprint p := game_view p]> d)) as [d' Hd'].
      * by rewrite <- app_assoc.
      * intros j Hj. apply Hvalid. by right.
      * intros f g Hfg. destruct (decide (f = fingerprint p)) as [->|Hne].
        -- exists i, p. split; [apply elem_of_app; right; by left | done].
        -- rewrite lookup_insert_ne in Hfg by done.
           destruct (Hd _ _ Hfg) as (j & p' & Hj & Hp'). exists j, p'.
           split; [apply elem_of_app; by left | done].
      * exists d'. rewrite Hd'. by rewrite <- app_assoc.
Qed.

Lemma unwrap_all (fps : list FingerprintedPage) :
  mapM_result (unwrap fps) (seq 0 (length fps)) = Ok (map game_view fps).
Proof.
  assert (H : ∀ pre l, mapM_result (unwrap (pre ++ l)) (seq (length pre) (length l))
                       = Ok (map game_view l)).
  { intros pre l. revert pre. induction l as [|p l IH]; intros pre; simpl; [done|].
    unfold unwrap at 1. rewrite list_lookup_middle by done. simpl.
    specialize (IH (pre ++ [p])). rewrite <- app_assoc, length_app in IH. simpl in IH.
    rewrite Nat.add_1_r in IH. by rewrite IH. }
  apply (H [] fps).
Qed.

(** On pages whose fingerprints are all different [reduce_views] removes
    nothing: it returns the pages it was given, after one pass. *)
Lemma distinct_fingerprints_fixpoint (h : heap) (game_views : list ref)
    (multipass : bool) (fps : list FingerprintedPage) :
  build_fingerprinted_pages render_page hash
    (assign_page_ids h game_views).1 (assign_page_ids h game_views).2 = Ok fps →
  NoDup (map fingerprint fps) →
  (assign_page_ids h game_views).2 ≠ [] →
  reduce_views render_page hash assign_page_ids h game_views multipass
  = Ok (mkReduced (assign_page_ids h game_views).1 (assign_page_ids h game_views).2 0
          (0, Z.of_nat (length (assign_page_ids h game_views).2)) 1).
Proof.
  unfold reduce_views. destruct (assign_page_ids h game_views) as [h0 gvs]. cbn [fst snd].
  intros Hb Hnd Hne. unfold reduce_assigned. rewrite Hb. cbn [rbind reduce_loop].
  unfold run_pass. cbn [ls_heap ls_pages fingerprinted_pages].
  destruct (visits_all_kept h0 fps (seq 0 (length fps)) Hnd [] ∅) as [d' Hd'].
  - apply NoDup_seq.
  - intros j Hj. apply elem_of_seq in Hj. lia.
  - intros f g Hfg. by rewrite lookup_empty in Hfg.
  - rewrite Hd'. cbn [rbind filtered_fp_pages app ps_heap ps_pages].
    rewrite Z.sub_diag. cbn [last_pass Z.eqb orb].
    cbn [rbind ls_heap ls_pages fingerprinted_pages total_views_removed pass_number].
    destruct (decide _) as [H0|_]; [by destruct gvs|].
    rewrite unwrap_all. cbn [rbind].
    pose proof (build_game_views render_page hash _ _ _ Hb) as Hgv.
    rewrite Hgv. reflexivity.
Qed.

End Converged.

(** ** The reducer on the concrete game *)

Section Runs.

Import Demo.

Lemma call_code_inj (c c' : call) : call_code c = call_code c' → c = c'.
Proof. destruct c, c'; simpl; intros [=]; by subst. Qed.

Lemma trace_hash_inj (l l' : list call) : trace_hash l = trace_hash l' → l = l'.
Proof.
  unfold trace_hash. intros [= H]. apply (inj encode) in H.
  revert l' H. induction l as [|c l IH]; intros [|c' l'] H; simpl in H; try done.
  injection H as Hc Hl. f_equal; [by apply call_code_inj | by apply IH].
Qed.

Lemma four_pages_identified :
  identified (assign_in_order four_pages [0; 1; 2; 3]%nat).1
    (assign_in_order four_pages [0; 1; 2; 3]%nat).2.
Proof. apply (bool_decide_unpack _). vm_compute. exact I. Qed.



Lemma no_dangling_references_example :
  identified (assign_in_order four_pages [0; 1; 2; 3]%nat).1
    (assign_in_order four_pages [0; 1; 2; 3]%nat).2
  ∧ ∃ out,
    reduce_views draw trace_hash assign_in_order four_pages [0; 1; 2; 3]%nat true = Ok out
    ∧ ∃ q n, q ∈ out_views out
        ∧ page_id (out_heap out) 2%nat = Ok (Some n)
        ∧ page_id (out_heap out) q = Ok (Some n).
Proof.
  split; [exact four_pages_identified|].
  eexists. split; [vm_compute; reflexivity|].
  eapply (no_dangling_references draw trace_hash assign_in_order four_pages
            [0; 1; 2; 3]%nat true _ four_pages_identified)
    with (v := 1%nat) (a := (0, Some 2%nat)).
  - vm_compute. reflexivity.
  - apply list_elem_of_further, list_elem_of_here.
  - reflexivity.
  - apply list_elem_of_here.
  - reflexivity.
Defined.

Lemma reduce_views_deterministic_example :
  (∀ t t', trace_hash t = trace_hash t' ↔ trace_hash' t = trace_hash' t')
  ∧ reduce_views draw trace_hash assign_in_order four_pages [0; 1; 2; 3]%nat true
    = reduce_views draw trace_hash' assign_in_order four_pages [0; 1; 2; 3]%nat true.
Proof.
  assert (H : ∀ t t', trace_hash t = trace_hash t' ↔ trace_hash' t = trace_hash' t').
  { intros t t'. unfold trace_hash'. lia. }
  split; [exact H|].
  exact (reduce_views_deterministic draw trace_hash trace_hash' H _ _ _ _).
Defined.

Lemma same_identifier_aborts_example :
  build_fingerprinted_pages draw trace_hash twins [0; 1]%nat = Ok twins_pages
  ∧ visit draw trace_hash
      (mkPassState twins twins_pages {[trace_hash [Text 7] := 0%nat]} [0%nat]) 1%nat
    = Err AssertionError
  ∧ run_pass draw trace_hash twins twins_pages [0; 1]%nat = Err AssertionError
  ∧ reduce_loop draw trace_hash 3 true twins_state = Err AssertionError.
Proof.
  split; [vm_compute; reflexivity|].
  eapply (same_identifier_aborts draw trace_hash 2 true twins_state [0%nat] [] 1%nat).
  - reflexivity.
  - vm_compute. reflexivity.
  - reflexivity.
  - vm_compute. reflexivity.
  - vm_compute. reflexivity.
  - vm_compute. reflexivity.
Defined.

Lemma reduce_loop_stop_rule_example :
  ∃ st,
    run_pass draw trace_hash four_assigned four_fps [0; 1; 2; 3]%nat = Ok st
    ∧ Z.of_nat (length [0; 1; 2; 3]%nat) - Z.of_nat (length (filtered_fp_pages st)) = 1
    ∧ reduce_loop draw trace_hash 1 true four_state
      = Ok (mkLoopState (ps_heap st) (ps_pages st) (filtered_fp_pages st) 2 1).
Proof.
  eexists. split; [vm_compute; reflexivity|]. split; [reflexivity|].
  refine (proj1 (reduce_loop_stop_rule draw trace_hash 0 true four_state _ _) _).
  - vm_compute. reflexivity.
  - right. right. reflexivity.
Defined.

Lemma distinct_fingerprints_fixpoint_example :
  reduce_views draw trace_hash assign_in_order self_loop [0; 1]%nat true
  = Ok (mkReduced self_loop_assigned [0; 1]%nat 0 (0, 2) 1).
Proof.
  eapply (distinct_fingerprints_fixpoint draw trace_hash assign_in_order
            self_loop [0; 1]%nat true).
  - vm_compute. reflexivity.
  - apply (bool_decide_unpack _). vm_compute. exact I.
  - done.
Defined.

Lemma self_loop_is_safe_example :
  reduce_views draw trace_hash assign_in_order self_loops [0; 1; 2; 3]%nat true
    ≠ Err AssertionError
  ∧ ∃ out,
      reduce_views draw trace_hash assign_in_order self_loops [0; 1; 2; 3]%nat true = Ok out
      ∧ out_views out = [0; 1; 2]%nat
      ∧ 0%nat ∈ out_views out ∧ is_root (out_heap out) 0%nat.
Proof.
  assert (Hassigned : assigned (assign_in_order self_loops [0; 1; 2; 3]%nat).1
                        (assign_in_order self_loops [0; 1; 2; 3]%nat).2).
  { apply (bool_decide_unpack _). vm_compute. exact I. }
  destruct (self_loop_is_safe draw trace_hash assign_in_order self_loops
              [0; 1; 2; 3]%nat true
              0%nat (mkGameView 3 [(0, Some 0%nat)] (Some 1) None) 0 Hassigned)
    as [Hsafe Hsurvives].
  - apply list_elem_of_here.
  - reflexivity.
  - reflexivity.
  - split; [exact Hsafe|].
    destruct Hsurvives as (out & Hout & Hin & Hroot).
    + assert (Hall :
        Forall (λ h', Forall (λ r, r ≠ 0%nat →
            compute_fingerprint draw trace_hash h' r
            ≠ compute_fingerprint draw trace_hash
                (assign_in_order self_loops [0; 1; 2; 3]%nat).1 0%nat)
          (assign_in_order self_loops [0; 1; 2; 3]%nat).2)
        (run_heaps draw trace_hash (assign_in_order self_loops [0; 1; 2; 3]%nat).1
           (assign_in_order self_loops [0; 1; 2; 3]%nat).2 true)).
      { apply (bool_decide_unpack _). vm_compute. exact I. }
      intros r h' Hr Hne Hh'. rewrite Forall_forall in Hall.
      specialize (Hall h' Hh'). rewrite Forall_forall in Hall. by apply Hall.
    + exists out. split; [exact Hout|]. split; [|by split].
      assert (Hrun : reduce_views draw trace_hash assign_in_order self_loops
                       [0; 1; 2; 3]%nat true
                     = Ok (mkReduced (out_heap out) [0; 1; 2]%nat 1 (100, 4) 1)).
      { rewrite Hout. vm_compute in Hout. injection Hout as <-. reflexivity. }
      rewrite Hout in Hrun. by injection Hrun as ->.
Defined.

Lemma reduce_views_frame_example :
  ∃ out,
    reduce_views draw trace_hash assign_in_order four_pages [0; 1; 2; 3]%nat true = Ok out
    ∧ Forall2 unchanged_but_identifier four_pages (out_heap out)
    ∧ Forall2 redirected_only four_assigned (out_heap out)
    ∧ out_views out ⊆ [0; 1; 2; 3]%nat.
Proof.
  eexists. split; [vm_compute; reflexivity|].
  eapply (reduce_views_frame draw trace_hash assign_in_order four_pages
            [0; 1; 2; 3]%nat true).
  - repeat constructor.
  - vm_compute. reflexivity.
Defined.

Lemma reduce_views_empty_example :
  (assign_in_order four_pages []).2 = []
  ∧ reduce_views draw trace_hash assign_in_order four_pages [] true
    = Err ZeroDivisionError.
Proof.
  split; [reflexivity|].
  exact (reduce_views_empty draw trace_hash assign_in_order four_pages true eq_refl).
Defined.

End Runs.

(** ** What a run returns *)

Section Returned.

Context {Content Slot Call : Type}.
Variable render_page : Content → list (Slot * option Z) → list Call.
Variable hash : list Call → Z.
Variable assign_page_ids :
  list (GameView Content Slot) → list ref → list (GameView Content Slot) * list ref.

Local Abbreviation heap := (list (GameView Content Slot)).
Local Abbreviation compute_fingerprint := (compute_fingerprint render_page hash).
Local Abbreviation build_fingerprinted_pages := (build_fingerprinted_pages render_page hash).
Local Abbreviation visit := (visit render_page hash).
Local Abbreviation run_pass := (run_pass render_page hash).
Local Abbreviation reduce_loop := (reduce_loop render_page hash).
Local Abbreviation reduce_assigned := (reduce_assigned render_page hash).
Local Abbreviation reduce_views := (reduce_views render_page hash assign_page_ids).

(** *** The pages that are counted as removed *)

Lemma reduce_loop_total (fuel : nat) (multipass : bool) (s s' : loop_state) :
  reduce_loop fuel multipass s = Ok s' →
  total_views_removed s' + Z.of_nat (length (fingerprinted_pages s'))
  = total_views_removed s + Z.of_nat (length (fingerprinted_pages s)).
Proof.
  revert s; induction fuel as [|fuel IH]; intros s H; [done|].
  cbn [Reducer.reduce_loop] in H. apply rbind_ok in H as (st & Hpass & H).
  destruct (last_pass _ _).
  - injection H as <-. cbn [total_views_removed fingerprinted_pages]. lia.
  - apply IH in H. cbn [total_views_removed fingerprinted_pages] in H. lia.
Qed.

(** The first page of a pass is kept: the dict is empty when it is visited. *)
Lemma run_pass_head (h : heap) (fps : list FingerprintedPage) (l : list nat)
    (st : pass_state) :
  run_pass h fps l = Ok st → head (filtered_fp_pages st) = head l.
Proof.
  destruct l as [|i l]; intros H.
  - unfold Reducer.run_pass in H. simpl in H. by injection H as <-.
  - unfold Reducer.run_pass in H. cbn [foldM_result] in H.
    apply rbind_ok in H as (st1 & Hv & H).
    unfold Reducer.visit in Hv. cbn [ps_pages gv_per_page_fingerprint] in Hv.
    destruct (fps !! i) as [p|]; [|done]. rewrite lookup_empty in Hv.
    injection Hv as <-.
    apply (visits_filtered render_page hash) in H as [_ (kept & -> & _)]. done.
Qed.

Lemma reduce_loop_head (fuel : nat) (multipass : bool) (s s' : loop_state) :
  reduce_loop fuel multipass s = Ok s' →
  head (fingerprinted_pages s') = head (fingerprinted_pages s).
Proof.
  apply (reduce_loop_inv render_page hash
           (λ _ _ l, head l = head (fingerprinted_pages s))); [|done].
  intros h fps l st Hl Hpass. apply run_pass_head in Hpass. congruence.
Qed.

Lemma Forall2_impl_elem {A B} (P Q : A → B → Prop) (l : list A) (k : list B) :
  Forall2 P l k → (∀ x y, x ∈ l → P x y → Q x y) → Forall2 Q l k.
Proof.
  induction 1 as [|x y l k Hxy _ IH]; intros HPQ; constructor.
  - apply HPQ; [by left | done].
  - apply IH. intros x' y' Hx'. apply HPQ. by right.
Qed.

(** Pages taken at increasing positions of a list are a sublist of it. *)
Lemma lookups_sublist {A} (gvs : list A) (a : nat) (positions : list nat)
    (views : list A) :
  positions `sublist_of` seq a (length gvs) →
  Forall2 (λ i v, gvs !! (i - a)%nat = Some v) positions views →
  views `sublist_of` gvs.
Proof.
  revert a positions views. induction gvs as [|g gvs IH]; intros a positions views Hsub Hv.
  - simpl in Hsub. apply sublist_nil_r in Hsub as ->.
    apply Forall2_nil_inv_l in Hv as ->. done.
  - cbn [length seq] in Hsub.
    assert (Hshift : ∀ l vs, l `sublist_of` seq (S a) (length gvs) →
              Forall2 (λ i v, (g :: gvs) !! (i - a)%nat = Some v) l vs →
              vs `sublist_of` gvs).
    { intros l vs Hl Hlv. apply (IH (S a) l vs Hl).
      eapply Forall2_impl_elem; [exact Hlv|]. intros i v Hi Hiv. simpl in Hiv.
      apply (sublist_subseteq _ _ Hl), elem_of_seq in Hi.
      replace (i - a)%nat with (S (i - S a)) in Hiv by lia. done. }
    apply sublist_cons_r in Hsub as [Hsub|(rest & -> & Hsub)].
    + apply sublist_cons. by eapply Hshift.
    + apply Forall2_cons_inv_l in Hv as (v & vs & Hv & Hvs & ->).
      rewrite Nat.sub_diag in Hv. injection Hv as ->.
      apply sublist_skip. by eapply Hshift.
Qed.

Lemma reduce_assigned_in_order (h0 : heap) (gvs : list ref) (multipass : bool)
    (out : reduced) :
  reduce_assigned h0 gvs multipass = Ok out →
  out_views out `sublist_of` gvs ∧ head (out_views out) = head gvs.
Proof.
  intros H.
  apply (reduce_assigned_ok render_page hash) in H
    as (fps & s & Hb & Hloop & Hne & _ & Hviews & _).
  pose proof (reduce_loop_unchanged render_page hash _ _ _ _ Hloop) as (_ & _ & _ & Hsub).
  pose proof (reduce_loop_head _ _ _ _ Hloop) as Hhead.
  cbn [fingerprinted_pages] in Hsub, Hhead. split.
  - eapply (lookups_sublist gvs 0); [exact Hsub|].
    eapply Forall2_impl; [exact Hviews|]. intros i v Hiv. by rewrite Nat.sub_0_r.
  - destruct gvs as [|g gvs]; [done|]. simpl in Hhead.
    destruct (fingerprinted_pages s) as [|i l]; [done|].
    injection Hhead as ->.
    apply Forall2_cons_inv_l in Hviews as (v & vs & Hv & _ & ->).
    simpl in Hv. by injection Hv as ->.
Qed.

(** X1: the pages [reduce_views] returns are pages of the list it was given,
    in the order of that list, and the first page of the list is always the
    first page returned. *)
Theorem returned_pages_in_order (h : heap) (game_views : list ref) (multipass : bool)
    (out : reduced) :
  reduce_views h game_views multipass = Ok out →
  out_views out `sublist_of` (assign_page_ids h game_views).2
  ∧ head (out_views out) = head (assign_page_ids h game_views).2
  ∧ out_views out ≠ [].
Proof.
  unfold Reducer.reduce_views.
  destruct (assign_page_ids h game_views) as [h0 gvs]. cbn [snd].
  intros H. destruct (reduce_assigned_in_order _ _ _ _ H) as [Hsub Hfirst].
  split; [done|]. split; [done|].
  apply (reduce_assigned_ok render_page hash) in H as (_ & _ & _ & _ & Hne & _).
  intros Hnil. rewrite Hnil in Hfirst. by destruct gvs.
Qed.

(** X2: the number of removed pages that a run reports is the number of pages
    of the list minus the number of pages returned; it is never the whole
    list, so that the percentage stays below 100. *)
Theorem removed_count (h : heap) (game_views : list ref) (multipass : bool)
    (out : reduced) :
  reduce_views h game_views multipass = Ok out →
  out_removed out
  = Z.of_nat (length (assign_page_ids h game_views).2)
    - Z.of_nat (length (out_views out))
  ∧ out_percent out
    = (100 * out_removed out, Z.of_nat (length (assign_page_ids h game_views).2))
  ∧ 0 ≤ out_removed out < Z.of_nat (length (assign_page_ids h game_views).2).
Proof.
  unfold Reducer.reduce_views.
  destruct (assign_page_ids h game_views) as [h0 gvs]. cbn [snd].
  intros H.
  apply (reduce_assigned_ok render_page hash) in H
    as (fps & s & Hb & Hloop & Hne & _ & Hviews & -> & ->).
  pose proof (reduce_loop_unchanged render_page hash _ _ _ _ Hloop) as (_ & _ & _ & Hsub).
  pose proof (reduce_loop_head _ _ _ _ Hloop) as Hhead.
  pose proof (reduce_loop_total _ _ _ _ Hloop) as Htotal.
  cbn [fingerprinted_pages total_views_removed] in Hsub, Hhead, Htotal.
  apply sublist_length in Hsub. rewrite length_seq in Hsub, Htotal.
  rewrite <- (Forall2_length _ _ _ Hviews).
  assert (length (fingerprinted_pages s) ≠ 0)%nat.
  { destruct gvs as [|g gvs]; [done|]. simpl in Hhead.
    by destruct (fingerprinted_pages s). }
  split; [lia|]. split; [done|]. lia.
Qed.

(** X3: after a run on pages with their identifiers, the returned pages have
    the identifiers they were given, no two the same, and every page of the
    list has the identifier of a returned page. *)
Theorem identifiers_after_run (h : heap) (game_views : list ref) (multipass : bool)
    (out : reduced) :
  assigned (assign_page_ids h game_views).1 (assign_page_ids h game_views).2 →
  reduce_views h game_views multipass = Ok out →
  (∀ v, v ∈ out_views out →
     page_id (out_heap out) v = page_id (assign_page_ids h game_views).1 v)
  ∧ NoDup (page_id (out_heap out) <$> out_views out)
  ∧ (∀ r, r ∈ (assign_page_ids h game_views).2 →
       ∃ q n, q ∈ out_views out
         ∧ page_id (out_heap out) r = Ok (Some n)
         ∧ page_id (out_heap out) q = Ok (Some n)).
Proof.
  unfold Reducer.reduce_views.
  destruct (assign_page_ids h game_views) as [h0 gvs]. cbn [fst snd].
  intros Hassigned H. destruct (reduce_assigned_in_order _ _ _ _ H) as (Hsub & _).
  apply (reduce_assigned_ok render_page hash) in H
    as (fps & s & Hb & Hloop & _ & Hheap & Hviews & _).
  rewrite Hheap.
  eapply (reduce_loop_alive_inv render_page hash h0 gvs) in Hloop as [Halive _];
    [|done|by apply alive_inv_init|by apply (build_game_views render_page hash) in Hb].
  pose proof Halive as (Hfr & _ & Hroots & _).
  assert (Hkept : ∀ v, v ∈ out_views out →
            ∃ gv0, v ∈ gvs ∧ h0 !! v = Some gv0
              ∧ page_id h0 v = Ok (own_page_id gv0)
              ∧ page_id (ls_heap s) v = Ok (own_page_id gv0)).
  { intros v Hv. apply list_elem_of_lookup in Hv as [k Hk].
    destruct (Forall2_lookup_r _ _ _ _ _ Hviews Hk) as (j & Hj & Hjv).
    destruct (Hroots j) as (r & Hr & Hroot); [by eapply list_elem_of_lookup_2|].
    assert (r = v) as -> by congruence.
    assert (Hin : v ∈ gvs) by by eapply list_elem_of_lookup_2.
    destruct (is_root_page_id _ _ Hroot) as (gv & Hgv & Hpid).
    destruct (redirected_only_lookup _ _ _ _ Hfr Hgv) as (gv0 & Hgv0 & _ & _ & Hid).
    destruct (assigned_page _ _ _ Hassigned Hin) as (gv0' & n & Hgv0' & Ha & _).
    assert (gv0' = gv0) as -> by congruence.
    destruct (is_root_page_id h0 v) as (gv0' & Hgv0'' & Hpid0); [by exists gv0|].
    assert (gv0' = gv0) as -> by congruence.
    exists gv0. repeat (split; [done|]). by rewrite Hpid, Hid. }
  split; [|split].
  - intros v Hv. destruct (Hkept v Hv) as (gv0 & _ & _ & -> & ->). done.
  - apply NoDup_fmap_2_strong.
    + intros v v' Hv Hv' Heq.
      destruct (Hkept v Hv) as (gv0 & Hin & Hgv0 & _ & Hp).
      destruct (Hkept v' Hv') as (gv0' & Hin' & Hgv0' & _ & Hp').
      eapply (assigned_unique h0 gvs); [done|exact Hin|exact Hin'|exact Hgv0|exact Hgv0'|].
      congruence.
    + eapply sublist_NoDup; [by eapply assigned_NoDup | exact Hsub].
  - intros r Hr.
    destruct (alive_inv_page_id _ _ _ _ _ Hassigned Halive Hr)
      as (j & q & n & Hj & Hjq & Hpid & Hpid').
    exists q, n. split; [|done].
    apply list_elem_of_lookup in Hj as [k Hk].
    destruct (Forall2_lookup_l _ _ _ _ _ Hviews Hk) as (q' & Hq' & Hjq').
    assert (q' = q) as -> by congruence.
    by eapply list_elem_of_lookup_2.
Qed.

End Returned.

(** ** What [build_fingerprinted_pages] builds *)

Lemma foldM_result_prefix {A S} (f : S → A → result S) (P : list A → S → Prop)
    (l0 : list A) :
  (∀ pre a post s s', l0 = pre ++ a :: post → P pre s → f s a = Ok s' →
     P (pre ++ [a]) s') →
  ∀ l pre s s', l0 = pre ++ l → P pre s → foldM_result f l s = Ok s' → P l0 s'.
Proof.
  intros Hstep. induction l as [|a l IH]; intros pre s s' Hl Hs H; simpl in H.
  - injection H as <-. by rewrite Hl, app_nil_r.
  - apply rbind_ok in H as (s1 & Ha & H).
    eapply (IH (pre ++ [a])); [by rewrite <- app_assoc| |exact H].
    by eapply Hstep.
Qed.

Lemma foldM_result_error_inv {A S} (f : S → A → result S) (P : S → Prop)
    (Q : error → Prop) (l : list A) :
  (∀ s a s', P s → f s a = Ok s' → P s') →
  (∀ s a e, a ∈ l → P s → f s a = Err e → Q e) →
  ∀ s e, P s → foldM_result f l s = Err e → Q e.
Proof.
  intros Hok. induction l as [|a l IH]; intros Herr s e Hs H; simpl in H; [done|].
  apply rbind_err in H as [H|(s1 & Ha & H)].
  - eapply Herr; [by left|exact Hs|exact H].
  - eapply IH; [|by eapply Hok|exact H].
    intros s2 a' e' Ha'. apply Herr. by right.
Qed.

Section Built.

Context {Content Slot Call : Type}.
Variable render_page : Content → list (Slot * option Z) → list Call.
Variable hash : list Call → Z.

Local Abbreviation heap := (list (GameView Content Slot)).
Local Abbreviation compute_fingerprint := (compute_fingerprint render_page hash).
Local Abbreviation new_fingerprinted_page := (new_fingerprinted_page render_page hash).
Local Abbreviation build_fingerprinted_pages := (build_fingerprinted_pages render_page hash).

(** X4: [build_fingerprinted_pages] returns one wrapper per page of the list,
    in the order of the list, each with the fingerprint its page has when the
    wrappers are built. *)
Theorem build_wraps_every_page (h : heap) (gvs : list ref)
    (fps : list FingerprintedPage) :
  build_fingerprinted_pages h gvs = Ok fps →
  length fps = length gvs
  ∧ ∀ i r, gvs !! i = Some r →
      ∃ p, fps !! i = Some p ∧ game_view p = r
        ∧ compute_fingerprint h r = Ok (fingerprint p).
Proof.
  intros H. apply (build_fingerprinted_pages_wrap render_page hash) in H.
  split; [symmetry; by eapply Forall2_length|].
  intros i r Hi. destruct (Forall2_lookup_l _ _ _ _ _ H Hi) as (p & Hp & Hg & Hf).
  by exists p.
Qed.

(** Identifiers that no later page of the list has stay where the dict
    comprehension put them. *)
Lemma index_by_page_id_other (h : heap) (l : list ref) (i : nat)
    (m m' : gmap (option Z) nat) (pid : option Z) :
  index_by_page_id h l i m = Ok m' →
  (∀ r, r ∈ l → page_id h r ≠ Ok pid) → m' !! pid = m !! pid.
Proof.
  revert i m; induction l as [|r l IH]; intros i m H Hl; simpl in H.
  - by injection H as ->.
  - apply rbind_ok in H as (pid' & Hpid' & H).
    rewrite (IH _ _ H); [|intros r' Hr'; apply Hl; by right].
    apply lookup_insert_ne. intros ->. by apply (Hl r); [left|].
Qed.

(** With identifiers that are all different, the dict of line 65 leads from
    the identifier of a page to the position of the page. *)
Lemma index_by_page_id_lookup (h : heap) (l : list ref) (i : nat)
    (m m' : gmap (option Z) nat) :
  index_by_page_id h l i m = Ok m' →
  (∀ a b ra rb, l !! a = Some ra → l !! b = Some rb →
     page_id h ra = page_id h rb → a = b) →
  ∀ k r pid, l !! k = Some r → page_id h r = Ok pid → m' !! pid = Some (i + k)%nat.
Proof.
  revert i m; induction l as [|r0 l IH]; intros i m H Hinj k r pid Hk Hpid; [done|].
  simpl in H. apply rbind_ok in H as (pid0 & Hpid0 & H).
  destruct k as [|k]; simpl in Hk.
  - injection Hk as ->. assert (pid0 = pid) as -> by congruence.
    rewrite (index_by_page_id_other _ _ _ _ _ pid H).
    + rewrite lookup_insert_eq. f_equal. lia.
    + intros r' Hr' Hr'pid. apply list_elem_of_lookup in Hr' as [b Hb].
      specialize (Hinj 0%nat (S b) r r' eq_refl Hb). rewrite Hpid, Hr'pid in Hinj.
      by specialize (Hinj eq_refl).
  - rewrite (IH _ _ H) with (k := k) (r := r); [f_equal; lia| |done|done].
    intros a b ra rb Ha Hb Hab. by specialize (Hinj (S a) (S b) ra rb Ha Hb Hab) as [= ->].
Qed.

(** *** The pages that lead to a page *)

Lemma new_fingerprinted_pages_incoming (h : heap) (gvs : list ref)
    (fps : list FingerprintedPage) :
  mapM_result (new_fingerprinted_page h) gvs = Ok fps →
  Forall (λ p, incoming_pages p = []) fps.
Proof.
  revert fps; induction gvs as [|r l IH]; intros fps H; simpl in H; inv_ok; [constructor|].
  unfold Reducer.new_fingerprinted_page in Ha. inv_ok.
  constructor; [done | by apply IH].
Qed.

(** X5: with unique identifiers, the [incoming_pages] of a wrapper are the
    positions of the pages that have an action slot leading to its page. *)
Theorem incoming_pages_lead_in (h : heap) (gvs : list ref)
    (fps : list FingerprintedPage) :
  identified h gvs → build_fingerprinted_pages h gvs = Ok fps →
  ∀ k p j, fps !! k = Some p →
    (j ∈ incoming_pages p ↔ ∃ r, gvs !! j = Some r ∧ game_view p ∈ targets_of h r).
Proof.
  intros Hidentified Hb.
  pose proof (identified_assigned render_page hash _ _ _ Hidentified Hb) as Hassigned.
  pose proof (assigned_NoDup _ _ Hassigned) as Hnd.
  pose proof (alive_inv_init _ _ Hassigned) as Halive.
  assert (Hpid : ∀ r, r ∈ gvs → ∃ gv, h !! r = Some gv ∧ page_id h r = Ok (own_page_id gv)).
  { intros r Hr. destruct (assigned_page _ _ _ Hassigned Hr) as (gv & n & Hgv & Ha & _).
    apply is_root_page_id. by exists gv. }
  assert (Hinj : ∀ a b ra rb, gvs !! a = Some ra → gvs !! b = Some rb →
            page_id h ra = page_id h rb → a = b).
  { intros a b ra rb Ha Hb' Heq.
    destruct (Hpid ra) as (gva & Hgva & Hpa); [by eapply list_elem_of_lookup_2|].
    destruct (Hpid rb) as (gvb & Hgvb & Hpb); [by eapply list_elem_of_lookup_2|].
    assert (ra = rb) as ->.
    { eapply (assigned_unique h gvs); [done| | |exact Hgva|exact Hgvb|congruence];
        by eapply list_elem_of_lookup_2. }
    by eapply NoDup_lookup. }
  unfold Reducer.build_fingerprinted_pages in Hb.
  apply rbind_ok in Hb as (fps0 & Hfps0 & Hb).
  apply rbind_ok in Hb as (per_id & Hper & Hb).
  pose proof (new_fingerprinted_pages_incoming _ _ _ Hfps0) as Hempty.
  apply (new_fingerprinted_pages_wrap render_page hash) in Hfps0.
  assert (Hgv0 : map game_view fps0 = gvs).
  { clear -Hfps0. induction Hfps0 as [|? ? ? ? [Hp _] _ IH]; simpl; congruence. }
  rewrite Hgv0 in Hper.
  pose (leads := λ (j : nat) (t : ref), ∃ r, gvs !! j = Some r ∧ t ∈ targets_of h r).
  pose (P := λ (done : list nat) (s : list FingerprintedPage),
          Forall2 (wraps render_page hash h) gvs s
          ∧ ∀ k p, s !! k = Some p →
              ∀ j, j ∈ incoming_pages p ↔ j ∈ done ∧ leads j (game_view p)).
  assert (Houter : ∀ done i post s s',
            seq 0 (length fps0) = done ++ i :: post → P done s →
            set_incoming_of h per_id s i = Ok s' → P (done ++ [i]) s').
  { (* one page of the outer loop *)
    intros done i post s s' _ [Hw Hinc] Hstep. unfold set_incoming_of in Hstep.
    destruct (s !! i) as [pi|] eqn:Hpi; [|done].
    destruct (Forall2_lookup_r _ _ _ _ _ Hw Hpi) as (ri & Hri & Hgi & _).
    rewrite Hgi in Hstep.
    destruct (h !! ri) as [gv|] eqn:Hgv; [|done].
    pose (Pin := λ (acts : list (Slot * option ref)) (s1 : list FingerprintedPage),
            Forall2 (wraps render_page hash h) gvs s1
            ∧ ∀ k p, s1 !! k = Some p →
                ∀ j, j ∈ incoming_pages p ↔
                  (j ∈ done ∧ leads j (game_view p))
                  ∨ (j = i ∧ ∃ a, a ∈ acts ∧ a.2 = Some (game_view p))).
    assert (Hinner : ∀ acts a post' s1 s2,
              actions gv = acts ++ a :: post' → Pin acts s1 →
              link_incoming h per_id i s1 a = Ok s2 → Pin (acts ++ [a]) s2).
    { (* one action slot of the inner loop *)
      intros acts a post' s1 s2 Hacts [Hw1 Hinc1] Hlink. unfold link_incoming in Hlink.
      destruct a.2 as [t|] eqn:Hat.
      2:{ injection Hlink as <-. split; [done|]. intros k p Hp j.
          rewrite (Hinc1 k p Hp j). split; (intros [H|[Hj (a' & Ha' & Ht')]]; [by left|]).
          - right. split; [done|]. exists a'. split; [|done]. apply elem_of_app. by left.
          - right. split; [done|]. exists a'. split; [|done].
            apply elem_of_app in Ha' as [Ha'|Ha']; [done|].
            apply list_elem_of_singleton in Ha' as ->. congruence. }
      apply rbind_ok in Hlink as (pid & Hpidt & Hlink).
      destruct (per_id !! pid) as [k0|] eqn:Hk0; [|done]. injection Hlink as <-.
      assert (Htin : t ∈ gvs).
      { destruct (assigned_page _ _ ri Hassigned) as (gv' & n & Hgv' & _ & _ & Ht).
        { by eapply list_elem_of_lookup_2. }
        assert (gv' = gv) as -> by congruence.
        apply (Ht a); [|done]. rewrite Hacts. apply elem_of_app. right. by left. }
      apply list_elem_of_lookup in Htin as [kt Hkt].
      pose proof (index_by_page_id_lookup _ _ _ _ _ Hper Hinj kt t pid Hkt Hpidt) as Hkt'.
      simpl in Hkt'. assert (k0 = kt) as -> by congruence.
      split; [by apply wraps_add_incoming|].
      intros k p' Hp' j.
      destruct (decide (k = kt)) as [->|Hne].
      - rewrite list_lookup_alter_eq in Hp'.
        destruct (s1 !! kt) as [p|] eqn:Hp; [|done]. injection Hp' as <-.
        destruct (Forall2_lookup_r _ _ _ _ _ Hw1 Hp) as (r' & Hr' & Hgp & _).
        assert (r' = t) as -> by congruence.
        cbn [add_incoming incoming_pages game_view].
        rewrite elem_of_app, list_elem_of_singleton, (Hinc1 kt p Hp j), Hgp.
        split.
        + intros [[H|[Hj (a' & Ha' & Ht')]]|Hj]; [by left| |].
          * right. split; [done|]. exists a'. split; [|done]. apply elem_of_app. by left.
          * right. split; [done|]. exists a. split; [|done].
            apply elem_of_app. right. by left.
        + intros [H|[Hj (a' & Ha' & Ht')]]; [by left; left|].
          apply elem_of_app in Ha' as [Ha'|Ha']; [|by right].
          left. right. split; [done|]. by exists a'.
      - rewrite list_lookup_alter_ne in Hp' by done.
        rewrite (Hinc1 k p' Hp' j).
        destruct (Forall2_lookup_r _ _ _ _ _ Hw1 Hp') as (r' & Hr' & Hgp & _).
        split; (intros [H|[Hj (a' & Ha' & Ht')]]; [by left|]).
        + right. split; [done|]. exists a'. split; [|done]. apply elem_of_app. by left.
        + right. split; [done|]. exists a'. split; [|done].
          apply elem_of_app in Ha' as [Ha'|Ha']; [done|].
          apply list_elem_of_singleton in Ha' as ->. exfalso. apply Hne.
          eapply NoDup_lookup; [exact Hnd|exact Hr'|]. congruence. }
    assert (HPin : Pin (actions gv) s').
    { eapply (foldM_result_prefix _ Pin (actions gv) Hinner (actions gv) [] s s' eq_refl);
        [|exact Hstep].
      split; [done|]. intros k p Hp j. rewrite (Hinc k p Hp j).
      split; [by left|]. intros [H|[_ (a & Ha%elem_of_nil & _)]]; done. }
    destruct HPin as [Hw' HPin]. split; [done|].
    intros k p Hp j. rewrite (HPin k p Hp j), elem_of_app, list_elem_of_singleton.
    assert (Hiff : (∃ a, a ∈ actions gv ∧ a.2 = Some (game_view p)) ↔ leads i (game_view p)).
    { unfold leads, targets_of. split.
      - intros (a & Ha & Ht). exists ri. split; [done|]. rewrite Hgv.
        apply list_elem_of_omap. by exists a.
      - intros (r & Hr & Ht). assert (r = ri) as -> by congruence.
        rewrite Hgv in Ht. by apply list_elem_of_omap in Ht. }
    split.
    - intros [[Hd Hl]|[-> Ha]]; [tauto|]. apply Hiff in Ha. tauto.
    - intros [[Hd| ->] Hl]; [tauto|]. right. split; [done|]. by apply Hiff. }
  assert (HP : P (seq 0 (length fps0)) fps).
  { eapply (foldM_result_prefix _ P (seq 0 (length fps0)) Houter
              (seq 0 (length fps0)) [] fps0 fps eq_refl); [|exact Hb].
    split; [done|]. intros k p Hp j. rewrite Forall_forall in Hempty.
    rewrite (Hempty p); [|by eapply list_elem_of_lookup_2].
    split; [by intros ?%elem_of_nil | by intros [?%elem_of_nil _]]. }
  destruct HP as [_ HP]. intros k p j Hp. rewrite (HP k p Hp j).
  fold (leads j (game_view p)). split; [tauto|]. intros Hl. split; [|done].
  destruct Hl as (r & Hr & _). apply elem_of_seq.
  rewrite <- (Forall2_length _ _ _ Hfps0). apply lookup_lt_Some in Hr. lia.
Qed.

(** *** A page that is not in the list *)

(** When the wrappers are built, every action slot of a page of the list leads
    to a page that has the identifier of a page of the list. *)
Lemma build_targets_indexed (h : heap) (gvs : list ref) (fps : list FingerprintedPage)
    (r t : ref) :
  build_fingerprinted_pages h gvs = Ok fps → r ∈ gvs → t ∈ targets_of h r →
  ∃ r' pid, r' ∈ gvs ∧ page_id h t = Ok pid ∧ page_id h r' = Ok pid.
Proof.
  intros Hb Hr Ht.
  unfold targets_of in Ht. destruct (h !! r) as [gv|] eqn:Hgv; [|by apply elem_of_nil in Ht].
  apply list_elem_of_omap in Ht as (a & Ha & Hat).
  unfold Reducer.build_fingerprinted_pages in Hb.
  apply rbind_ok in Hb as (fps0 & Hfps0 & Hb).
  apply rbind_ok in Hb as (per_id & Hper & Hb).
  apply (new_fingerprinted_pages_wrap render_page hash) in Hfps0.
  assert (Hgv0 : map game_view fps0 = gvs).
  { clear -Hfps0. induction Hfps0 as [|? ? ? ? [Hp _] _ IH]; simpl; congruence. }
  rewrite Hgv0 in Hper.
  apply list_elem_of_lookup in Hr as [i Hi].
  destruct (foldM_result_steps _ (Forall2 (wraps render_page hash h) gvs) _
              (λ s i' s' Hs Hstep,
                 set_incoming_of_wraps render_page hash _ _ _ _ _ _ Hs Hstep)
              _ _ Hfps0 Hb i)
    as (s1 & s2 & Hs1 & Hstep).
  { apply elem_of_seq. rewrite <- (Forall2_length _ _ _ Hfps0).
    apply lookup_lt_Some in Hi. lia. }
  unfold set_incoming_of in Hstep.
  destruct (Forall2_lookup_l _ _ _ _ _ Hs1 Hi) as (p & Hp & Hpr & _).
  rewrite Hp, Hpr, Hgv in Hstep.
  destruct (foldM_result_steps _ (λ _, True) _ (λ _ _ _ _ _, I) _ _ I Hstep a Ha)
    as (s3 & s4 & _ & Hlink).
  unfold link_incoming in Hlink. cbn in Hat. rewrite Hat in Hlink.
  apply rbind_ok in Hlink as (pid & Hpid & Hlink).
  destruct (per_id !! pid) as [j|] eqn:Hj; [|done].
  destruct (index_by_page_id_keys _ _ _ _ _ _ _ Hper Hj) as [Hempty|(r' & Hr' & Hpid')].
  { by rewrite lookup_empty in Hempty. }
  by exists r', pid.
Qed.

(** With identifiers on all the pages in play, the only exception of
    [build_fingerprinted_pages] is the failed subscript of line 69. *)
Lemma build_only_key_error (h : heap) (gvs : list ref) (e : error) :
  Forall (has_own_identifier h) (pages_in_play h gvs) →
  build_fingerprinted_pages h gvs = Err e → e = KeyError.
Proof.
  intros Hown H. rewrite Forall_forall in Hown.
  assert (Hlisted : ∀ r, r ∈ gvs → ∃ gv n, h !! r = Some gv ∧ page_id h r = Ok (Some n)).
  { intros r Hr.
    destruct (has_own_identifier_page_id h r) as (n & Hn & Hp).
    { apply Hown, elem_of_app. by left. }
    destruct (h !! r) as [gv|]; [|done]. by exists gv, n. }
  assert (Htarget : ∀ r gv a t, r ∈ gvs → h !! r = Some gv → a ∈ actions gv →
            a.2 = Some t → ∃ n, page_id h t = Ok (Some n)).
  { intros r gv a t Hr Hgv Ha Hat.
    destruct (has_own_identifier_page_id h t) as (n & _ & Hp); [|by exists n].
    apply Hown, elem_of_app. right. apply list_elem_of_bind. exists r. split; [|done].
    unfold targets_of. rewrite Hgv. apply list_elem_of_omap. by exists a. }
  unfold Reducer.build_fingerprinted_pages in H.
  destruct (mapM_result_ok (new_fingerprinted_page h) gvs) as [fps0 Hfps0].
  { intros r Hr. destruct (Hlisted r Hr) as (gv & n & Hgv & _).
    unfold Reducer.new_fingerprinted_page, Reducer.compute_fingerprint, render_trace.
    rewrite Hgv.
    destruct (mapM_result_ok (resolve_link h) (actions gv)) as [links ->]; [|simpl; eauto].
    intros a Ha. unfold resolve_link. destruct a.2 as [t|] eqn:Hat; [|eauto].
    destruct (Htarget r gv a t Hr Hgv Ha Hat) as [n' ->]. simpl. eauto. }
  rewrite Hfps0 in H. cbn [rbind] in H.
  apply (new_fingerprinted_pages_wrap render_page hash) in Hfps0.
  assert (Hgv0 : map game_view fps0 = gvs).
  { clear -Hfps0. induction Hfps0 as [|? ? ? ? [Hp _] _ IH]; simpl; congruence. }
  rewrite Hgv0 in H.
  destruct (index_by_page_id_ok h gvs 0 ∅) as (per_id & Hper & _).
  { intros r Hr. destruct (Hlisted r Hr) as (_ & n & _ & Hp). eauto. }
  rewrite Hper in H. cbn [rbind] in H.
  eapply (foldM_result_error_inv _ (Forall2 (wraps render_page hash h) gvs)
            (λ e, e = KeyError)); [| |exact Hfps0|exact H].
  - intros s i s' Hs Hstep. by eapply set_incoming_of_wraps.
  - intros s i e' Hi Hs Hstep. unfold set_incoming_of in Hstep.
    apply elem_of_seq in Hi. rewrite <- (Forall2_length _ _ _ Hfps0) in Hi.
    destruct (lookup_lt_is_Some_2 gvs i) as [r Hr]; [lia|].
    destruct (Forall2_lookup_l _ _ _ _ _ Hs Hr) as (p & Hp & Hpr & _).
    assert (Hrin : r ∈ gvs) by by eapply list_elem_of_lookup_2.
    destruct (Hlisted r Hrin) as (gv & n & Hgv & _).
    rewrite Hp, Hpr, Hgv in Hstep.
    eapply (foldM_result_error_inv _ (λ _, True) (λ e, e = KeyError));
      [done| |done|exact Hstep].
    intros s1 a e'' Ha _ Hlink. unfold link_incoming in Hlink.
    destruct a.2 as [t|] eqn:Hat; [|done].
    destruct (Htarget r gv a t Hrin Hgv Ha Hat) as [n' Hn']. rewrite Hn' in Hlink.
    cbn [rbind] in Hlink. destruct (per_id !! Some n'); [done|]. by injection Hlink as <-.
Qed.

(** X6: when all the pages in play have identifiers and an action slot of a
    page of the list leads to a page whose identifier no page of the list
    has, [build_fingerprinted_pages] ends on [KeyError]. *)
Theorem build_missing_target (h : heap) (gvs : list ref) (r t : ref) :
  Forall (has_own_identifier h) (pages_in_play h gvs) →
  r ∈ gvs → t ∈ targets_of h r →
  (∀ r', r' ∈ gvs → page_id h r' ≠ page_id h t) →
  build_fingerprinted_pages h gvs = Err KeyError.
Proof.
  intros Hown Hr Ht Hmissing.
  destruct (build_fingerprinted_pages h gvs) as [fps|e] eqn:Hb.
  - destruct (build_targets_indexed _ _ _ _ _ Hb Hr Ht) as (r' & pid & Hr' & Hpt & Hpr').
    exfalso. apply (Hmissing r' Hr'). congruence.
  - f_equal. by eapply build_only_key_error.
Qed.

End Built.

(** ** One pass or several *)

Section Passes.

Context {Content Slot Call : Type}.
Variable render_page : Content → list (Slot * option Z) → list Call.
Variable hash : list Call → Z.
Variable assign_page_ids :
  list (GameView Content Slot) → list ref → list (GameView Content Slot) * list ref.

Local Abbreviation heap := (list (GameView Content Slot)).
Local Abbreviation build_fingerprinted_pages := (build_fingerprinted_pages render_page hash).
Local Abbreviation run_pass := (run_pass render_page hash).
Local Abbreviation reduce_loop := (reduce_loop render_page hash).
Local Abbreviation reduce_assigned := (reduce_assigned render_page hash).
Local Abbreviation reduce_views := (reduce_views render_page hash assign_page_ids).

Lemma run_pass_removes_less (h : heap) (fps : list FingerprintedPage) (l : list nat)
    (st : pass_state) :
  run_pass h fps l = Ok st →
  Z.of_nat (length l) - Z.of_nat (length (filtered_fp_pages st)) = 0
  ∨ Z.of_nat (length l) - Z.of_nat (length (filtered_fp_pages st)) < Z.of_nat (length l).
Proof.
  intros H. apply (run_pass_head render_page hash) in H.
  destruct l as [|i l].
  - left. by destruct (filtered_fp_pages st).
  - right. destruct (filtered_fp_pages st); [done|]. simpl length. lia.
Qed.

Lemma reduce_loop_short (fuel : nat) (multipass : bool) (s : @loop_state Content Slot) :
  (length (fingerprinted_pages s) ≤ 25)%nat →
  reduce_loop (S fuel) multipass s = reduce_loop (S fuel) false s.
Proof.
  intros Hlen. cbn [Reducer.reduce_loop].
  destruct (Reducer.run_pass _ _ _ _ _) as [st|e] eqn:Hpass; [|done]. cbn [rbind].
  assert (last_pass (Z.of_nat (length (fingerprinted_pages s))
                     - Z.of_nat (length (filtered_fp_pages st))) multipass = true) as ->.
  { apply last_pass_true. unfold MIN_REMOVED_VIEWS_TO_GO_ON.
    destruct (run_pass_removes_less _ _ _ _ Hpass); [by left | right; right; lia]. }
  assert (last_pass (Z.of_nat (length (fingerprinted_pages s))
                     - Z.of_nat (length (filtered_fp_pages st))) false = true) as ->.
  { apply last_pass_true. by right; left. }
  done.
Qed.

(** X17: on a list of at most 25 pages, [multipass] makes no difference: a
    pass never removes the first page, so that it removes fewer than 25 pages
    and the loop stops after the first pass. *)
Theorem multipass_needs_26_pages (h : heap) (game_views : list ref) (multipass : bool) :
  (length (assign_page_ids h game_views).2 ≤ 25)%nat →
  reduce_views h game_views multipass = reduce_views h game_views false.
Proof.
  unfold Reducer.reduce_views.
  destruct (assign_page_ids h game_views) as [h0 gvs]. cbn [snd]. intros Hlen.
  unfold Reducer.reduce_assigned.
  destruct (Reducer.build_fingerprinted_pages _ _ _ _) as [fps|e] eqn:Hb; [|done].
  cbn [rbind].
  pose proof (build_fingerprinted_pages_length render_page hash _ _ _ Hb) as Hfps.
  rewrite (reduce_loop_short (length gvs) multipass); [done|].
  cbn [fingerprinted_pages]. rewrite length_seq. lia.
Qed.

Lemma views_sublist (gvs : list ref) (l1 l2 : list nat) (v1 v2 : list ref) :
  l2 `sublist_of` l1 →
  Forall2 (λ i v, gvs !! i = Some v) l1 v1 →
  Forall2 (λ i v, gvs !! i = Some v) l2 v2 →
  v2 `sublist_of` v1.
Proof.
  intros Hsub. revert v1 v2.
  induction Hsub as [|i l2 l1 Hsub IH|i l2 l1 Hsub IH]; intros v1 v2 H1 H2.
  - apply Forall2_nil_inv_l in H2 as ->. apply sublist_nil_l.
  - apply Forall2_cons_inv_l in H1 as (a1 & v1' & Ha1 & H1 & ->).
    apply Forall2_cons_inv_l in H2 as (a2 & v2' & Ha2 & H2 & ->).
    assert (a1 = a2) as -> by congruence.
    apply sublist_skip. by apply IH.
  - apply Forall2_cons_inv_l in H1 as (a1 & v1' & Ha1 & H1 & ->).
    apply sublist_cons. by apply IH.
Qed.

Lemma reduce_loop_multipass (fuel : nat) (s s1 s2 : @loop_state Content Slot) :
  reduce_loop fuel false s = Ok s1 →
  reduce_loop fuel true s = Ok s2 →
  fingerprinted_pages s2 `sublist_of` fingerprinted_pages s1.
Proof.
  destruct fuel as [|fuel]; [done|]. cbn [Reducer.reduce_loop].
  destruct (Reducer.run_pass _ _ _ _ _) as [st|e] eqn:Hpass; [|done]. cbn [rbind].
  assert (last_pass (Z.of_nat (length (fingerprinted_pages s))
                     - Z.of_nat (length (filtered_fp_pages st))) false = true) as ->.
  { apply last_pass_true. by right; left. }
  intros [= <-]. cbn [fingerprinted_pages].
  destruct (last_pass _ true).
  - by intros [= <-].
  - intros H2.
    by apply (reduce_loop_unchanged render_page hash) in H2 as (_ & _ & _ & Hsub).
Qed.

(** X18: when both return, the run with [multipass] returns pages that the
    run without it returns too, in the same order, and reports at least as
    many removed pages. *)
Theorem multipass_removes_more (h : heap) (game_views : list ref) (out1 out2 : reduced) :
  reduce_views h game_views false = Ok out1 →
  reduce_views h game_views true = Ok out2 →
  out_views out2 `sublist_of` out_views out1
  ∧ out_removed out1 ≤ out_removed out2.
Proof.
  unfold Reducer.reduce_views.
  destruct (assign_page_ids h game_views) as [h0 gvs]. intros H1 H2.
  apply (reduce_assigned_ok render_page hash) in H1
    as (fps1 & s1 & Hb1 & Hloop1 & _ & _ & Hviews1 & -> & _).
  apply (reduce_assigned_ok render_page hash) in H2
    as (fps2 & s2 & Hb2 & Hloop2 & _ & _ & Hviews2 & -> & _).
  assert (fps2 = fps1) as -> by congruence.
  pose proof (reduce_loop_multipass _ _ _ _ Hloop1 Hloop2) as Hsub.
  split; [by eapply views_sublist|].
  pose proof (reduce_loop_total render_page hash _ _ _ _ Hloop1) as Ht1.
  pose proof (reduce_loop_total render_page hash _ _ _ _ Hloop2) as Ht2.
  apply sublist_length in Hsub. cbn [total_views_removed fingerprinted_pages] in Ht1, Ht2.
  lia.
Qed.

Lemma reduce_loop_pass_count (fuel : nat) (multipass : bool)
    (s s' : @loop_state Content Slot) :
  reduce_loop fuel multipass s = Ok s' →
  pass_number s + 1 ≤ pass_number s'
  ∧ 25 * (pass_number s' - pass_number s - 1)
    ≤ total_views_removed s' - total_views_removed s
  ∧ (multipass = false → pass_number s' = pass_number s + 1).
Proof.
  revert s; induction fuel as [|fuel IH]; intros s H; [done|].
  cbn [Reducer.reduce_loop] in H.
  destruct (Reducer.run_pass _ _ _ _ _) as [st|e] eqn:Hpass; [|done]. cbn [rbind] in H.
  pose proof (run_pass_sublist render_page hash _ _ _ _ Hpass) as Hsub.
  apply sublist_length in Hsub.
  destruct (last_pass _ multipass) eqn:Hlast.
  - injection H as <-. cbn [pass_number total_views_removed]. lia.
  - apply IH in H as (Hn & Hr & Hm). cbn [pass_number total_views_removed] in Hn, Hr, Hm.
    unfold last_pass, MIN_REMOVED_VIEWS_TO_GO_ON in Hlast.
    rewrite !orb_false_iff, Z.ltb_ge, negb_false_iff in Hlast.
    destruct Hlast as [[_ Hmulti] Hmin].
    split; [lia|]. split; [lia|]. intros ->. done.
Qed.

(** X19: every pass of a run but the last removed at least 25 pages, so that
    the run reports at least 25 removed pages per pass after the first; a run
    without [multipass] is one pass. *)
Theorem passes_pay_25_pages (h : heap) (game_views : list ref) (multipass : bool)
    (out : reduced) :
  reduce_views h game_views multipass = Ok out →
  25 * (out_passes out - 1) ≤ out_removed out
  ∧ (multipass = false → out_passes out = 1).
Proof.
  unfold Reducer.reduce_views.
  destruct (assign_page_ids h game_views) as [h0 gvs].
  unfold Reducer.reduce_assigned. intros H.
  apply rbind_ok in H as (fps & _ & H). apply rbind_ok in H as (s & Hloop & H).
  destruct (decide _); [done|].
  apply rbind_ok in H as (views & _ & H). injection H as <-.
  cbn [out_passes out_removed].
  apply reduce_loop_pass_count in Hloop as (Hn & Hr & Hm).
  cbn [pass_number total_views_removed] in Hn, Hr, Hm.
  split; [lia|]. intros Hmulti. specialize (Hm Hmulti). lia.
Qed.

End Passes.

(** ** A second run *)

Section Idempotence.

Context {Content Slot Call : Type}.
Variable render_page : Content → list (Slot * option Z) → list Call.
Variable hash : list Call → Z.
Variable assign_page_ids :
  list (GameView Content Slot) → list ref → list (GameView Content Slot) * list ref.
(** The identifier assignment of the second run. *)
Variable assign_again :
  list (GameView Content Slot) → list ref → list (GameView Content Slot) * list ref.

Local Abbreviation heap := (list (GameView Content Slot)).
Local Abbreviation compute_fingerprint := (compute_fingerprint render_page hash).
Local Abbreviation new_fingerprinted_page := (new_fingerprinted_page render_page hash).
Local Abbreviation build_fingerprinted_pages := (build_fingerprinted_pages render_page hash).
Local Abbreviation visit := (visit render_page hash).
Local Abbreviation run_pass := (run_pass render_page hash).
Local Abbreviation reduce_loop := (reduce_loop render_page hash).
Local Abbreviation reduce_assigned := (reduce_assigned render_page hash).






End Idempotence.

(** ** More runs on the four pages *)

Section MoreRuns.

Import Demo.

Lemma returned_pages_in_order_example :
  ∃ out,
    reduce_views draw trace_hash assign_in_order four_pages [0; 1; 2; 3]%nat true = Ok out
    ∧ out_views out `sublist_of` [0; 1; 2; 3]%nat
    ∧ head (out_views out) = Some 0%nat
    ∧ out_views out ≠ [].
Proof.
  eexists. split; [vm_compute; reflexivity|].
  apply (returned_pages_in_order draw trace_hash assign_in_order four_pages
           [0; 1; 2; 3]%nat true).
  vm_compute. reflexivity.
Defined.

Lemma removed_count_example :
  ∃ out,
    reduce_views draw trace_hash assign_in_order four_pages [0; 1; 2; 3]%nat true = Ok out
    ∧ out_removed out = 4 - Z.of_nat (length (out_views out))
    ∧ out_percent out = (100 * out_removed out, 4)
    ∧ 0 ≤ out_removed out < 4.
Proof.
  eexists. split; [vm_compute; reflexivity|].
  apply (removed_count draw trace_hash assign_in_order four_pages
           [0; 1; 2; 3]%nat true).
  vm_compute. reflexivity.
Defined.

Lemma identifiers_after_run_example :
  ∃ out,
    reduce_views draw trace_hash assign_in_order four_pages [0; 1; 2; 3]%nat true = Ok out
    ∧ (∀ v, v ∈ out_views out → page_id (out_heap out) v = page_id four_assigned v)
    ∧ NoDup (page_id (out_heap out) <$> out_views out)
    ∧ (∀ r, r ∈ [0; 1; 2; 3]%nat →
         ∃ q n, q ∈ out_views out
           ∧ page_id (out_heap out) r = Ok (Some n)
           ∧ page_id (out_heap out) q = Ok (Some n)).
Proof.
  eexists. split; [vm_compute; reflexivity|].
  apply (identifiers_after_run draw trace_hash assign_in_order four_pages
           [0; 1; 2; 3]%nat true).
  - apply (bool_decide_unpack _). vm_compute. exact I.
  - vm_compute. reflexivity.
Defined.

Lemma build_wraps_every_page_example :
  length four_fps = 4%nat
  ∧ ∀ i r, [0; 1; 2; 3]%nat !! i = Some r →
      ∃ p, four_fps !! i = Some p ∧ game_view p = r
        ∧ compute_fingerprint draw trace_hash four_assigned r = Ok (fingerprint p).
Proof.
  apply (build_wraps_every_page draw trace_hash four_assigned [0; 1; 2; 3]%nat four_fps).
  vm_compute. reflexivity.
Defined.

Lemma incoming_pages_lead_in_example :
  build_fingerprinted_pages draw trace_hash four_assigned [0; 1; 2; 3]%nat = Ok four_fps
  ∧ ∀ k p j, four_fps !! k = Some p →
      (j ∈ incoming_pages p
       ↔ ∃ r, [0; 1; 2; 3]%nat !! j = Some r ∧ game_view p ∈ targets_of four_assigned r).
Proof.
  split; [vm_compute; reflexivity|].
  apply (incoming_pages_lead_in draw trace_hash four_assigned [0; 1; 2; 3]%nat four_fps).
  - apply (bool_decide_unpack _). vm_compute. exact I.
  - vm_compute. reflexivity.
Defined.

(** A page leading to a page that is not in the list. *)
Lemma build_missing_target_example :
  build_fingerprinted_pages draw trace_hash
    [mkGameView 3 [(0, Some 1%nat)] (Some 1) None; mkGameView 4 [] (Some 2) None]
    [0%nat]
  = Err KeyError.
Proof.
  apply (build_missing_target draw trace_hash _ [0%nat] 0%nat 1%nat).
  - apply (bool_decide_unpack _). vm_compute. exact I.
  - apply list_elem_of_here.
  - vm_compute. apply list_elem_of_here.
  - intros r' Hr'. apply list_elem_of_singleton in Hr'. subst r'.
    vm_compute. discriminate.
Defined.

Lemma multipass_needs_26_pages_example :
  reduce_views draw trace_hash assign_in_order four_pages [0; 1; 2; 3]%nat true
  = reduce_views draw trace_hash assign_in_order four_pages [0; 1; 2; 3]%nat false.
Proof.
  apply (multipass_needs_26_pages draw trace_hash assign_in_order four_pages
           [0; 1; 2; 3]%nat true).
  simpl. lia.
Defined.

Lemma multipass_removes_more_example :
  ∃ out1 out2,
    reduce_views draw trace_hash assign_in_order four_pages [0; 1; 2; 3]%nat false = Ok out1
    ∧ reduce_views draw trace_hash assign_in_order four_pages [0; 1; 2; 3]%nat true = Ok out2
    ∧ out_views out2 `sublist_of` out_views out1
    ∧ out_removed out1 ≤ out_removed out2.
Proof.
  eexists. eexists. split; [vm_compute; reflexivity|]. split; [vm_compute; reflexivity|].
  apply (multipass_removes_more draw trace_hash assign_in_order four_pages
           [0; 1; 2; 3]%nat).
  - vm_compute. reflexivity.
  - vm_compute. reflexivity.
Defined.

Lemma passes_pay_25_pages_example :
  ∃ out,
    reduce_views draw trace_hash assign_in_order four_pages [0; 1; 2; 3]%nat false = Ok out
    ∧ 25 * (out_passes out - 1) ≤ out_removed out
    ∧ (false = false → out_passes out = 1).
Proof.
  eexists. split; [vm_compute; reflexivity|].
  apply (passes_pay_25_pages draw trace_hash assign_in_order four_pages
           [0; 1; 2; 3]%nat false).
  vm_compute. reflexivity.
Defined.



(** Scenario A: the second run finds the merged page behind an action slot
    of a page it is given, reads its identifier through the redirection, and
    removes nothing. *)
Lemma scenario_a_rerun :
  ∃ out,
    reduce_views draw trace_hash assign_in_order scenario_a [0; 1; 2]%nat true = Ok out
    ∧ out_views out = [0; 1]%nat
    ∧ out_removed out = 1
    ∧ render_trace draw (out_heap out) 0%nat = Ok (draw 1 [(0, Some 2); (1, Some 2)])
    ∧ reduce_views draw trace_hash keep_ids (out_heap out) (out_views out) true
      = Ok (mkReduced (out_heap out) (out_views out) 0 (0, 2) 1).
Proof.
  eexists. split; [vm_compute; reflexivity|]. split; [reflexivity|].
  split; [reflexivity|]. split; [vm_compute; reflexivity|]. vm_compute. reflexivity.
Qed.

End MoreRuns.

(** ** The recorder *)

Section Recorded.

Import Recorder.

Context {Value : Type}.
Variable pdf_parsepng : Value → result Value.
Variable hash : list (call Value) → Z.

Local Abbreviation recorder := (FakePdfRecorder Value).
Local Abbreviation run := (run pdf_parsepng).
Local Abbreviation get_fingerprint := (get_fingerprint hash).

Lemma run_then (s t : script Value) (r : recorder) :
  run (then_ s t) r = do r' <- run s r; run t r'.
Proof.
  revert r. induction s as
    [ | ? ? ? ? k IH | k IH | ? ? ? k IH | ? ? ? k IH | red g b k IH | ? ? ? ? ? ? k IH
      | ? ? ? ? body IHb k IH | ? ? ? body IHb k IH | k IH | ? ? k IH
      | ? ? ? ? ? ? k IH | ? k IH ];
    intros r; cbn [Recorder.run then_]; try done.
  - destruct (Recorder.run _ body _); [apply IH | done].
  - destruct (Recorder.run _ body _); [apply IH | done].
  - destruct (link _ _ _ _ _ _ _); [apply IH | done].
  - destruct (_parsepng _ _ _); [apply IH | done].
Qed.

(** X7: whatever the renderer does, the recorder only ever appends to its
    calls and never forgets a handle. *)
Theorem calls_only_grow (s : script Value) (r r' : recorder) :
  run s r = Ok r' →
  _calls r `prefix_of` _calls r' ∧ dom (_links r) ⊆ dom (_links r').
Proof.
  revert r r'. induction s as
    [ | ? ? ? ? k IH | k IH | ? ? ? k IH | ? ? ? k IH | red g b k IH | ? ? ? ? ? ? k IH
      | ? ? ? ? body IHb k IH | ? ? ? body IHb k IH | k IH | ? ? k IH
      | ? ? ? ? l ? k IH | ? k IH ];
    intros r r' Hrun; cbn [Recorder.run] in Hrun.
  - injection Hrun as <-. done.
  - by apply IH.
  - apply IH in Hrun as [Hp Hd]. split; [|done].
    etrans; [|exact Hp]. by apply prefix_app_r.
  - apply IH in Hrun as [Hp Hd]. split; [|done].
    etrans; [|exact Hp]. by apply prefix_app_r.
  - apply IH in Hrun as [Hp Hd]. split; [|done].
    etrans; [|exact Hp]. by apply prefix_app_r.
  - apply IH in Hrun as [Hp Hd]. split; [|done].
    etrans; [|exact Hp]. by apply prefix_app_r.
  - apply IH in Hrun as [Hp Hd]. split; [|done].
    etrans; [|exact Hp]. by apply prefix_app_r.
  - destruct (Recorder.run _ body _) as [r1|] eqn:Hbody; [|done]. simpl in Hrun.
    apply IHb in Hbody as [Hp1 Hd1]. apply IH in Hrun as [Hp Hd].
    split; [|by etrans]. etrans; [|exact Hp]. etrans; [|exact Hp1]. by apply prefix_app_r.
  - destruct (Recorder.run _ body _) as [r1|] eqn:Hbody; [|done]. simpl in Hrun.
    apply IHb in Hbody as [Hp1 Hd1]. apply IH in Hrun as [Hp Hd].
    split; [|by etrans]. etrans; [|exact Hp]. etrans; [|exact Hp1]. by apply prefix_app_r.
  - by apply IH in Hrun.
  - apply IH in Hrun as [Hp Hd]. split; [done|].
    etrans; [|exact Hd]. apply dom_insert_subseteq.
  - destruct (link _ _ _ _ _ _ _) as [r1|] eqn:Hlink; [|done]. simpl in Hrun.
    apply IH in Hrun as [Hp Hd].
    assert (_calls r `prefix_of` _calls r1 ∧ _links r1 = _links r) as [Hp1 Hl1].
    { unfold link in Hlink. destruct l as [url|n].
      - injection Hlink as <-. split; [by apply prefix_app_r | done].
      - destruct (_links r !! n); [|done]. injection Hlink as <-.
        split; [by apply prefix_app_r | done]. }
    rewrite Hl1 in Hd. split; [by etrans | done].
  - destruct (_parsepng _ _ _) as [info|]; [|done]. simpl in Hrun. by apply IH in Hrun.
Qed.

Lemma link_keeps_links (r r' : recorder) (x y w h : Value) (l : link_arg Value)
    (alt_text : Value) :
  link r x y w h l alt_text = Ok r' → _links r' = _links r.
Proof.
  unfold link. destruct l as [url|n].
  - by intros [= <-].
  - destruct (_links r !! n); [|done]. by intros [= <-].
Qed.

Lemma run_keeps_binding (n : Z) (s : script Value) (r r' : recorder) :
  never_binds n s → run s r = Ok r' → _links r' !! n = _links r !! n.
Proof.
  revert r r'. induction s as
    [ | ? ? ? ? k IH | k IH | ? ? ? k IH | ? ? ? k IH | red g b k IH | ? ? ? ? ? ? k IH
      | ? ? ? ? body IHb k IH | ? ? ? body IHb k IH | k IH | l ? k IH
      | ? ? ? ? l ? k IH | ? k IH ];
    intros r r' Hnb Hrun; cbn [Recorder.run never_binds] in Hrun, Hnb.
  - by injection Hrun as <-.
  - exact (IH _ _ Hnb Hrun).
  - exact (IH _ _ Hnb Hrun).
  - exact (IH _ _ Hnb Hrun).
  - exact (IH _ _ Hnb Hrun).
  - exact (IH _ _ Hnb Hrun).
  - exact (IH _ _ Hnb Hrun).
  - destruct Hnb as [Hnb1 Hnb2].
    destruct (Recorder.run _ body _) as [r1|] eqn:Hbody; [|done]. simpl in Hrun.
    rewrite (IH _ _ Hnb2 Hrun). exact (IHb _ _ Hnb1 Hbody).
  - destruct Hnb as [Hnb1 Hnb2].
    destruct (Recorder.run _ body _) as [r1|] eqn:Hbody; [|done]. simpl in Hrun.
    rewrite (IH _ _ Hnb2 Hrun). exact (IHb _ _ Hnb1 Hbody).
  - exact (IH _ _ _ (Hnb _) Hrun).
  - destruct Hnb as [Hne Hnb]. rewrite (IH _ _ Hnb Hrun).
    cbn [set_link _links]. by rewrite lookup_insert_ne.
  - destruct (link _ _ _ _ _ _ _) as [r1|] eqn:Hlink; [|done]. simpl in Hrun.
    rewrite (IH _ _ Hnb Hrun). by rewrite (link_keeps_links _ _ _ _ _ _ _ _ Hlink).
  - destruct (_parsepng _ _ _) as [info|]; [|done]. simpl in Hrun.
    exact (IH _ _ _ (Hnb _) Hrun).
Qed.

(** X8: a [link] call through a handle records the page of the last
    [set_link] on that handle, whatever the renderer did in between. *)
Theorem link_records_bound_page (n : Z) (page : Value) (s : script Value)
    (r r1 : recorder) (x y w h alt_text : Value) :
  never_binds n s →
  run s (set_link r n page) = Ok r1 →
  link r1 x y w h (Handle n) alt_text
  = Ok (record r1 (call_link x y w h (TargetPage page) alt_text)).
Proof.
  intros Hnb Hrun. unfold link.
  rewrite (run_keeps_binding _ _ _ _ Hnb Hrun). cbn [set_link _links].
  by rewrite lookup_insert_eq.
Qed.

(** X9: a [link] call through a handle that no [set_link] has bound ends on
    [KeyError]: [add_link] alone does not make a handle usable. *)
Theorem link_unbound_handle (s : script Value) (r : recorder)
    (k : Z → script Value) (x y w h alt_text : Value) :
  handles_in_a_row r →
  never_binds (add_link r) s →
  run (AddLink (λ l, then_ s (Link x y w h (Handle l) alt_text (k l)))) r
  = do _ <- run s r; Err KeyError.
Proof.
  intros Hrow Hnb. cbn [Recorder.run]. rewrite run_then.
  destruct (Recorder.run _ s r) as [r2|] eqn:Hrun; [|done].
  cbn [rbind Recorder.run]. unfold link.
  rewrite (run_keeps_binding _ _ _ _ Hnb Hrun).
  destruct (_links r !! add_link r) as [page|] eqn:Hl; [|done].
  assert (is_Some (_links r !! add_link r)) as Hs by (by eexists).
  apply Hrow in Hs. unfold add_link in Hs. lia.
Qed.

Lemma new_recorder_handles : handles_in_a_row (new_recorder : recorder).
Proof.
  intros n. cbn [new_recorder _links]. rewrite lookup_empty, map_size_empty.
  split; [by intros [? ?] | lia].
Qed.

Lemma add_link_fresh (r : recorder) :
  handles_in_a_row r → _links r !! add_link r = None.
Proof.
  intros Hrow. destruct (_links r !! add_link r) as [page|] eqn:Hl; [|done].
  assert (is_Some (_links r !! add_link r)) as Hs by (by eexists).
  apply Hrow in Hs. unfold add_link in Hs. lia.
Qed.

Lemma set_link_handles (r : recorder) (page : Value) :
  handles_in_a_row r → handles_in_a_row (set_link r (add_link r) page).
Proof.
  intros Hrow n. pose proof (add_link_fresh _ Hrow) as Hfresh.
  cbn [set_link _links]. rewrite map_size_insert_None by done.
  rewrite lookup_insert_is_Some, (Hrow n). unfold add_link. lia.
Qed.

(** X10: when the renderer binds every handle as soon as [add_link] returns
    it, the handles in use stay 1, 2, ... without a gap, every [add_link]
    returns a handle that is not in use, and no binding is ever replaced. *)
Theorem handles_never_reused (s : script Value) (r r' : recorder) :
  binds_at_once s → handles_in_a_row r → run s r = Ok r' →
  handles_in_a_row r'
  ∧ _links r' !! add_link r' = None
  ∧ ∀ n page, _links r !! n = Some page → _links r' !! n = Some page.
Proof.
  intros Hs. revert r r'.
  assert (∀ r r', handles_in_a_row r → run s r = Ok r' →
            handles_in_a_row r'
            ∧ ∀ n page, _links r !! n = Some page → _links r' !! n = Some page) as Hmain.
  { induction Hs as
      [ | ? ? ? ? k _ IH | k _ IH | ? ? ? k _ IH | ? ? ? k _ IH | red g b k _ IH
        | ? ? ? ? ? ? k _ IH | ? ? ? ? body k _ IHb _ IH | ? ? ? body k _ IHb _ IH
        | page k _ IH | ? ? ? ? l ? k _ IH | ? k _ IH ];
      intros r r' Hrow Hrun; cbn [Recorder.run] in Hrun.
    - by injection Hrun as <-.
    - match type of Hrun with Recorder.run _ _ ?r1 = _ => exact (IH r1 _ Hrow Hrun) end.
    - match type of Hrun with Recorder.run _ _ ?r1 = _ => exact (IH r1 _ Hrow Hrun) end.
    - match type of Hrun with Recorder.run _ _ ?r1 = _ => exact (IH r1 _ Hrow Hrun) end.
    - match type of Hrun with Recorder.run _ _ ?r1 = _ => exact (IH r1 _ Hrow Hrun) end.
    - match type of Hrun with Recorder.run _ _ ?r1 = _ => exact (IH r1 _ Hrow Hrun) end.
    - match type of Hrun with Recorder.run _ _ ?r1 = _ => exact (IH r1 _ Hrow Hrun) end.
    - destruct (Recorder.run _ body _) as [r1|] eqn:Hbody; [|done]. simpl in Hrun.
      match type of Hbody with Recorder.run _ _ ?r0 = _ =>
        destruct (IHb r0 _ Hrow Hbody) as [Hrow1 Hkeep1] end.
      destruct (IH _ _ Hrow1 Hrun) as [Hrow' Hkeep]. split; [done|].
      intros n p Hn. apply Hkeep, Hkeep1, Hn.
    - destruct (Recorder.run _ body _) as [r1|] eqn:Hbody; [|done]. simpl in Hrun.
      match type of Hbody with Recorder.run _ _ ?r0 = _ =>
        destruct (IHb r0 _ Hrow Hbody) as [Hrow1 Hkeep1] end.
      destruct (IH _ _ Hrow1 Hrun) as [Hrow' Hkeep]. split; [done|].
      intros n p Hn. apply Hkeep, Hkeep1, Hn.
    - destruct (IH _ _ _ (set_link_handles _ (page (add_link r)) Hrow) Hrun)
        as [Hrow' Hkeep].
      split; [done|]. intros n p Hn. apply Hkeep. cbn [set_link _links].
      rewrite lookup_insert_ne; [done|].
      intros <-. rewrite (add_link_fresh _ Hrow) in Hn. done.
    - destruct (link _ _ _ _ _ _ _) as [r1|] eqn:Hlink; [|done]. simpl in Hrun.
      pose proof (link_keeps_links _ _ _ _ _ _ _ _ Hlink) as Hl.
      assert (handles_in_a_row r1) as Hrow1.
      { intros n. rewrite Hl. apply Hrow. }
      destruct (IH _ _ Hrow1 Hrun) as [Hrow' Hkeep]. split; [done|].
      intros n p Hn. apply Hkeep. by rewrite Hl.
    - destruct (_parsepng _ _ _) as [info|]; [|done]. simpl in Hrun.
      exact (IH _ _ _ Hrow Hrun). }
  intros r r' Hrow Hrun. destruct (Hmain _ _ Hrow Hrun) as [Hrow' Hkeep].
  split; [done|]. split; [by apply add_link_fresh | done].
Qed.

(** X11: [add_link] reserves nothing: two handles taken before either is
    bound are the same handle, and a [link] through the first then records
    the page of the second. *)
Theorem add_link_reserves_nothing (r : recorder) (page1 page2 x y w h alt_text : Value) :
  ∃ r',
    run (AddLink (λ l1, AddLink (λ l2,
           SetLink l1 page1 (SetLink l2 page2
             (Link x y w h (Handle l1) alt_text Done))))) r = Ok r'
    ∧ _calls r' = _calls r ++ [call_link x y w h (TargetPage page2) alt_text].
Proof.
  eexists. split.
  - cbn [Recorder.run]. unfold link. cbn [set_link _links _calls].
    rewrite lookup_insert_eq. reflexivity.
  - reflexivity.
Qed.

Lemma run_same_but_pages (s1 s2 : script Value) (r1 r2 : recorder) :
  same_but_pages s1 s2 →
  _calls r1 = _calls r2 → dom (_links r1) = dom (_links r2) →
  result_rel (λ a b, _calls a = _calls b ∧ dom (_links a) = dom (_links b))
    (run s1 r1) (run s2 r2).
Proof.
  intros Hs. revert r1 r2.
  induction Hs as
    [ | ? ? ? ? k1 k2 _ IH | k1 k2 _ IH | ? ? ? k1 k2 _ IH | ? ? ? k1 k2 _ IH
      | red g b k1 k2 _ IH | ? ? ? ? ? ? k1 k2 _ IH
      | ? ? ? ? body1 body2 k1 k2 _ IHb _ IH | ? ? ? body1 body2 k1 k2 _ IHb _ IH
      | k1 k2 _ IH | l page1 page2 k1 k2 _ IH | ? ? ? ? url ? k1 k2 _ IH
      | ? k1 k2 _ IH ];
    intros r1 r2 Hc Hd; cbn [Recorder.run].
  - done.
  - by apply IH.
  - apply IH; [|done]. unfold add_page, record. cbn [_calls]. by rewrite Hc.
  - apply IH; [|done]. unfold set_font, record. cbn [_calls]. by rewrite Hc.
  - apply IH; [|done]. unfold text, record. cbn [_calls]. by rewrite Hc.
  - apply IH; [|done]. unfold set_text_color, record. cbn [_calls]. by rewrite Hc.
  - apply IH; [|done]. unfold image, record. cbn [_calls]. by rewrite Hc.
  - assert (result_rel (λ a b, _calls a = _calls b ∧ dom (_links a) = dom (_links b))
              (run body1 (rect_clip r1 x y w h)) (run body2 (rect_clip r2 x y w h)))
      as Hbody.
    { apply IHb; [|done]. unfold rect_clip, record. cbn [_calls]. by rewrite Hc. }
    destruct (Recorder.run _ body1 _), (Recorder.run _ body2 _); try done.
    destruct Hbody. by apply IH.
  - assert (result_rel (λ a b, _calls a = _calls b ∧ dom (_links a) = dom (_links b))
              (run body1 (rotation r1 angle x y)) (run body2 (rotation r2 angle x y)))
      as Hbody.
    { apply IHb; [|done]. unfold rotation, record. cbn [_calls]. by rewrite Hc. }
    destruct (Recorder.run _ body1 _), (Recorder.run _ body2 _); try done.
    destruct Hbody. by apply IH.
  - assert (add_link r1 = add_link r2) as ->.
    { unfold add_link. by rewrite <- !size_dom, Hd. }
    by apply IH.
  - apply IH; [done|]. cbn [set_link _links]. by rewrite !dom_insert_L, Hd.
  - cbn [link rbind]. apply IH; [|done]. unfold record. cbn [_calls]. by rewrite Hc.
  - unfold _parsepng. destruct (pdf_parsepng filename); [|done]. by apply IH.
Qed.

(** X12: the fingerprint does not depend on the pages that the handles are
    bound to, as long as no [link] call goes through a handle: [image] records
    the handle it is given, not the page behind it. *)
Theorem fingerprint_ignores_bound_pages (s1 s2 : script Value) (r1 r2 : recorder) :
  same_but_pages s1 s2 →
  _calls r1 = _calls r2 → dom (_links r1) = dom (_links r2) →
  result_rel (λ a b, _calls a = _calls b ∧ get_fingerprint a = get_fingerprint b)
    (run s1 r1) (run s2 r2).
Proof.
  intros Hs Hc Hd. pose proof (run_same_but_pages _ _ _ _ Hs Hc Hd) as H.
  destruct (Recorder.run _ s1 r1), (Recorder.run _ s2 r2); try done.
  destruct H as [Hcalls _]. split; [done|].
  unfold Recorder.get_fingerprint. by rewrite Hcalls.
Qed.

(** X13: the recorder does not record where a [with] block of [rect_clip] or
    [rotation] ends: closing the block early or late gives the same calls. *)
Theorem block_end_not_recorded (x y w h angle : Value) (body k : script Value)
    (r : recorder) :
  run (RectClip x y w h body k) r = run (RectClip x y w h (then_ body k) Done) r
  ∧ run (Rotation angle x y body k) r = run (Rotation angle x y (then_ body k) Done) r.
Proof.
  split; cbn [Recorder.run]; rewrite run_then.
  - destruct (Recorder.run _ body _) as [r1|]; [|done]. cbn [rbind].
    by destruct (Recorder.run _ k r1).
  - destruct (Recorder.run _ body _) as [r1|]; [|done]. cbn [rbind].
    by destruct (Recorder.run _ k r1).
Qed.

End Recorded.

(** ** Runs of the recorder *)

Section RecorderRuns.

Import Recorder.

(** A page with one image that is a link to [page]. *)
Definition image_link_to (page : Z) : script Z :=
  AddPage (AddLink (λ l, SetLink l page (Image 1 2 3 4 5 (Handle l) Done))).

Definition count_calls (l : list (call Z)) : Z := Z.of_nat (length l).

Lemma calls_only_grow_example :
  ∃ r' : FakePdfRecorder Z,
    run Ok (image_link_to 9) new_recorder = Ok r'
    ∧ _calls r' = [call_add_page; call_image 1 2 3 4 5 (Handle 1)]
    ∧ _calls (new_recorder : FakePdfRecorder Z) `prefix_of` _calls r'
    ∧ dom (_links (new_recorder : FakePdfRecorder Z)) ⊆ dom (_links r').
Proof.
  eexists. split; [reflexivity|]. split; [reflexivity|].
  apply (calls_only_grow Ok (image_link_to 9) new_recorder).
  reflexivity.
Defined.

Lemma link_records_bound_page_example :
  link (set_link (text (set_link new_recorder 1 9) 4 5 6) 2 7) 0 0 8 8 (Handle 1) 0
  = Ok (record (set_link (text (set_link new_recorder 1 9) 4 5 6) 2 7)
          (call_link 0 0 8 8 (TargetPage 9) 0)).
Proof.
  apply (link_records_bound_page Ok 1 9 (Text 4 5 6 (SetLink 2 7 Done)) new_recorder).
  - simpl. split; [lia | exact I].
  - reflexivity.
Defined.

Lemma link_unbound_handle_example :
  run Ok (AddLink (λ l, then_ (AddPage Done) (Link 0 0 8 8 (Handle l) 0 Done)))
    (new_recorder : FakePdfRecorder Z)
  = Err KeyError.
Proof.
  apply (link_unbound_handle Ok (AddPage Done) new_recorder (λ _, Done) 0 0 8 8 0).
  - apply new_recorder_handles.
  - exact I.
Defined.

Lemma handles_never_reused_example :
  ∃ r',
    run Ok (then_ (image_link_to 9) (image_link_to 7)) new_recorder = Ok r'
    ∧ handles_in_a_row r'
    ∧ _links r' !! add_link r' = None
    ∧ ∀ n page, (∅ : gmap Z Z) !! n = Some page → _links r' !! n = Some page.
Proof.
  eexists. split; [reflexivity|].
  apply (handles_never_reused Ok (then_ (image_link_to 9) (image_link_to 7)) new_recorder).
  - simpl. constructor.
    apply (bo_AddLink (λ _, 9)
             (λ l, Image 1 2 3 4 5 (Handle l)
                     (AddPage (AddLink (λ l', SetLink l' 7
                        (Image 1 2 3 4 5 (Handle l') Done)))))).
    intros l. do 2 constructor.
    apply (bo_AddLink (λ _, 7) (λ l', Image 1 2 3 4 5 (Handle l') Done)).
    intros l'. do 2 constructor.
  - apply new_recorder_handles.
  - reflexivity.
Defined.

Lemma fingerprint_ignores_bound_pages_example :
  result_rel
    (λ a b, _calls a = _calls b
            ∧ get_fingerprint count_calls a = get_fingerprint count_calls b)
    (run Ok (image_link_to 9) new_recorder) (run Ok (image_link_to 7) new_recorder).
Proof.
  apply (fingerprint_ignores_bound_pages Ok count_calls
           (image_link_to 9) (image_link_to 7) new_recorder new_recorder).
  - do 2 constructor. intros l. do 3 constructor.
  - reflexivity.
  - reflexivity.
Defined.

End RecorderRuns.

(** ** The title screens *)

Section TitleScreens.

Import Trailer.

Context {Image : Type}.
Variable nightsky : Image.
Variable bitfont_render : Image → string → Z → Z → Z → Image.

Local Abbreviation title_frame := (title_frame nightsky bitfont_render).
Local Abbreviation title_screen := (title_screen nightsky bitfont_render).
Local Abbreviation trailer_end := (trailer_end nightsky bitfont_render).

Lemma last_image_map (text : option string) (sizes : list Z) (size : Z) :
  last sizes = Some size →
  last_image (map (title_frame text) sizes) = Ok (title_frame text size).
Proof.
  intros Hlast. unfold last_image.
  change (map (title_frame text) sizes) with (title_frame text <$> sizes).
  by rewrite fmap_last, Hlast.
Qed.

(** X14: [title_screen] fails exactly when it is given no size, or several
    sizes and no text; the failure is then an [AssertionError]. *)
Theorem title_screen_asserts (text : option string) (sizes : list Z) (e : error) :
  title_screen text sizes = Err e ↔
  e = AssertionError ∧ (sizes = [] ∨ (1 < length sizes)%nat ∧ truthy text = false).
Proof.
  unfold Trailer.title_screen.
  destruct sizes as [|size sizes]; [cbn; split; [intros [= <-]; auto | by intros [-> _]]|].
  rewrite bool_decide_eq_false_2 by done. cbn [negb assert_that rbind].
  destruct (bool_decide (1 < length (size :: sizes))%nat) eqn:Hlen.
  - apply bool_decide_eq_true_1 in Hlen.
    destruct (truthy text) eqn:Htext; cbn [assert_that rbind].
    + destruct (last (size :: sizes)) as [size'|] eqn:Hlast.
      * rewrite (last_image_map _ _ _ Hlast). cbn [rbind].
        split; [done | intros [_ [? | [_ ?]]]; done].
      * by rewrite last_cons in Hlast; destruct (last sizes).
    + split; [intros [= <-]; auto | by intros [-> _]].
  - apply bool_decide_eq_false_1 in Hlen.
    split; [done | intros [_ [? | [? _]]]; done].
Qed.

(** X15: when [title_screen] returns, it returns one frame per size, in the
    order of the sizes; with several sizes, 20 more frames follow, all of
    them the frame of the last size. *)
Theorem title_screen_frames (text : option string) (sizes : list Z)
    (images : list Image) :
  title_screen text sizes = Ok images →
  take (length sizes) images = title_frame text <$> sizes
  ∧ ((1 < length sizes)%nat →
       ∃ size, last sizes = Some size
         ∧ drop (length sizes) images = replicate 20 (title_frame text size))
  ∧ (length sizes = 1%nat → drop (length sizes) images = []).
Proof.
  unfold Trailer.title_screen.
  destruct sizes as [|size sizes]; [done|].
  rewrite bool_decide_eq_false_2 by done. cbn [negb assert_that rbind].
  destruct (bool_decide (1 < length (size :: sizes))%nat) eqn:Hlen.
  - apply bool_decide_eq_true_1 in Hlen.
    destruct (truthy text) eqn:Htext; cbn [assert_that rbind]; [|done].
    destruct (last (size :: sizes)) as [size'|] eqn:Hlast.
    2: { by rewrite last_cons in Hlast; destruct (last sizes). }
    rewrite (last_image_map _ _ _ Hlast). cbn [rbind]. intros [= <-].
    change (map (title_frame text) (size :: sizes))
      with (title_frame text <$> size :: sizes).
    assert (length (title_frame text <$> size :: sizes) = length (size :: sizes))
      as Hl by apply length_fmap.
    split.
    { rewrite <- Hl.
      exact (take_app_length (title_frame text <$> size :: sizes)
               (replicate 20 (title_frame text size'))). }
    split; [|lia]. intros _. exists size'. split; [done|].
    rewrite <- Hl.
    exact (drop_app_length (title_frame text <$> size :: sizes)
             (replicate 20 (title_frame text size'))).
  - apply bool_decide_eq_false_1 in Hlen. intros [= <-].
    change (map (title_frame text) (size :: sizes))
      with (title_frame text <$> size :: sizes).
    split; [by rewrite <- (length_fmap (title_frame text)), firstn_all|].
    split; [lia|]. intros _.
    by rewrite <- (length_fmap (title_frame text)), drop_all.
Qed.

(** X16: [trailer_end] never fails and returns 100 frames: ten times nine
    frames with the closing text followed by one frame without it. *)
Theorem trailer_end_blinks :
  ∃ images,
    trailer_end = Ok images
    ∧ length images = 100%nat
    ∧ ∀ i, (i < 100)%nat →
        images !! i
        = Some (if bool_decide (i `mod` 10 = 9)%nat
                then bitfont_render nightsky "UNDYING DUSK" 80 8 16
                else bitfont_render (bitfont_render nightsky "UNDYING DUSK" 80 8 16)
                       title_text 80 70 8).
Proof.
  eexists. split; [vm_compute; reflexivity|]. split; [reflexivity|].
  intros i Hi. do 100 (destruct i as [|i]; [reflexivity|]). lia.
Qed.

End TitleScreens.

(** ** A title screen that grows *)

Section TitleScreenRuns.

Import Trailer.

(** A frame as the list of the texts drawn on it, with their sizes. *)
Definition draw_text (img : list (string * Z)) (s : string) (x y size : Z)
    : list (string * Z) :=
  img ++ [(s, size)].

Lemma title_screen_frames_example :
  ∃ images,
    title_screen [] draw_text (Some "Reason #1") [4; 5; 6] = Ok images
    ∧ length images = 23%nat
    ∧ take 3 images = title_frame [] draw_text (Some "Reason #1") <$> [4; 5; 6]
    ∧ ((1 < 3)%nat →
         ∃ size, last [4; 5; 6] = Some size
           ∧ drop 3 images = replicate 20 (title_frame [] draw_text (Some "Reason #1") size))
    ∧ (3 = 1 → drop 3 images = [])%nat.
Proof.
  eexists. split; [vm_compute; reflexivity|]. split; [reflexivity|].
  apply (title_screen_frames [] draw_text (Some "Reason #1") [4; 5; 6]).
  vm_compute. reflexivity.
Defined.

End TitleScreenRuns.
